(** * send_ai_daily: the RSS digest pipeline of [send_ai_daily.py]

    A shallow embedding of the pipeline (dedup store, feed filter, scoring
    selection, report repair, Feishu delivery, driver) and the properties
    of it that the specification states.

    Conventions.
    - A Python [str] is a list of Unicode code points ([str := list N]), so
      that [len], slicing and comparison count characters as Python does.
    - [bytes] are lists of numbers below 256.
    - Library primitives the program calls but does not define (SHA-256,
      HMAC, base64, [dateutil]'s parser) are the fields of a record [Lib];
      what a run meets outside the program (feeds, clock readings, answers
      of the model and of the webhook, configuration from the process
      environment) is a record [World].  The program text around them is
      embedded as it is written.
    - An uncaught Python exception or [sys.exit] ends the run; functions that
      can end the run return a [result].
    - File operations are taken to succeed; the store file is UTF-8 text,
      and so are the links of the feed entries and the webhook secret, which
      the program encodes.  What [print] can write depends on the terminal,
      which is part of the [World]. *)

From Stdlib Require Import ZArith NArith QArith List String Ascii Lia.
From Stdlib Require Import DecimalString.
From Stdlib Require Import Sorting.Sorted Sorting.Permutation.
From stdpp Require Import base list gmap sets.

Local Open Scope N_scope.
Local Set Warnings "-register-all".

(** ** Python strings *)

Module Str.

Definition char := N.
Definition str := list char.
Definition bytes := list N.

(** Decoding of the UTF-8 literals written in this file. *)
Fixpoint utf8_decode (bs : bytes) : str :=
  match bs with
  | [] => []
  | b :: r =>
      if b <? 128 then b :: utf8_decode r
      else if b <? 224 then
        match r with
        | c1 :: r' => ((b - 192) * 64 + (c1 - 128)) :: utf8_decode r'
        | _ => []
        end
      else if b <? 240 then
        match r with
        | c1 :: c2 :: r' =>
            ((b - 224) * 4096 + (c1 - 128) * 64 + (c2 - 128)) :: utf8_decode r'
        | _ => []
        end
      else
        match r with
        | c1 :: c2 :: c3 :: r' =>
            ((b - 240) * 262144 + (c1 - 128) * 4096 + (c2 - 128) * 64 + (c3 - 128))
              :: utf8_decode r'
        | _ => []
        end
  end.

Definition lit (s : string) : str :=
  utf8_decode (List.map N_of_ascii (list_ascii_of_string s)).

(** [s.encode("utf-8")] *)
Definition utf8_encode_char (c : char) : bytes :=
  if c <? 128 then [c]
  else if c <? 2048 then [192 + c / 64; 128 + c mod 64]
  else if c <? 65536 then [224 + c / 4096; 128 + (c / 64) mod 64; 128 + c mod 64]
  else [240 + c / 262144; 128 + (c / 4096) mod 64; 128 + (c / 64) mod 64; 128 + c mod 64].

Definition encode (s : str) : bytes := flat_map utf8_encode_char s.

(** [a < b] on [str]: lexicographic on code points. *)
Fixpoint ltb (a b : str) : bool :=
  match a, b with
  | _, [] => false
  | [], _ :: _ => true
  | x :: a', y :: b' => (x <? y) || ((x =? y) && ltb a' b')
  end.

(** [c.isspace()] for the characters [str.strip()] removes. *)
Definition isspace (c : char) : bool :=
  ((9 <=? c) && (c <=? 13)) || ((28 <=? c) && (c <=? 32))
  || (c =? 133) || (c =? 160) || (c =? 5760)
  || ((8192 <=? c) && (c <=? 8202))
  || (c =? 8232) || (c =? 8233) || (c =? 8239) || (c =? 8287) || (c =? 12288).

Fixpoint lstrip (s : str) : str :=
  match s with
  | [] => []
  | c :: s' => if isspace c then lstrip s' else s
  end.

Definition rstrip (s : str) : str := rev (lstrip (rev s)).

Definition strip (s : str) : str := rstrip (lstrip s).

(** [s.startswith(p)] and [p in s]. *)
Fixpoint startswith (p s : str) : bool :=
  match p, s with
  | [], _ => true
  | _ :: _, [] => false
  | x :: p', y :: s' => (x =? y) && startswith p' s'
  end.

Fixpoint contains (p s : str) : bool :=
  startswith p s ||
  match s with
  | [] => false
  | _ :: s' => contains p s'
  end.

(** [str(n)] for an integer. *)
Definition of_Z (z : Z) : str :=
  lit (DecimalString.NilZero.string_of_int (Z.to_int z)).

Definition newline : char := 10.
Definition carriage_return : char := 13.

(** What a text-mode read ([open(path, "r")], so [newline=None]) makes of
    the text of a file: the line ends ["\r\n"] and ["\r"] become ["\n"]. *)
Fixpoint universal_newlines (s : str) : str :=
  match s with
  | [] => []
  | c :: s' =>
      if c =? carriage_return then
        match s' with
        | c' :: s'' =>
            if c' =? newline then newline :: universal_newlines s''
            else newline :: universal_newlines s'
        | [] => [newline]
        end
      else c :: universal_newlines s'
  end.

(** Iterating a text file, on the text as read: the lines, each with its
    terminator. *)
Fixpoint readlines (s : str) : list str :=
  match s with
  | [] => []
  | c :: s' =>
      if c =? newline then [c] :: readlines s'
      else match readlines s' with
           | [] => [[c]]
           | l :: ls => (c :: l) :: ls
           end
  end.

End Str.
Import Str.

(** ** [list.sort] and [sorted]

    Python's sort is stable; with [reverse=True] elements that compare equal
    still keep their original order.  [before y x] says that [y] has to come
    strictly before [x]; an element is inserted behind exactly the elements
    that have to come before it, so it stays in front of its equals. *)

Section StableSort.

Context {A : Type} (before : A -> A -> bool).

Fixpoint insert_sorted (x : A) (l : list A) : list A :=
  match l with
  | [] => [x]
  | y :: l' => if before y x then y :: insert_sorted x l' else x :: y :: l'
  end.

Definition stable_sort (l : list A) : list A := foldr insert_sorted [] l.

End StableSort.

Definition Qltb (a b : Q) : bool := negb (Qle_bool b a).

(** ** Clock, [datetime] and [strftime] *)

Module Time.
Local Open Scope Z_scope.

(** A clock reading: microseconds since the Unix epoch (UTC). *)
Definition instant := Z.

Definition us_per_second : Z := 1000000.
Definition us_per_hour : Z := 3600 * us_per_second.
Definition us_per_day : Z := 24 * us_per_hour.

(** A [datetime]: its calendar fields, counted as microseconds since the
    epoch as if they were UTC, and its [tzinfo] (the UTC offset in
    microseconds, [None] for a naive value). *)
Record datetime := { wall : Z; tzinfo : option Z }.

(** [dt.replace(tzinfo=timezone.utc)] *)
Definition replace_tzinfo_utc (dt : datetime) : datetime :=
  {| wall := wall dt; tzinfo := Some 0 |}.

(** The instant an aware [datetime] denotes.  A naive one denotes none:
    subtracting it from an aware [datetime] is a [TypeError]. *)
Definition to_instant (dt : datetime) : option instant :=
  match tzinfo dt with
  | Some offset => Some (wall dt - offset)
  | None => None
  end.

(** [timedelta(hours=h)] in microseconds, for an [int] [h].  A [timedelta]
    holds at most 999999999 days either way; beyond that the constructor
    raises [OverflowError] ([None]). *)
Definition timedelta_max_days : Z := 999999999.

Definition timedelta_hours (h : Z) : option Z :=
  if (- timedelta_max_days <=? h / 24) && (h / 24 <=? timedelta_max_days)
  then Some (h * us_per_hour)
  else None.

(** Proleptic Gregorian date of a day number (days since 1970-01-01). *)
Definition civil_from_days (z : Z) : Z * Z * Z :=
  let z := z + 719468 in
  let era := z / 146097 in
  let doe := z - era * 146097 in
  let yoe := (doe - doe / 1460 + doe / 36524 - doe / 146096) / 365 in
  let doy := doe - (365 * yoe + yoe / 4 - yoe / 100) in
  let mp := (5 * doy + 2) / 153 in
  let d := doy - (153 * mp + 2) / 5 + 1 in
  let m := if mp <? 10 then mp + 3 else mp - 9 in
  let y := yoe + era * 400 + (if m <=? 2 then 1 else 0) in
  (y, m, d).

Definition two_digits (n : Z) : str :=
  if n <? 10 then lit "0" ++ of_Z n else of_Z n.

(** [datetime.now(timezone(timedelta(hours=8))).strftime("%Y-%m-%d")] at
    clock reading [now]. *)
Definition today_utc8 (now : instant) : str :=
  let '(y, m, d) := civil_from_days ((now + 8 * us_per_hour) / us_per_day) in
  of_Z y ++ lit "-" ++ two_digits m ++ lit "-" ++ two_digits d.

(** [int(time.time())] *)
Definition unix_seconds (now : instant) : Z := now / us_per_second.

End Time.
Import Time.

(** ** JSON values and [dict]s *)

Inductive json :=
| JNull
| JBool (b : bool)
| JNum (q : Q)
| JStr (s : str)
| JArr (l : list json)
| JObj (kv : list (str * json)).

Definition str_eqb (a b : str) : bool := bool_decide (a = b).

(** A [dict] keeps its keys in insertion order; assigning to a key that is
    present replaces the value in place. *)
Module Dict.
Section Dict.
Context {V : Type}.

Fixpoint get (k : str) (d : list (str * V)) : option V :=
  match d with
  | [] => None
  | (k', v) :: d' => if str_eqb k k' then Some v else get k d'
  end.

Definition mem (k : str) (d : list (str * V)) : bool :=
  match get k d with Some _ => true | None => false end.

Fixpoint set (k : str) (v : V) (d : list (str * V)) : list (str * V) :=
  match d with
  | [] => [(k, v)]
  | (k', v') :: d' => if str_eqb k k' then (k, v) :: d' else (k', v') :: set k v d'
  end.

(** [if k not in d: d[k] = v] *)
Definition setdefault (k : str) (v : V) (d : list (str * V)) : list (str * V) :=
  if mem k d then d else set k v d.
End Dict.
End Dict.

(** ** Outcomes of a call *)

Inductive exn := KeyError | TypeError | AttributeError | UnicodeEncodeError.

Inductive result (A : Type) :=
| Ok (a : A)
| Exit (code : Z)
| Raise (e : exn).
Arguments Ok {A} a.
Arguments Exit {A} code.
Arguments Raise {A} e.

Global Instance result_bind : MBind result := fun A B k r =>
  match r with
  | Ok a => k a
  | Exit c => Exit c
  | Raise e => Raise e
  end.

Global Instance result_fmap : FMap result := fun A B g r =>
  match r with
  | Ok a => Ok (g a)
  | Exit c => Exit c
  | Raise e => Raise e
  end.

Fixpoint mapM {A B} (f : A -> result B) (l : list A) : result (list B) :=
  match l with
  | [] => Ok []
  | a :: l' => b ← f a; bs ← mapM f l'; Ok (b :: bs)
  end.

Inductive level := DEBUG | INFO | WARNING | ERROR.

(** ** Configuration constants *)

Definition MAX_CANDIDATES : nat := 60.
Definition TOP_N : nat := 3.
Definition HOURS_WINDOW : Z := 48.

(** ** Data model *)

(** A parsed feed entry: the keys the fetcher reads with [entry.get]. *)
Record FeedEntry := {
  e_link : option str;
  e_published : option str;
  e_updated : option str;
  e_title : option str;
  e_summary : option str;
  e_description : option str
}.

(** The candidate [dict] built by [fetch_single_feed]. *)
Record CandidateEntry := {
  c_title : str;
  c_link : str;
  c_summary : str;
  c_published : str;
  c_hash : str
}.

(** The projection of a candidate sent to the scoring model. *)
Record CompactEntry := {
  k_title : str;
  k_link : str;
  k_published : str;
  k_snippet : str
}.

(** One element of the ["scores"] array of the scoring response.  The
    embedding covers responses that are JSON objects whose ["scores"], when
    present, is an array of objects in which ["link"] and ["reason"], when
    present, are strings and ["score"], when present, is a number: the shape
    the scoring prompt asks for.  On a response of another shape the source
    raises [AttributeError] (no object, no array) or [TypeError] (scores
    that do not compare, a link that does not hash), or returns entries
    whose score is no number; such responses are not among the answers of
    [llm_score], and the statements about the scorer and the driver are
    about runs with answers of the shape above. *)
Record ScoreItem := {
  s_link : option str;
  s_score : option Q;
  s_reason : option str
}.

(** A candidate copied and extended with ["score"] and ["score_reason"]. *)
Record ScoredEntry := {
  t_entry : CandidateEntry;
  t_score : Q;
  t_score_reason : str
}.

(** The values interpolated into one item section of the card, in the order
    the card shows them; [None] where [item.get] finds no key. *)
Record ItemSection := {
  md_title : option json;
  md_link : option json;
  md_publish_date : option json;
  md_source_type : option json;
  md_source_name : option json;
  md_erp_relevance : option json;
  md_summary : option json;
  md_key_facts : option json;
  md_implementation_method : option json;
  md_exploration_direction : option json
}.

Record Card := {
  card_date : option json;
  card_theme : option json;
  card_sections : list ItemSection
}.

Record Payload := {
  p_timestamp : str;
  p_sign : str;
  p_msg_type : str;
  p_card : Card
}.

(** What one POST to the webhook comes to:
    [Accepted]: a response whose JSON body has ["code"] equal to 0;
    [Rejected]: a response whose JSON body has another ["code"];
    [Failed]: an exception (network, HTTP status, body that is not JSON). *)
Inductive post_outcome := Accepted | Rejected | Failed.

Inductive log_msg :=
| MsgScoringDone (n : nat)
| MsgNoWebhook
| MsgPushOk
| MsgPushRejected
| MsgPushAttemptFailed (attempt : nat)
| MsgPushFinalFailure.

Inductive event :=
| Log (lv : level) (m : log_msg)
| Post (p : Payload)
| Sleep (seconds : Z).

(** ** Library primitives and the environment of a run *)

Record Lib := {
  (** [hashlib.sha256(data).digest()] *)
  sha256 : bytes -> bytes;
  (** [hmac.new(key, msg, digestmod=hashlib.sha256).digest()] *)
  hmac_sha256 : bytes -> bytes -> bytes;
  (** [base64.b64encode(data).decode("utf-8")] *)
  b64encode : bytes -> str;
  (** [dateutil.parser.parse] at a clock reading (the fields a string leaves
      out are those of the current local date); [None] when it raises. *)
  date_parse : instant -> str -> option datetime
}.

Record World := {
  RSS_URLS : list str;
  FEISHU_WEBHOOK_URL : str;
  FEISHU_SECRET : str;
  (** [feedparser.parse(requests.get(url).content).entries]; [None] when
      the request or the parse raises. *)
  feed_entries : str -> option (list FeedEntry);
  (** The order in which [as_completed] yields the submitted fetches. *)
  as_completed : list str -> list str;
  (** The clock read by [is_recent] for the [i]-th entry of a feed. *)
  clock_fetch : str -> nat -> instant;
  (** The clock read by [generate_daily_report], by
      [validate_and_fix_report] and by [send_to_feishu]. *)
  clock_prompt : instant;
  clock_validate : instant;
  clock_send : instant;
  (** [llm_client.call_json] on the scoring prompt: [None] when the client
      ends the process with [sys.exit(1)], else [result.get("scores")]. *)
  llm_score : list CompactEntry -> option (option (list ScoreItem));
  (** [llm_client.call_json] on the report prompt ([today] and the top
      entries are what the prompt is made of). *)
  llm_report : str -> list ScoredEntry -> option json;
  (** The webhook's answer to the [n]-th POST of a payload. *)
  sink : Payload -> nat -> post_outcome;
  (** The characters the encoder of [sys.stdout] can encode. *)
  stdout_encodes : char -> bool
}.

(** ** Dedup store *)

(** The file [data/sent_hashes.txt]: [None] while it does not exist, else
    its text (the decoded content, as it was written). *)
Definition file := option str.

Definition nonempty (s : str) : bool :=
  match s with [] => false | _ => true end.

Definition load_sent_hashes (f : file) : gset str * file :=
  match f with
  | None => (∅, Some [])
  | Some text =>
      (list_to_set (List.filter nonempty
                      (List.map strip (readlines (universal_newlines text)))), f)
  end.

Definition sorted_hashes (hashes : gset str) : list str :=
  stable_sort Str.ltb (elements hashes).

Definition save_sent_hashes (hashes : gset str) : file :=
  Some (concat (List.map (fun h => h ++ [newline]) (sorted_hashes hashes))).

Definition hexchar (n : N) : char :=
  if n <? 10 then 48 + n else 87 + n.

(** [.hexdigest()] *)
Definition hexdigest (digest : bytes) : str :=
  flat_map (fun b => [hexchar ((b / 16) mod 16); hexchar (b mod 16)]) digest.

Definition hash_link (L : Lib) (link : str) : str :=
  hexdigest (sha256 L (encode link)).

(** [now] is the clock reading [datetime.now(timezone.utc)], taken for the
    parser's reading of the clock too, which comes just before it.  Whatever
    is raised on the way (by the parser, by a subtraction that meets a naive
    value, by [timedelta]) is caught and gives [False]. *)
Definition is_recent (L : Lib) (now : instant) (published_str : str) (hours : Z) : bool :=
  match date_parse L now published_str with
  | None => false
  | Some pub_time =>
      let pub_time :=
        match tzinfo pub_time with
        | None => replace_tzinfo_utc pub_time
        | Some _ => pub_time
        end in
      match to_instant pub_time with
      | None => false
      | Some published =>
          match timedelta_hours hours with
          | None => false
          | Some window => (now - published <=? window)%Z
          end
      end
  end.

(** ** Fetcher *)

(** [s[:n] + "..."] when [len(s) > n] *)
Definition ellipsis : str := lit "...".

Definition truncate_with_ellipsis (n : nat) (s : str) : str :=
  if (n <? length s)%nat then take n s ++ ellipsis else s.

(** The body of the loop over [feed.entries]; [None] is [continue]. *)
Definition candidate_of (L : Lib) (sent_hashes : gset str) (now : instant)
    (entry : FeedEntry) : option CandidateEntry :=
  let link := default [] (e_link entry) in
  if negb (nonempty link) then None else
  let link_hash := hash_link L link in
  if bool_decide (link_hash ∈ sent_hashes) then None else
  let published := default (default [] (e_updated entry)) (e_published entry) in
  if negb (is_recent L now published HOURS_WINDOW) then None else
  let title := default [] (e_title entry) in
  let summary := default (default [] (e_description entry)) (e_summary entry) in
  let summary := truncate_with_ellipsis 500 summary in
  Some {| c_title := title; c_link := link; c_summary := summary;
          c_published := published; c_hash := link_hash |}.

Fixpoint scan_entries (L : Lib) (sent_hashes : gset str) (clock : nat -> instant)
    (i : nat) (entries : list FeedEntry) : list CandidateEntry :=
  match entries with
  | [] => []
  | entry :: rest =>
      match candidate_of L sent_hashes (clock i) entry with
      | Some c => c :: scan_entries L sent_hashes clock (S i) rest
      | None => scan_entries L sent_hashes clock (S i) rest
      end
  end.

Definition fetch_single_feed (L : Lib) (W : World) (url : str)
    (sent_hashes : gset str) : list CandidateEntry :=
  match feed_entries W url with
  | None => []
  | Some entries => scan_entries L sent_hashes (clock_fetch W url) 0 entries
  end.

Definition fetch_rss_entries (L : Lib) (W : World) (f : file)
    : list CandidateEntry * file :=
  match RSS_URLS W with
  | [] => ([], f)
  | _ =>
      let '(sent_hashes, f) := load_sent_hashes f in
      let all_candidates :=
        flat_map (fun url => fetch_single_feed L W url sent_hashes)
                 (as_completed W (RSS_URLS W)) in
      (take MAX_CANDIDATES all_candidates, f)
  end.

(** ** Scoring *)

Definition compact_for_scoring (entries : list CandidateEntry) : list CompactEntry :=
  List.map (fun e =>
    {| k_title := take 120 (c_title e);
       k_link := c_link e;
       k_published := c_published e;
       k_snippet := truncate_with_ellipsis 160 (strip (c_summary e)) |}) entries.

(** [x.get("score", 0)] *)
Definition score_key (x : ScoreItem) : Q := default 0%Q (s_score x).

(** [scores.sort(key=lambda x: x.get("score", 0), reverse=True)] *)
Definition sort_scores (scores : list ScoreItem) : list ScoreItem :=
  stable_sort (fun y x => Qltb (score_key x) (score_key y)) scores.

(** [{e["link"]: e for e in entries}]: a later entry replaces an earlier one
    with the same link. *)
Definition link_map (entries : list CandidateEntry) : gmap str CandidateEntry :=
  foldl (fun m e => <[c_link e := e]> m) ∅ entries.

(** [s[key]] on a key that may be absent. *)
Definition subscript {A} (o : option A) : result A :=
  match o with
  | Some a => Ok a
  | None => Raise KeyError
  end.

(** The loop over [top_scores]. *)
Fixpoint fill_entries (m : gmap str CandidateEntry) (top_scores : list ScoreItem)
    : result (list ScoredEntry) :=
  match top_scores with
  | [] => Ok []
  | s :: rest =>
      link ← subscript (s_link s);
      match m !! link with
      | Some entry =>
          score ← subscript (s_score s);
          reason ← subscript (s_reason s);
          top_entries ← fill_entries m rest;
          Ok ({| t_entry := entry; t_score := score; t_score_reason := reason |}
                :: top_entries)
      | None => fill_entries m rest
      end
  end.

(** Returns the top entries and the log records written on the way. *)
Definition score_entries (W : World) (entries : list CandidateEntry)
    : result (list ScoredEntry * list event) :=
  match entries with
  | [] => Ok ([], [])
  | _ =>
      match llm_score W (compact_for_scoring entries) with
      | None => Exit 1
      | Some result =>
          let scores := default [] result in
          let scores := sort_scores scores in
          let top_scores := take TOP_N scores in
          top_entries ← fill_entries (link_map entries) top_scores;
          Ok (top_entries, [Log INFO (MsgScoringDone (length top_entries))])
      end
  end.

(** ** Report *)

Definition default_theme : str := lit "AI 技术动态".
Definition default_title : str := lit "未知标题".
Definition default_source_type : str := lit "未知".
Definition default_erp_relevance : str := lit "🔵 低".
Definition default_summary : str := lit "暂无摘要".

(** The keys the item loop tests with [not in]. *)
Definition checked_item_keys : list str :=
  [lit "title"; lit "source_type"; lit "erp_relevance"; lit "summary"].

(** [k == x] for a [str] [k] and a JSON value [x]. *)
Definition json_is_str (k : str) (x : json) : bool :=
  match x with
  | JStr s => str_eqb k s
  | _ => false
  end.

(** The body of the loop over [report["items"]].  [k not in item] is a key
    test on a [dict], a substring test on a [str], a membership test on a
    [list], and a [TypeError] on anything else; the assignment that follows a
    failed test is a [TypeError] unless [item] is a [dict]. *)
Definition fix_item (item : json) : result json :=
  match item with
  | JObj kv =>
      let kv := Dict.setdefault (lit "title") (JStr default_title) kv in
      let kv := Dict.setdefault (lit "source_type") (JStr default_source_type) kv in
      let kv := Dict.setdefault (lit "erp_relevance") (JStr default_erp_relevance) kv in
      let kv := Dict.setdefault (lit "summary") (JStr default_summary) kv in
      Ok (JObj kv)
  | JStr s =>
      if forallb (fun k => contains k s) checked_item_keys then Ok item
      else Raise TypeError
  | JArr l =>
      if forallb (fun k => existsb (json_is_str k) l) checked_item_keys then Ok item
      else Raise TypeError
  | _ => Raise TypeError
  end.

(** [now] is the clock reading from which [today] is formatted.  A [report]
    that is not a [dict] fails at the first test or assignment. *)
Definition validate_and_fix_report (now : instant) (report : json) : result json :=
  let today := today_utc8 now in
  match report with
  | JObj kv =>
      let kv := Dict.setdefault (lit "date") (JStr today) kv in
      let kv := Dict.setdefault (lit "theme") (JStr default_theme) kv in
      let items :=
        match Dict.get (lit "items") kv with
        | Some (JArr items) => items
        | _ => []
        end in
      items ← mapM fix_item items;
      Ok (JObj (Dict.set (lit "items") (JArr items) kv))
  | _ => Raise TypeError
  end.

Definition generate_daily_report (W : World) (top_entries : list ScoredEntry)
    : result json :=
  let today := today_utc8 (clock_prompt W) in
  match llm_report W today top_entries with
  | None => Exit 1
  | Some report => validate_and_fix_report (clock_validate W) report
  end.

(** ** Feishu delivery *)

Definition string_to_sign (timestamp secret : str) : str :=
  timestamp ++ [newline] ++ secret.

(** The lines that compute [sign]: [hmac.new] gets the string to sign as its
    key and no message. *)
Definition gen_sign (L : Lib) (timestamp secret : str) : str :=
  if nonempty secret then
    b64encode L (hmac_sha256 L (encode (string_to_sign timestamp secret)) [])
  else [].

(** [report.get(k)] *)
Definition json_get (k : str) (v : json) : result (option json) :=
  match v with
  | JObj kv => Ok (Dict.get k kv)
  | _ => Raise AttributeError
  end.

(** What [for ... in enumerate(items, 1)] iterates over. *)
Definition iterate (v : json) : result (list json) :=
  match v with
  | JArr l => Ok l
  | JObj kv => Ok (List.map (fun p => JStr (fst p)) kv)
  | JStr s => Ok (List.map (fun c => JStr [c]) s)
  | _ => Raise TypeError
  end.

Definition render_item (item : json) : result ItemSection :=
  match item with
  | JObj kv =>
      Ok {| md_title := Dict.get (lit "title") kv;
            md_link := Dict.get (lit "link") kv;
            md_publish_date := Dict.get (lit "publish_date") kv;
            md_source_type := Dict.get (lit "source_type") kv;
            md_source_name := Dict.get (lit "source_name") kv;
            md_erp_relevance := Dict.get (lit "erp_relevance") kv;
            md_summary := Dict.get (lit "summary") kv;
            md_key_facts := Dict.get (lit "key_facts") kv;
            md_implementation_method := Dict.get (lit "implementation_method") kv;
            md_exploration_direction := Dict.get (lit "exploration_direction") kv |}
  | _ => Raise AttributeError
  end.

Definition render_card (report : json) : result Card :=
  theme ← json_get (lit "theme") report;
  items ← json_get (lit "items") report;
  items ← iterate (default (JArr []) items);
  sections ← mapM render_item items;
  date ← json_get (lit "date") report;
  Ok {| card_date := date; card_theme := theme; card_sections := sections |}.

(** [for attempt in range(3)], from the attempts still to make: every
    attempt POSTs the payload; a rejected attempt goes on at once, a failed
    one sleeps [2 ** attempt] seconds unless it was the last. *)
Fixpoint post_attempts (p : Payload) (answer : nat -> post_outcome)
    (attempts : list nat) : list event :=
  match attempts with
  | [] => [Log ERROR MsgPushFinalFailure]
  | attempt :: rest =>
      Post p ::
      match answer attempt with
      | Accepted => [Log INFO MsgPushOk]
      | Rejected => Log WARNING MsgPushRejected :: post_attempts p answer rest
      | Failed =>
          Log WARNING (MsgPushAttemptFailed (attempt + 1))
            :: (if (attempt <? 2)%nat then [Sleep (2 ^ Z.of_nat attempt)] else [])
            ++ post_attempts p answer rest
      end
  end.

(** The function returns [None] on every path that does not raise; what it
    did is the trace of its POSTs, sleeps and log records. *)
Definition send_to_feishu (L : Lib) (W : World) (report : json) : result (list event) :=
  if negb (nonempty (FEISHU_WEBHOOK_URL W)) then Ok [Log WARNING MsgNoWebhook]
  else
    let timestamp := of_Z (unix_seconds (clock_send W)) in
    let sign := gen_sign L timestamp (FEISHU_SECRET W) in
    card ← render_card report;
    let payload := {| p_timestamp := timestamp; p_sign := sign;
                      p_msg_type := lit "interactive"; p_card := card |} in
    Ok (post_attempts payload (sink W payload) (seq 0 3)).

(** ** Driver *)

(** [{e["hash"] for e in top_entries}] *)
Definition new_hashes (top_entries : list ScoredEntry) : gset str :=
  list_to_set (List.map (fun e => c_hash (t_entry e)) top_entries).

(** The characters of the strings of a JSON value, keys included. *)
Fixpoint json_chars (v : json) : list char :=
  match v with
  | JStr s => s
  | JArr l => flat_map json_chars l
  | JObj kv => flat_map (fun p => let '(k, x) := p in k ++ json_chars x) kv
  | _ => []
  end.

(** [print(json.dumps(report, ensure_ascii=False, indent=2))].  With
    [ensure_ascii=False] the characters of the strings are written as they
    are (but for control characters, quotes and backslashes, whose escapes are
    ASCII), and the rest of the text is ASCII; the encoder of [sys.stdout]
    raises [UnicodeEncodeError] at a character it cannot encode.  ASCII is
    taken to be encodable. *)
Definition print_report (W : World) (report : json) : result unit :=
  if forallb (fun c => (c <? 128) || stdout_encodes W c) (json_chars report)
  then Ok tt
  else Raise UnicodeEncodeError.

(** One run of [main] from the store [f]: how the run ends and the store it
    leaves. *)
Definition main (L : Lib) (W : World) (f : file) : result unit * file :=
  let '(candidates, f) := fetch_rss_entries L W f in
  match candidates with
  | [] => (Ok tt, f)
  | _ =>
      match score_entries W candidates with
      | Exit c => (Exit c, f)
      | Raise e => (Raise e, f)
      | Ok ([], _) => (Ok tt, f)
      | Ok (top_entries, _) =>
          match generate_daily_report W top_entries with
          | Exit c => (Exit c, f)
          | Raise e => (Raise e, f)
          | Ok report =>
              match print_report W report with
              | Exit c => (Exit c, f)
              | Raise e => (Raise e, f)
              | Ok _ =>
                  match send_to_feishu L W report with
                  | Exit c => (Exit c, f)
                  | Raise e => (Raise e, f)
                  | Ok _ =>
                      let '(sent_hashes, f) := load_sent_hashes f in
                      let sent_hashes := sent_hashes ∪ new_hashes top_entries in
                      (Ok tt, save_sent_hashes sent_hashes)
                  end
              end
          end
      end
  end.

(** The fingerprints in the store. *)
Definition stored (f : file) : gset str := fst (load_sent_hashes f).

(** The store after one run in each of the given environments, in turn. *)
Definition run_all (L : Lib) (Ws : list World) (f : file) : file :=
  foldl (fun f W => snd (main L W f)) f Ws.

(** ** Vocabulary of the statements *)

(** A fingerprint that a line of the store file holds as it is: not empty,
    nothing for [strip] to remove, no line break inside. *)
Definition line_safe (h : str) : Prop :=
  h <> [] /\ strip h = h /\ newline ∉ h.

(** A fingerprint that the store file gives back as it was written: white
    space at its ends or a line ending inside would be lost in the reading. *)
Definition store_safe (h : str) : Prop :=
  line_safe h /\ carriage_return ∉ h.

(** A code point that UTF-8 encodes: no surrogate, at most U+10FFFF. *)
Definition is_scalar (c : char) : bool :=
  ((c <? 55296) || (57343 <? c)) && (c <=? 1114111).

(** A line of a text file ends at a line feed or at a carriage return. *)
Definition line_break (c : char) : bool :=
  (c =? newline) || (c =? carriage_return).

(** The pieces of a text between the characters that satisfy [p]. *)
Fixpoint split_when (p : char -> bool) (s : str) : list str :=
  match s with
  | [] => [[]]
  | c :: s' =>
      if p c then [] :: split_when p s'
      else match split_when p s' with
           | [] => [[c]]
           | piece :: pieces => (c :: piece) :: pieces
           end
  end.

(** The lines an iteration over a text yields, from the pieces between its
    line feeds: every piece but the last with its line feed, and the last
    piece if it is not empty. *)
Fixpoint terminate_lines (pieces : list str) : list str :=
  match pieces with
  | [] => []
  | [piece] => if nonempty piece then [piece] else []
  | piece :: rest => (piece ++ [newline]) :: terminate_lines rest
  end.

(** The store file holds the fingerprint [h]: the file exists and one of its
    lines, the white space at its ends apart, is [h], which is not empty. *)
Definition holds (f : file) (h : str) : Prop :=
  h <> []
  /\ exists text line,
       f = Some text /\ line ∈ split_when line_break text /\ strip line = h.

(** The run of [main] from store [f] gets through every stage, with
    [tops] as its top entries, and so reaches the update of the store. *)
Definition completes (L : Lib) (W : World) (f : file) (tops : list ScoredEntry) : Prop :=
  exists log report trace,
    score_entries W (fst (fetch_rss_entries L W f)) = Ok (tops, log)
    /\ tops <> []
    /\ generate_daily_report W tops = Ok report
    /\ print_report W report = Ok tt
    /\ send_to_feishu L W report = Ok trace.

(** A returned score entry whose link is the link of a candidate. *)
Definition known (entries : list CandidateEntry) (s : ScoreItem) : bool :=
  match s_link s with
  | Some link => bool_decide (link ∈ List.map c_link entries)
  | None => false
  end.

(** A returned score entry with all three keys. *)
Definition complete (s : ScoreItem) : Prop :=
  is_Some (s_link s) /\ is_Some (s_score s) /\ is_Some (s_reason s).

(** The instant a parsed timestamp stands for when a missing zone is read
    as UTC. *)
Definition instant_assuming_utc (dt : datetime) : instant :=
  match tzinfo dt with
  | Some offset => (wall dt - offset)%Z
  | None => wall dt
  end.

(** The placeholder the item loop has for a key, if it has one. *)
Definition item_default (k : str) : option json :=
  if str_eqb k (lit "title") then Some (JStr default_title)
  else if str_eqb k (lit "source_type") then Some (JStr default_source_type)
  else if str_eqb k (lit "erp_relevance") then Some (JStr default_erp_relevance)
  else if str_eqb k (lit "summary") then Some (JStr default_summary)
  else None.

(** The item fields the card shows that the item loop does not test. *)
Definition unchecked_item_keys : list str :=
  [lit "publish_date"; lit "source_name"; lit "key_facts";
   lit "implementation_method"; lit "exploration_direction"; lit "link"].

(** What [report.get("items")] holds when it is a list, else nothing. *)
Definition items_of (kv : list (str * json)) : list json :=
  match Dict.get (lit "items") kv with
  | Some (JArr items) => items
  | _ => []
  end.

Definition is_dict (v : json) : Prop := exists kv, v = JObj kv.


(** The text [save_sent_hashes] writes for a list of lines. *)
Definition text_of_lines (lines : list str) : str :=
  concat (List.map (fun h => h ++ [newline]) lines).

(** ** Reading a trace *)

Definition sleeps (tr : list event) : list Z :=
  omap (fun ev => match ev with Sleep s => Some s | _ => None end) tr.

Definition posts (tr : list event) : list Payload :=
  omap (fun ev => match ev with Post p => Some p | _ => None end) tr.

Definition logged (tr : list event) : list (level * log_msg) :=
  omap (fun ev => match ev with Log lv m => Some (lv, m) | _ => None end) tr.

Definition with_sink (s : Payload -> nat -> post_outcome) (W : World) : World :=
  {| RSS_URLS := RSS_URLS W; FEISHU_WEBHOOK_URL := FEISHU_WEBHOOK_URL W;
     FEISHU_SECRET := FEISHU_SECRET W; feed_entries := feed_entries W;
     as_completed := as_completed W; clock_fetch := clock_fetch W;
     clock_prompt := clock_prompt W; clock_validate := clock_validate W;
     clock_send := clock_send W; llm_score := llm_score W;
     llm_report := llm_report W; sink := s;
     stdout_encodes := stdout_encodes W |}.

(** ** Reference instances

    Stand-ins for the library primitives, used to run the embedding on
    concrete inputs: symbolic hashing (the digest shows its input) and a
    parser for timestamps written [YYYY-MM-DD hh:mm:ss], with a trailing [Z]
    for an explicit UTC zone. *)

Module Ref.

Definition sym_sha256 (m : bytes) : bytes := take 32 (m ++ repeat 0 32).

(** Symbolic MAC: the key, length-prefixed, then the message. *)
Definition sym_hmac (key msg : bytes) : bytes :=
  N.of_nat (length key) :: key ++ msg.

Definition sym_b64 (data : bytes) : str := data.

Definition digit (c : char) : option Z :=
  if (48 <=? c) && (c <=? 57) then Some (Z.of_N (c - 48)) else None.

(** The number written by the [n] digits of [s] from position [i]. *)
Definition field (s : str) (i n : nat) : option Z :=
  if (length (take n (drop i s)) =? n)%nat
  then foldl (fun acc c => a ← acc; d ← digit c; Some (10 * a + d)%Z)
             (Some 0%Z) (take n (drop i s))
  else None.

Definition char_at (s : str) (i : nat) (c : char) : bool :=
  match s !! i with
  | Some x => x =? c
  | None => false
  end.

Definition days_in_month (y m : Z) : Z :=
  if (m =? 2)%Z then
    if ((y mod 4 =? 0) && (negb (y mod 100 =? 0) || (y mod 400 =? 0)))%Z
    then 29%Z else 28%Z
  else if ((m =? 4) || (m =? 6) || (m =? 9) || (m =? 11))%Z then 30%Z
  else 31%Z.

(** Days since 1970-01-01 of a proleptic Gregorian date. *)
Definition days_from_civil (y m d : Z) : Z :=
  (let y := if m <=? 2 then y - 1 else y in
   let era := y / 400 in
   let yoe := y - era * 400 in
   let mp := if m <=? 2 then m + 9 else m - 3 in
   let doy := (153 * mp + 2) / 5 + d - 1 in
   let doe := yoe * 365 + yoe / 4 - yoe / 100 + doy in
   era * 146097 + doe - 719468)%Z.

Definition parse_timestamp (s : str) : option datetime :=
  if char_at s 4 45 && char_at s 7 45 && (char_at s 10 32 || char_at s 10 84)
     && char_at s 13 58 && char_at s 16 58
  then
    y ← field s 0 4; m ← field s 5 2; d ← field s 8 2;
    hh ← field s 11 2; mm ← field s 14 2; ss ← field s 17 2;
    zone ← match drop 19 s with
           | [] => Some None
           | [90] => Some (Some 0%Z)
           | _ => None
           end;
    if ((1 <=? y) && (1 <=? m) && (m <=? 12) && (1 <=? d)
        && (d <=? days_in_month y m) && (hh <? 24) && (mm <? 60) && (ss <? 60))%Z
    then Some {| wall := (((days_from_civil y m d * 24 + hh) * 60 + mm) * 60 + ss)
                         * us_per_second;
                 tzinfo := zone |}%Z
    else None
  else None.

Definition lib : Lib :=
  {| sha256 := sym_sha256; hmac_sha256 := sym_hmac;
     b64encode := sym_b64; date_parse := fun _ => parse_timestamp |}.

(** A terminal that writes UTF-8. *)
Definition utf8_stdout : char -> bool := is_scalar.

(** A run at clock reading [now] (seconds) over one feed with the given
    entries, a scoring model that answers [scores] and a report model that
    answers [report] ([None] for a failed call). *)
Definition feed_url : str := lit "https://example.org/feed".

Definition world (now : Z) (entries : list FeedEntry)
    (scores : option (option (list ScoreItem))) (report : option json) (webhook secret : str)
    (answer : nat -> post_outcome) : World :=
  {| RSS_URLS := [feed_url];
     FEISHU_WEBHOOK_URL := webhook;
     FEISHU_SECRET := secret;
     feed_entries := fun url => if str_eqb url feed_url then Some entries else None;
     as_completed := fun urls => urls;
     clock_fetch := fun _ _ => (now * us_per_second)%Z;
     clock_prompt := (now * us_per_second)%Z;
     clock_validate := (now * us_per_second)%Z;
     clock_send := (now * us_per_second)%Z;
     llm_score := fun _ => scores;
     llm_report := fun _ _ => report;
     sink := fun _ => answer;
     stdout_encodes := utf8_stdout |}.

Definition entry (link published summary : str) : FeedEntry :=
  {| e_link := Some link; e_published := Some published; e_updated := None;
     e_title := Some (lit "title of " ++ link); e_summary := Some summary;
     e_description := None |}.

Definition candidate (link published summary : str) : CandidateEntry :=
  {| c_title := lit "title of " ++ link; c_link := link; c_summary := summary;
     c_published := published; c_hash := hash_link lib link |}.

Definition item (link : str) (score : Q) : ScoreItem :=
  {| s_link := Some link; s_score := Some score; s_reason := Some (lit "because") |}.

Definition scored (c : CandidateEntry) (score : Q) : ScoredEntry :=
  {| t_entry := c; t_score := score; t_score_reason := lit "because" |}.

(** 2023-11-14 22:13:20 UTC *)
Definition now : Z := 1700000000.
Definition recent : str := lit "2023-11-14 19:26:40".

Definition link_a : str := lit "https://a".
Definition link_b : str := lit "https://b".
Definition link_c : str := lit "https://c".
Definition link_d : str := lit "https://d".
Definition link_x : str := lit "https://x".

Definition four_entries : list FeedEntry :=
  [entry link_a recent (lit "A"); entry link_b recent (lit "B");
   entry link_c recent (lit "C"); entry link_d recent (lit "D")].

Definition cand (link summary : str) : CandidateEntry := candidate link recent summary.

Definition four_scores : list ScoreItem :=
  [item link_a 9; item link_b 8; item link_c 7; item link_d 6].

(** No webhook configured, all four entries scored. *)
Definition quiet_run : World :=
  world now four_entries (Some (Some four_scores)) (Some (JObj [])) [] []
        (fun _ => Accepted).

(** A webhook that fails every POST. *)
Definition webhook_down : World :=
  world now four_entries (Some (Some four_scores)) (Some (JObj []))
        (lit "https://hook") (lit "secret") (fun _ => Failed).


Definition scoring_down : World :=
  world now four_entries None (Some (JObj [])) [] [] (fun _ => Accepted).

Definition report_down : World :=
  world now four_entries (Some (Some four_scores)) None [] [] (fun _ => Accepted).

Definition top_three : list ScoredEntry :=
  [scored (cand link_a (lit "A")) 9; scored (cand link_b (lit "B")) 8;
   scored (cand link_c (lit "C")) 7].

(** Three candidates; the model ranks a link that is no candidate first. *)
Definition three_candidates : list CandidateEntry :=
  [cand link_a (lit "A"); cand link_b (lit "B"); cand link_c (lit "C")].

Definition stranger_first : World :=
  world now four_entries
        (Some (Some [item link_x 10; item link_a 9; item link_b 8; item link_c 7]))
        (Some (JObj [])) [] [] (fun _ => Accepted).

(** Two candidates, scored alike, returned in the other order. *)
Definition two_candidates : list CandidateEntry :=
  [cand link_a (lit "A"); cand link_b (lit "B")].

Definition tie_reversed : World :=
  world now four_entries (Some (Some [item link_b 5; item link_a 5]))
        (Some (JObj [])) [] [] (fun _ => Accepted).

(** A summary of 501 characters. *)
Definition long_summary : str := repeat 97 501.

(** 48 hours before [now], and one second earlier. *)
Definition at_window_edge : str := lit "2023-11-12 22:13:20".
Definition before_window_edge : str := lit "2023-11-12 22:13:19Z".

(** A report with one item that has no field at all. *)
Definition bare_report : json := JObj [(lit "items", JArr [JObj []])].

Definition bare_item_fixed : json :=
  JObj [(lit "title", JStr default_title);
        (lit "source_type", JStr default_source_type);
        (lit "erp_relevance", JStr default_erp_relevance);
        (lit "summary", JStr default_summary)].


Definition empty_card : Card :=
  {| card_date := None; card_theme := None; card_sections := [] |}.

Definition payload : Payload :=
  {| p_timestamp := of_Z now; p_sign := []; p_msg_type := lit "interactive";
     p_card := empty_card |}.


End Ref.

(** * Configuration, the LLM clients and the link extractor *)

(** ** More of Python's strings *)

Module Str2.

(** [s.split(sep)] for a separator of one character. *)
Fixpoint split_char (sep : char) (s : str) : list str :=
  match s with
  | [] => [[]]
  | c :: s' =>
      if c =? sep then [] :: split_char sep s'
      else match split_char sep s' with
           | [] => [[c]]
           | piece :: pieces => (c :: piece) :: pieces
           end
  end.

(** [s.split(sep)] for a separator that is not empty: the text is scanned
    from the left; at a position where the separator starts the piece read
    so far ([cur], reversed) is closed and the separator skipped. *)
Fixpoint split_go (sep : str) (skip : nat) (cur : str) (s : str) : list str :=
  match s with
  | [] => [rev cur]
  | c :: s' =>
      match skip with
      | S k => split_go sep k cur s'
      | O =>
          if startswith sep s
          then rev cur :: split_go sep (length sep - 1) [] s'
          else split_go sep 0 (c :: cur) s'
      end
  end.

Definition split_str (sep s : str) : list str := split_go sep 0 [] s.

(** [s.replace(old, "")] for an [old] that is not empty. *)
Definition remove_all (old s : str) : str := concat (split_str old s).

(** [s.strip(c)] for one character [c]. *)
Fixpoint lstrip_char (c : char) (s : str) : str :=
  match s with
  | [] => []
  | x :: s' => if x =? c then lstrip_char c s' else s
  end.

Definition strip_char (c : char) (s : str) : str :=
  rev (lstrip_char c (rev (lstrip_char c s))).

(** [s.startswith(c)] and [s.endswith(c)] for one character [c]. *)
Definition starts_with_char (c : char) (s : str) : bool :=
  match s with
  | x :: _ => x =? c
  | [] => false
  end.

Definition ends_with_char (c : char) (s : str) : bool :=
  starts_with_char c (rev s).

(** ["\n".join(lines)] *)
Fixpoint join_lines (lines : list str) : str :=
  match lines with
  | [] => []
  | [line] => line
  | line :: rest => line ++ newline :: join_lines rest
  end.

End Str2.
Import Str2.

(** ** The list of feeds *)

(** [[line.strip() for line in RSS_URLS_RAW.strip().split("\n")
      if line.strip()]] *)
Definition parse_rss_urls (RSS_URLS_RAW : str) : list str :=
  List.filter nonempty
    (List.map strip (split_char newline (strip RSS_URLS_RAW))).

(** ** The LLM clients *)

(** What one HTTP exchange with the provider comes to:
    [ConnectionFailed]: [ConnectionError], [Timeout] or
    [ChunkedEncodingError];
    [RequestFailed]: any other exception of the request, of
    [raise_for_status] or of [resp.json()];
    [Responded]: the JSON body. *)
Inductive http_outcome :=
| ConnectionFailed
| RequestFailed
| Responded (data : json).

Inductive client_event :=
| Request
| Wait (seconds : Z).

(** The settings the clients are built from. *)
Record LLMConfig := {
  LLM_PROVIDER : str;
  OPENAI_API_KEY : str;
  DASHSCOPE_API_KEY : str;
  ARK_API_KEY : str;
  ARK_MODEL : str
}.

(** [data["choices"][0]["message"]["content"]] when every step succeeds and
    the content is a string; any other case raises inside the [try] (also
    [json.loads] on what is no string). *)
Definition chat_content (data : json) : option str :=
  match data with
  | JObj kv =>
      match Dict.get (lit "choices") kv with
      | Some (JArr (JObj choice :: _)) =>
          match Dict.get (lit "message") choice with
          | Some (JObj message) =>
              match Dict.get (lit "content") message with
              | Some (JStr content) => Some content
              | _ => None
              end
          | _ => None
          end
      | _ => None
      end
  | _ => None
  end.

(** [OpenAIClient.call_json] and [QwenClient.call_json]: one request, every
    exception ends the process. *)
Definition chat_call_json (json_loads : str -> option json) (api_key : str)
    (http : http_outcome) : result json * list client_event :=
  if negb (nonempty api_key) then (Exit 1, [])
  else
    match http with
    | Responded data =>
        match chat_content data with
        | Some content =>
            match json_loads content with
            | Some v => (Ok v, [Request])
            | None => (Exit 1, [Request])
            end
        | None => (Exit 1, [Request])
        end
    | _ => (Exit 1, [Request])
    end.

(** [bool(v)] *)
Definition truthy (v : json) : bool :=
  match v with
  | JNull => false
  | JBool b => b
  | JNum q => negb (Qeq_bool q 0)
  | JStr s => nonempty s
  | JArr l => match l with [] => false | _ => true end
  | JObj kv => match kv with [] => false | _ => true end
  end.

(** [item.get(k)]; [None] is the [AttributeError] of what is no [dict]. *)
Definition get_attr (k : str) (item : json) : option (option json) :=
  match item with
  | JObj kv => Some (Dict.get k kv)
  | _ => None
  end.

(** What a [for] loop iterates over; [None] is the [TypeError]. *)
Definition iterable (v : json) : option (list json) :=
  match v with
  | JArr l => Some l
  | JObj kv => Some (List.map (fun p => JStr (fst p)) kv)
  | JStr s => Some (List.map (fun c => JStr [c]) s)
  | _ => None
  end.

(** [v == s] for a string [s] and what [.get] returned. *)
Definition is_str (s : str) (v : option json) : bool :=
  match v with
  | Some (JStr s') => str_eqb s s'
  | _ => false
  end.

(** The inner loop of [ArkClient.call_json]: the text of the first
    ["output_text"] item, if there is one, replaces [content]. *)
Fixpoint scan_content_items (items : list json) (content : json) : option json :=
  match items with
  | [] => Some content
  | content_item :: rest =>
      match get_attr (lit "type") content_item with
      | None => None
      | Some ty =>
          if is_str (lit "output_text") ty then
            match content_item with
            | JObj kv => Some (default (JStr []) (Dict.get (lit "text") kv))
            | _ => None
            end
          else scan_content_items rest content
      end
  end.

(** The outer loop: it stops at the first assistant message that leaves a
    truthy [content]. *)
Fixpoint scan_output (items : list json) (content : json) : option json :=
  match items with
  | [] => Some content
  | output_item :: rest =>
      match get_attr (lit "type") output_item, get_attr (lit "role") output_item with
      | Some ty, Some role =>
          if is_str (lit "message") ty && is_str (lit "assistant") role then
            match get_attr (lit "content") output_item with
            | Some inner =>
                match iterable (default (JArr []) inner) with
                | Some content_items =>
                    match scan_content_items content_items content with
                    | Some content =>
                        if truthy content then Some content
                        else scan_output rest content
                    | None => None
                    end
                | None => None
                end
            | None => None
            end
          else scan_output rest content
      | _, _ => None
      end
  end.

Definition ark_content (data : json) : option json :=
  match data with
  | JObj kv =>
      match iterable (default (JArr []) (Dict.get (lit "output") kv)) with
      | Some items => scan_output items (JStr [])
      | None => None
      end
  | _ => None
  end.

Definition tag_open : str := lit "<简报>".
Definition tag_close : str := lit "</简报>".
Definition fence : str := lit "```".
Definition fence_json : str := lit "```json".

(** [content.split(sep)[1].split("```")[0].strip()] *)
Definition fenced (sep content : str) : option str :=
  match split_str sep content with
  | _ :: piece :: _ =>
      match split_str fence piece with
      | inner :: _ => Some (strip inner)
      | [] => None
      end
  | _ => None
  end.

(** What [ArkClient.call_json] does with a response body: find the text,
    drop the report tags, parse, and on a parse error try the text inside a
    markdown fence.  Everything that goes wrong here ends the process. *)
Definition ark_handle (json_loads : str -> option json) (data : json) : result json :=
  match ark_content data with
  | Some content =>
      if negb (truthy content) then Exit 1
      else
        match content with
        | JStr content =>
            let content :=
              if contains tag_open content
              then strip (remove_all tag_close (remove_all tag_open content))
              else content in
            match json_loads content with
            | Some v => Ok v
            | None =>
                if contains fence_json content then
                  match fenced fence_json content with
                  | Some inner =>
                      match json_loads inner with
                      | Some v => Ok v
                      | None => Exit 1
                      end
                  | None => Exit 1
                  end
                else if contains fence content then
                  match fenced fence content with
                  | Some inner =>
                      match json_loads inner with
                      | Some v => Ok v
                      | None => Exit 1
                      end
                  | None => Exit 1
                  end
                else Exit 1
            end
        | _ => Exit 1
        end
  | None => Exit 1
  end.

(** [for attempt in range(3)] of [ArkClient.call_json], from the attempts
    still to make; [http attempt] is what the request of that attempt comes
    to. *)
Fixpoint ark_attempts (json_loads : str -> option json) (http : nat -> http_outcome)
    (attempts : list nat) : result json * list client_event :=
  match attempts with
  | [] => (Exit 1, [])
  | attempt :: rest =>
      match http attempt with
      | Responded data => (ark_handle json_loads data, [Request])
      | RequestFailed => (Exit 1, [Request])
      | ConnectionFailed =>
          let '(r, tr) := ark_attempts json_loads http rest in
          (r, Request :: (if (attempt <? 2)%nat then [Wait 2] else []) ++ tr)
      end
  end.

Definition ark_call_json (json_loads : str -> option json) (api_key model : str)
    (http : nat -> http_outcome) : result json * list client_event :=
  if negb (nonempty api_key) || negb (nonempty model) then (Exit 1, [])
  else ark_attempts json_loads http [0; 1; 2]%nat.

(** [get_llm_client().call_json(...)]: the client chosen by [LLM_PROVIDER]
    (the setting in lower case), asked once. *)
Definition call_json (json_loads : str -> option json) (cfg : LLMConfig)
    (http : nat -> http_outcome) : result json * list client_event :=
  if str_eqb (LLM_PROVIDER cfg) (lit "qwen") then
    chat_call_json json_loads (DASHSCOPE_API_KEY cfg) (http 0%nat)
  else if str_eqb (LLM_PROVIDER cfg) (lit "ark") then
    ark_call_json json_loads (ARK_API_KEY cfg) (ARK_MODEL cfg) http
  else chat_call_json json_loads (OPENAI_API_KEY cfg) (http 0%nat).

(** The number of requests in a trace, and the seconds waited. *)
Definition requests (tr : list client_event) : nat :=
  length (List.filter (fun ev => match ev with Request => true | _ => false end) tr).

Definition waited (tr : list client_event) : Z :=
  foldr Z.add 0%Z
    (omap (fun ev => match ev with Wait s => Some s | _ => None end) tr).

(** ** [extract_links.py] *)

Definition BASE_URL : str := lit "http://100.68.66.102:18001/views/article/".
Definition link_marker : str := lit "🔗 原文链接".
Definition backtick : char := 96.
Definition slash : char := 47.

(** An [<a href=...>] tag of the page: its [href] and its text as
    [get_text(strip=True)] gives it. *)
Record Anchor := { a_href : str; a_text : str }.

(** The handling of an [href] wrapped in backticks. *)
Definition unwrap_href (href : str) : str :=
  if starts_with_char backtick href && ends_with_char backtick href
  then strip_char backtick href
  else href.

(** The loop of [find_original_link]: the first anchor with the marker text
    decides. *)
Fixpoint first_marked (anchors : list Anchor) : option str :=
  match anchors with
  | [] => None
  | a_tag :: rest =>
      if str_eqb link_marker (a_text a_tag) then Some (unwrap_href (a_href a_tag))
      else first_marked rest
  end.

(** [page] is what the request and the HTML parser give: [None] when one of
    them raises. *)
Definition find_original_link (page : option (list Anchor)) : option str :=
  match page with
  | None => None
  | Some anchors =>
      match first_marked anchors with
      | Some original_link =>
          if nonempty original_link then Some original_link else None
      | None => None
      end
  end.

(** [input_str.split('/')[-1]] *)
Definition article_id_of (input_str : str) : str :=
  List.last (split_char slash input_str) [].

Definition get_original_link (fetch : str -> option (list Anchor))
    (input_str : str) : str :=
  let article_id := article_id_of input_str in
  let url := BASE_URL ++ article_id in
  match find_original_link (fetch url) with
  | Some original_link => original_link
  | None => []
  end.

(** [extract_links_from_url]: all anchors, or none when the page fails. *)
Definition extract_links_from_url (page : option (list Anchor)) : list Anchor :=
  default [] page.

(** Instances for the checks of this part. *)
Module Ref2.

(** A parser for the two texts the checks use. *)
Definition loads (s : str) : option json :=
  if str_eqb s (lit "{}") then Some (JObj [])
  else if str_eqb s (lit "[1]") then Some (JArr [JNum 1])
  else None.

Definition chat_body (content : str) : json :=
  JObj [(lit "choices",
         JArr [JObj [(lit "message", JObj [(lit "content", JStr content)])]])].

Definition ark_body (text : str) : json :=
  JObj [(lit "output",
         JArr [JObj [(lit "type", JStr (lit "reasoning"))];
               JObj [(lit "type", JStr (lit "message"));
                     (lit "role", JStr (lit "assistant"));
                     (lit "content",
                      JArr [JObj [(lit "type", JStr (lit "output_text"));
                                  (lit "text", JStr text)]])]])].

Definition ark_config : LLMConfig :=
  {| LLM_PROVIDER := lit "ark"; OPENAI_API_KEY := []; DASHSCOPE_API_KEY := [];
     ARK_API_KEY := lit "key"; ARK_MODEL := lit "model" |}.

Definition openai_config : LLMConfig :=
  {| LLM_PROVIDER := lit "openai"; OPENAI_API_KEY := lit "key";
     DASHSCOPE_API_KEY := []; ARK_API_KEY := []; ARK_MODEL := [] |}.

Definition no_key_config : LLMConfig :=
  {| LLM_PROVIDER := lit "qwen"; OPENAI_API_KEY := lit "key";
     DASHSCOPE_API_KEY := []; ARK_API_KEY := lit "key"; ARK_MODEL := lit "model" |}.

(** Two connection failures, then a fenced answer. *)
Definition flaky_http (n : nat) : http_outcome :=
  match n with
  | 0%nat | 1%nat => ConnectionFailed
  | _ => Responded (ark_body (lit "Here it is: ```json {} ``` done"))
  end.

Definition article_page : list Anchor :=
  [{| a_href := lit "/home"; a_text := lit "home" |};
   {| a_href := lit "`https://mp.weixin.qq.com/s/N1PQ`"; a_text := link_marker |};
   {| a_href := lit "https://other"; a_text := link_marker |}].

Definition site (url : str) : option (list Anchor) :=
  if str_eqb url (BASE_URL ++ lit "3271041950-2652670441_2")
  then Some article_page else None.


(** No feed configured. *)
Definition no_feeds : World :=
  {| RSS_URLS := []; FEISHU_WEBHOOK_URL := []; FEISHU_SECRET := [];
     feed_entries := fun _ => Some Ref.four_entries;
     as_completed := fun urls => urls;
     clock_fetch := fun _ _ => 0%Z; clock_prompt := 0%Z;
     clock_validate := 0%Z; clock_send := 0%Z;
     llm_score := fun _ => None; llm_report := fun _ _ => None;
     sink := fun _ _ => Failed; stdout_encodes := Ref.utf8_stdout |}.

End Ref2.

(** * Properties *)

Import Ref.
Import Ref2.

(** ** Checks on concrete inputs *)

Example lit_ascii : lit "link" = [108; 105; 110; 107].
Proof. reflexivity. Qed.

Example lit_cjk : lit "AI 技术动态" = [65; 73; 32; 25216; 26415; 21160; 24577].
Proof. reflexivity. Qed.

Example lit_astral : lit "🔵 低" = [128309; 32; 20302].
Proof. reflexivity. Qed.

Example encode_astral : encode (lit "🔵 低") = [240; 159; 148; 181; 32; 228; 189; 142].
Proof. reflexivity. Qed.

Example strip_both_ends : strip (lit "  ab c " ++ [newline]) = lit "ab c".
Proof. reflexivity. Qed.

Example of_Z_values :
  of_Z 1700000000 = lit "1700000000" /\ of_Z 0 = lit "0" /\ of_Z (-12) = lit "-12".
Proof. repeat split; reflexivity. Qed.

Example readlines_keeps_terminators :
  readlines (lit "ab" ++ [newline] ++ lit "c" ++ [newline; newline] ++ lit "d")
  = [lit "ab" ++ [newline]; lit "c" ++ [newline]; [newline]; lit "d"].
Proof. reflexivity. Qed.

Example sorted_strings :
  stable_sort Str.ltb [lit "b"; lit "ab"; lit "a"; lit "B"]
  = [lit "B"; lit "a"; lit "ab"; lit "b"].
Proof. reflexivity. Qed.

Example hexdigest_bytes : hexdigest [186; 120; 22; 191; 0] = lit "ba7816bf00".
Proof. reflexivity. Qed.

Example today_utc8_values :
  List.map (fun t => today_utc8 (t * us_per_second)%Z)
    [1700000000; 0; 1709222399; 1709222400; 951782400; 4107542400; 1735660799]%Z
  = List.map lit
      ["2023-11-15"; "1970-01-01"; "2024-02-29"; "2024-03-01"; "2000-02-29";
       "2100-03-01"; "2024-12-31"]%string.
Proof. vm_compute. reflexivity. Qed.

Example is_recent_values :
  is_recent lib (now * us_per_second)%Z recent HOURS_WINDOW = true
  /\ is_recent lib (now * us_per_second)%Z (lit "yesterday") HOURS_WINDOW = false
  /\ is_recent lib (now * us_per_second)%Z [] HOURS_WINDOW = false
  /\ is_recent lib (now * us_per_second)%Z (lit "2027-01-15 08:00:00") HOURS_WINDOW = true
  /\ is_recent lib (now * us_per_second)%Z (lit "2023-02-30 08:00:00") HOURS_WINDOW = false
  /\ is_recent lib (now * us_per_second)%Z recent 1000000000000 = false.
Proof. repeat split; vm_compute; reflexivity. Qed.

Example parse_timestamp_values :
  parse_timestamp recent
  = Some {| wall := (1699990000 * us_per_second)%Z; tzinfo := None |}
  /\ parse_timestamp before_window_edge
     = Some {| wall := (1699827199 * us_per_second)%Z; tzinfo := Some 0%Z |}
  /\ parse_timestamp (lit "1970-01-01T00:00:00Z")
     = Some {| wall := 0%Z; tzinfo := Some 0%Z |}
  /\ parse_timestamp (lit "2024-02-29 23:59:59")
     = Some {| wall := (1709251199 * us_per_second)%Z; tzinfo := None |}.
Proof. repeat split; vm_compute; reflexivity. Qed.

Example universal_newlines_values :
  universal_newlines (lit "a" ++ [13; 10] ++ lit "b" ++ [13] ++ lit "c" ++ [10; 13])
  = lit "a" ++ [10] ++ lit "b" ++ [10] ++ lit "c" ++ [10; 10].
Proof. reflexivity. Qed.

Example load_breaks_at_carriage_return :
  stored (Some (lit "a" ++ [13] ++ lit "b" ++ [10])) = {[lit "a"; lit "b"]}.
Proof. vm_compute. reflexivity. Qed.

Example load_stored_lines :
  stored (Some (lit " ab " ++ [newline; newline] ++ lit "cd" ++ [newline] ++ lit "ab"))
  = {[lit "ab"; lit "cd"]}.
Proof. vm_compute. reflexivity. Qed.

Example save_writes_sorted_lines :
  save_sent_hashes {[lit "cd"; lit "ab"]}
  = Some (lit "ab" ++ [newline] ++ lit "cd" ++ [newline]).
Proof. vm_compute. reflexivity. Qed.

Example same_scores_keep_order :
  List.map s_link
    (sort_scores [item link_a 5; item link_b 7; item link_c 5; item link_d 7])
  = [Some link_b; Some link_d; Some link_a; Some link_c].
Proof. vm_compute. reflexivity. Qed.

Example missing_link_is_a_KeyError :
  fill_entries (link_map three_candidates)
    [item link_a 9; {| s_link := None; s_score := Some 1%Q; s_reason := None |}]
  = Raise KeyError.
Proof. vm_compute. reflexivity. Qed.

Example scoring_skipped_without_candidates :
  score_entries scoring_down [] = Ok ([], []).
Proof. reflexivity. Qed.

Example report_must_be_a_dict :
  validate_and_fix_report 0%Z (JArr []) = Raise TypeError
  /\ validate_and_fix_report 0%Z (JStr (lit "date theme items")) = Raise TypeError.
Proof. split; reflexivity. Qed.

Example items_must_take_the_keys :
  validate_and_fix_report 0%Z (JObj [(lit "items", JArr [JStr (lit "title")])])
  = Raise TypeError
  /\ validate_and_fix_report 0%Z (JObj [(lit "items", JArr [JNull])])
     = Raise TypeError.
Proof. split; vm_compute; reflexivity. Qed.

Example items_not_a_list_are_replaced :
  validate_and_fix_report 0%Z
    (JObj [(lit "items", JStr (lit "none")); (lit "theme", JStr (lit "t"))])
  = Ok (JObj [(lit "items", JArr []); (lit "theme", JStr (lit "t"));
              (lit "date", JStr (lit "1970-01-01"))]).
Proof. vm_compute. reflexivity. Qed.

Example rejected_attempts_do_not_sleep :
  post_attempts payload (fun _ => Rejected) [0; 1; 2]%nat
  = [Post payload; Log WARNING MsgPushRejected;
     Post payload; Log WARNING MsgPushRejected;
     Post payload; Log WARNING MsgPushRejected;
     Log ERROR MsgPushFinalFailure].
Proof. reflexivity. Qed.

Example no_webhook_no_post :
  send_to_feishu lib quiet_run (JObj []) = Ok [Log WARNING MsgNoWebhook].
Proof. reflexivity. Qed.

Example full_run :
  main lib quiet_run None
  = (Ok tt,
     Some (text_of_lines
             [hash_link lib link_a; hash_link lib link_b; hash_link lib link_c])).
Proof. vm_compute. reflexivity. Qed.

Example run_without_entries :
  main lib (world now [] None None [] [] (fun _ => Accepted)) None
  = (Ok tt, Some []).
Proof. vm_compute. reflexivity. Qed.

(** ** The stable sort *)

Section StableSortFacts.

Context {A : Type} (before : A -> A -> bool).

Lemma insert_sorted_perm x l : insert_sorted before x l ≡ₚ x :: l.
Proof.
  induction l as [|y l IH]; simpl; [done|].
  destruct (before y x); [|done].
  rewrite IH. apply Permutation_swap.
Qed.

Lemma stable_sort_perm l : stable_sort before l ≡ₚ l.
Proof.
  induction l as [|x l IH]; simpl; [done|].
  rewrite insert_sorted_perm. by rewrite IH.
Qed.

Lemma stable_sort_length l : length (stable_sort before l) = length l.
Proof. by rewrite stable_sort_perm. Qed.

(** An element passes only elements that are strictly before it, so the
    elements of one class keep their order. *)
Lemma insert_sorted_filter (p : A -> bool) x l :
  (forall y, p x = true -> p y = true -> before y x = false) ->
  List.filter p (insert_sorted before x l) = List.filter p (x :: l).
Proof.
  intros Hp. induction l as [|y l IH]; [done|].
  simpl. destruct (before y x) eqn:Hyx; [|done].
  simpl. rewrite IH. simpl.
  destruct (p x) eqn:Hx, (p y) eqn:Hy; try done.
  rewrite Hp in Hyx; done.
Qed.

Lemma stable_sort_filter (p : A -> bool) l :
  (forall x y, p x = true -> p y = true -> before y x = false) ->
  List.filter p (stable_sort before l) = List.filter p l.
Proof.
  intros Hp. induction l as [|x l IH]; [done|].
  simpl. rewrite insert_sorted_filter by auto.
  simpl. by rewrite IH.
Qed.

Section Ordered.

Hypothesis before_asym : forall x y, before x y = true -> before y x = false.
Hypothesis before_negtrans :
  forall x y z, before y x = false -> before z y = false -> before z x = false.

Lemma insert_sorted_sorted x l :
  StronglySorted (fun u v => before v u = false) l ->
  StronglySorted (fun u v => before v u = false) (insert_sorted before x l).
Proof.
  induction 1 as [|y l Hl IH Hy]; simpl.
  - repeat constructor.
  - destruct (before y x) eqn:Hyx.
    + constructor; [done|].
      rewrite insert_sorted_perm. constructor; auto.
    + constructor; [by constructor|].
      constructor; [done|].
      eapply Forall_impl; [exact Hy|]. simpl. eauto.
Qed.

Lemma stable_sort_sorted l :
  StronglySorted (fun u v => before v u = false) (stable_sort before l).
Proof.
  induction l as [|x l IH]; simpl; [constructor|].
  by apply insert_sorted_sorted.
Qed.

End Ordered.

End StableSortFacts.

(** ** The order on strings *)

Lemma ltb_irrefl a : Str.ltb a a = false.
Proof.
  induction a as [|x a IH]; [done|]. simpl.
  rewrite N.ltb_irrefl, N.eqb_refl. done.
Qed.

Lemma ltb_asym a b : Str.ltb a b = true -> Str.ltb b a = false.
Proof.
  revert b. induction a as [|x a IH]; intros [|y b]; simpl; try done.
  intros H. apply orb_true_iff in H as [H|H].
  - apply N.ltb_lt in H.
    destruct (N.ltb_spec y x); [lia|]. destruct (N.eqb_spec y x); [lia|]. done.
  - apply andb_true_iff in H as [Hxy H]. apply N.eqb_eq in Hxy. subst y.
    rewrite N.ltb_irrefl, N.eqb_refl. simpl. auto.
Qed.

Lemma ltb_total a b : Str.ltb a b = false -> Str.ltb b a = false -> a = b.
Proof.
  revert b. induction a as [|x a IH]; intros [|y b]; simpl; try done.
  intros H1 H2.
  apply orb_false_iff in H1 as [H1 H1'], H2 as [H2 H2'].
  apply N.ltb_ge in H1, H2. assert (x = y) by lia. subst y.
  rewrite N.eqb_refl in *. simpl in *. f_equal. auto.
Qed.

Lemma ltb_negtrans a b c :
  Str.ltb b a = false -> Str.ltb c b = false -> Str.ltb c a = false.
Proof.
  revert b c. induction a as [|x a IH]; intros [|y b] [|z c]; simpl; try done.
  intros H1 H2.
  apply orb_false_iff in H1 as [H1 H1'], H2 as [H2 H2'].
  apply N.ltb_ge in H1, H2.
  apply orb_false_iff. split; [apply N.ltb_ge; lia|].
  destruct (N.eqb_spec z x) as [->|]; [|done]. simpl.
  assert (y = x) by lia. subst y.
  rewrite N.eqb_refl in *. simpl in *. eauto.
Qed.

Lemma sorted_hashes_perm (S : gset str) : sorted_hashes S ≡ₚ elements S.
Proof. apply stable_sort_perm. Qed.

Lemma sorted_hashes_NoDup (S : gset str) : NoDup (sorted_hashes S).
Proof. rewrite sorted_hashes_perm. apply NoDup_elements. Qed.

Lemma elem_of_sorted_hashes (S : gset str) h : h ∈ sorted_hashes S <-> h ∈ S.
Proof. rewrite sorted_hashes_perm. apply elem_of_elements. Qed.

(** The written lines ascend strictly. *)
Lemma sorted_hashes_ascending (S : gset str) :
  StronglySorted (fun u v => Str.ltb u v = true) (sorted_hashes S).
Proof.
  pose proof (sorted_hashes_NoDup S) as Hnd.
  pose proof (stable_sort_sorted Str.ltb ltb_asym ltb_negtrans (elements S)) as Hs.
  fold (sorted_hashes S) in Hs.
  induction Hs as [|u l Hl IH Hu]; [constructor|].
  apply NoDup_cons in Hnd as [Hin Hnd].
  constructor; [auto|].
  apply Forall_forall. intros v Hv.
  rewrite Forall_forall in Hu. specialize (Hu v Hv). simpl in Hu.
  destruct (Str.ltb u v) eqn:Huv; [done|].
  assert (u = v) by (by apply ltb_total). subst v. done.
Qed.

(** ** [strip] *)

Lemma isspace_newline : isspace newline = true.
Proof. reflexivity. Qed.

Lemma lstrip_app a b :
  lstrip (a ++ b) = if forallb isspace a then lstrip b else lstrip a ++ b.
Proof.
  induction a as [|c a IH]; [done|]. simpl.
  destruct (isspace c); [exact IH|done].
Qed.

Lemma lstrip_spaces a : forallb isspace a = true -> lstrip a = [].
Proof.
  induction a as [|c a IH]; [done|]. simpl.
  destruct (isspace c); [exact IH|done].
Qed.

Lemma lstrip_decomp s :
  exists sp, s = sp ++ lstrip s /\ forallb isspace sp = true.
Proof.
  induction s as [|c s (sp & Hs & Hsp)]; [by exists []|]. simpl.
  destruct (isspace c) eqn:Hc.
  - exists (c :: sp). simpl. rewrite Hc, Hsp. split; [by f_equal|done].
  - by exists [].
Qed.

Lemma lstrip_head c t : isspace c = false -> lstrip (c :: t) = c :: t.
Proof. intros H. simpl. by rewrite H. Qed.

Lemma lstrip_result_head s c t : lstrip s = c :: t -> isspace c = false.
Proof.
  induction s as [|c' s IH]; [done|]. simpl.
  destruct (isspace c') eqn:Hc; [exact IH|].
  intros [= -> _]. done.
Qed.

Lemma lstrip_idemp s : lstrip (lstrip s) = lstrip s.
Proof.
  destruct (lstrip s) as [|c t] eqn:H; [done|].
  apply lstrip_head. by eapply lstrip_result_head.
Qed.

Lemma rstrip_decomp s :
  exists sp, s = rstrip s ++ sp /\ forallb isspace sp = true.
Proof.
  destruct (lstrip_decomp (rev s)) as (sp & Hs & Hsp).
  exists (rev sp). split.
  - unfold rstrip. rewrite <- rev_app_distr, <- Hs. by rewrite rev_involutive.
  - rewrite forallb_forall in *. intros c Hc. apply Hsp. by apply in_rev.
Qed.

Lemma rstrip_idemp s : rstrip (rstrip s) = rstrip s.
Proof. unfold rstrip. by rewrite rev_involutive, lstrip_idemp. Qed.

Lemma lstrip_rstrip_fixed u : lstrip u = u -> lstrip (rstrip u) = rstrip u.
Proof.
  intros Hu. destruct (rstrip_decomp u) as (sp & Hd & _).
  destruct (rstrip u) as [|c t] eqn:Hr; [done|].
  apply lstrip_head. apply (lstrip_result_head u c (t ++ sp)).
  rewrite Hu. exact Hd.
Qed.

Lemma strip_idemp s : strip (strip s) = strip s.
Proof.
  unfold strip.
  rewrite (lstrip_rstrip_fixed (lstrip s)) by apply lstrip_idemp.
  apply rstrip_idemp.
Qed.

Lemma elem_of_lstrip c s : c ∈ lstrip s -> c ∈ s.
Proof.
  destruct (lstrip_decomp s) as (sp & Hs & _). intros H.
  rewrite Hs. apply elem_of_app. by right.
Qed.

Lemma elem_of_strip c s : c ∈ strip s -> c ∈ s.
Proof.
  intros H. apply elem_of_lstrip.
  destruct (rstrip_decomp (lstrip s)) as (sp & Hs & _).
  rewrite Hs. apply elem_of_app. by left.
Qed.

(** The line terminator goes with the rest of the trailing white space. *)
Lemma strip_terminated h : strip (h ++ [newline]) = strip h.
Proof.
  unfold strip. rewrite lstrip_app.
  destruct (forallb isspace h) eqn:Hh.
  - by rewrite (lstrip_spaces h).
  - unfold rstrip. rewrite rev_app_distr. simpl. done.
Qed.

Lemma line_safe_strip_terminated h : line_safe h -> strip (h ++ [newline]) = h.
Proof. intros (_ & Hs & _). by rewrite strip_terminated. Qed.

(** ** Reading the store file *)

Lemma readlines_nil_inv s : readlines s = [] -> s = [].
Proof.
  destruct s as [|c s]; [done|]. simpl.
  destruct (c =? newline); [done|]. by destruct (readlines s).
Qed.

Lemma readlines_app_newline a r :
  readlines (a ++ newline :: r) = readlines (a ++ [newline]) ++ readlines r.
Proof.
  induction a as [|c a IH]; [done|]. simpl.
  destruct (c =? newline); [by rewrite IH|].
  rewrite IH.
  destruct (readlines (a ++ [newline])) as [|l ls] eqn:Hl; [|done].
  apply readlines_nil_inv in Hl. by destruct a.
Qed.

Lemma readlines_one_line h :
  newline ∉ h -> readlines (h ++ [newline]) = [h ++ [newline]].
Proof.
  induction h as [|c h IH]; [done|]. intros Hc.
  apply not_elem_of_cons in Hc as [Hc Hh]. simpl.
  destruct (N.eqb_spec c newline); [done|]. by rewrite IH.
Qed.

Lemma readlines_text_of_lines lines :
  readlines (text_of_lines lines)
  = flat_map (fun h => readlines (h ++ [newline])) lines.
Proof.
  induction lines as [|h lines IH]; [done|].
  unfold text_of_lines in *. simpl.
  rewrite <- app_assoc. simpl. rewrite readlines_app_newline. by rewrite IH.
Qed.

(** Every line read has its only line break, if any, at its end. *)
Lemma readlines_shape s line :
  line ∈ readlines s ->
  exists body, (newline ∉ body) /\ (line = body ++ [newline] \/ line = body).
Proof.
  revert line. induction s as [|c s IH]; intros line; simpl.
  - by intros ?%elem_of_nil.
  - destruct (N.eqb_spec c newline) as [->|Hc].
    + intros [->|H]%elem_of_cons; [|by apply IH].
      exists []. split; [apply not_elem_of_nil|by left].
    + destruct (readlines s) as [|l ls] eqn:Hl.
      * intros ->%list_elem_of_singleton.
        exists [c]. split; [|by right].
        by intros ?%list_elem_of_singleton.
      * intros [->|H]%elem_of_cons.
        -- destruct (IH l) as (body & Hb & Hl'); [by left|].
           exists (c :: body). split.
           ++ by apply not_elem_of_cons.
           ++ destruct Hl' as [->| ->]; [by left|by right].
        -- apply IH. by right.
Qed.

(** ** The dedup store *)

Lemma universal_newlines_id s :
  carriage_return ∉ s -> universal_newlines s = s.
Proof.
  induction s as [|c s IH]; [done|].
  intros [Hc Hs]%not_elem_of_cons. simpl.
  destruct (N.eqb_spec c carriage_return); [done|]. by rewrite IH.
Qed.

Lemma universal_newlines_no_cr s : carriage_return ∉ universal_newlines s.
Proof.
  assert (forall n s, (length s <= n)%nat ->
                      carriage_return ∉ universal_newlines s) as H.
  { clear s. induction n as [|n IH]; intros [|c s] Hn; simpl in *;
      try apply not_elem_of_nil; [lia|].
    destruct (N.eqb_spec c carriage_return) as [->|Hc].
    - destruct s as [|c' s]; [by intros [?|?%elem_of_nil]%elem_of_cons|].
      simpl in Hn.
      destruct (c' =? newline); apply not_elem_of_cons;
        (split; [done|apply IH; simpl; lia]).
    - apply not_elem_of_cons. split; [done|]. apply IH. lia. }
  by apply (H (length s)).
Qed.

Lemma text_of_lines_no_cr lines :
  (forall h, h ∈ lines -> carriage_return ∉ h) ->
  carriage_return ∉ text_of_lines lines.
Proof.
  intros Hl. unfold text_of_lines.
  rewrite list_elem_of_In, in_concat. intros (x & Hx & Hin).
  apply in_map_iff in Hx as (h & <- & Hh).
  rewrite <- list_elem_of_In in Hin. rewrite <- list_elem_of_In in Hh.
  apply elem_of_app in Hin as [Hin|[=]%list_elem_of_singleton].
  by apply (Hl h).
Qed.

Lemma elem_of_stored_text text h :
  h ∈ stored (Some text) <->
  h <> [] /\ exists line,
              line ∈ readlines (universal_newlines text) /\ h = strip line.
Proof.
  unfold stored. simpl. rewrite elem_of_list_to_set, list_elem_of_In, filter_In, in_map_iff.
  split.
  - intros [(line & <- & Hl) Hne]. split; [by destruct (strip line)|].
    exists line. by rewrite list_elem_of_In.
  - intros (Hne & line & Hl & ->). split; [|by destruct (strip line)].
    exists line. by rewrite <- list_elem_of_In.
Qed.

Lemma stored_absent : stored None = ∅.
Proof. reflexivity. Qed.

(** Loading leaves the fingerprints as they are; at most it creates the
    file. *)
Lemma stored_after_load f : stored (snd (load_sent_hashes f)) = stored f.
Proof. destruct f; reflexivity. Qed.

Lemma load_sent_hashes_fst f : fst (load_sent_hashes f) = stored f.
Proof. reflexivity. Qed.

Lemma load_sent_hashes_existing text :
  snd (load_sent_hashes (Some text)) = Some text.
Proof. reflexivity. Qed.

Lemma stored_store_safe f h : h ∈ stored f -> store_safe h.
Proof.
  destruct f as [text|]; [|by rewrite stored_absent; intros ?%not_elem_of_empty].
  rewrite elem_of_stored_text. intros (Hne & line & Hl & ->).
  assert (forall c, c ∈ strip line -> c ∈ universal_newlines text) as Hsub.
  { intros c Hc%elem_of_strip.
    apply readlines_shape in Hl as Hshape. clear Hshape.
    revert Hl Hc. generalize (universal_newlines text). clear.
    intros s. revert line. induction s as [|x s IH]; intros line; simpl.
    - by intros ?%elem_of_nil.
    - destruct (N.eqb_spec x newline) as [->|Hx].
      + intros [->|H]%elem_of_cons Hc.
        * apply list_elem_of_singleton in Hc as ->. by left.
        * right. by apply (IH line).
      + destruct (readlines s) as [|l ls] eqn:Hr.
        * intros ->%list_elem_of_singleton ->%list_elem_of_singleton. by left.
        * intros [->|H]%elem_of_cons Hc.
          -- apply elem_of_cons in Hc as [->|Hc]; [by left|].
             right. apply (IH l); [by left|done].
          -- right. apply (IH line); [by right|done]. }
  split; [split; [done|split; [apply strip_idemp|]]|].
  - apply readlines_shape in Hl as (body & Hb & [-> | ->]).
    + rewrite strip_terminated. intros H. apply Hb. by apply elem_of_strip.
    + intros H. apply Hb. by apply elem_of_strip.
  - intros Hc%Hsub. by apply universal_newlines_no_cr in Hc.
Qed.

Lemma stored_line_safe f h : h ∈ stored f -> line_safe h.
Proof. by intros [? _]%stored_store_safe. Qed.

Lemma save_sent_hashes_text S :
  save_sent_hashes S = Some (text_of_lines (sorted_hashes S)).
Proof. reflexivity. Qed.

(** The text written for fingerprints without carriage return is read as it
    is. *)
Lemma saved_text_read S :
  (forall h, h ∈ S -> carriage_return ∉ h) ->
  universal_newlines (text_of_lines (sorted_hashes S))
  = text_of_lines (sorted_hashes S).
Proof.
  intros HS. apply universal_newlines_id, text_of_lines_no_cr.
  intros h Hh%elem_of_sorted_hashes. by apply HS.
Qed.

(** What was saved is found again. *)
Lemma stored_save_elem S h :
  (forall x, x ∈ S -> carriage_return ∉ x) ->
  h ∈ S -> line_safe h -> h ∈ stored (save_sent_hashes S).
Proof.
  intros Hcr Hh Hs. rewrite save_sent_hashes_text, elem_of_stored_text.
  rewrite saved_text_read by done.
  split; [apply Hs|]. exists (h ++ [newline]).
  split; [|by rewrite line_safe_strip_terminated].
  rewrite readlines_text_of_lines, list_elem_of_In, in_flat_map.
  exists h. split; [by rewrite <- list_elem_of_In, elem_of_sorted_hashes|].
  rewrite readlines_one_line by apply Hs. by left.
Qed.

(** Of fingerprints without white space at their ends and without a line
    ending inside, the empty one apart, exactly those saved are found. *)
Lemma stored_save_iff S h :
  (forall x, x ∈ S -> strip x = x /\ (newline ∉ x) /\ carriage_return ∉ x) ->
  h ∈ stored (save_sent_hashes S) <-> h ∈ S /\ h <> [].
Proof.
  intros HS. split.
  - rewrite save_sent_hashes_text, elem_of_stored_text.
    rewrite saved_text_read by (intros x Hx; by apply HS).
    intros (Hne & line & Hl & ->).
    rewrite readlines_text_of_lines, list_elem_of_In, in_flat_map in Hl.
    destruct Hl as (x & Hx & Hl).
    rewrite <- list_elem_of_In, elem_of_sorted_hashes in Hx.
    destruct (HS x Hx) as (Hstrip & Hnl & _).
    rewrite readlines_one_line in Hl by done.
    destruct Hl as [<-|[]]. rewrite strip_terminated, Hstrip in Hne |- *. done.
  - intros [Hh Hne]. destruct (HS h Hh) as (Hstrip & Hnl & _).
    apply stored_save_elem; [intros x Hx; by apply HS|done|done].
Qed.

Lemma stored_save S :
  (forall h, h ∈ S -> store_safe h) -> stored (save_sent_hashes S) = S.
Proof.
  intros HS. apply set_eq. intros h. rewrite stored_save_iff.
  - split; [by intros [? _]|]. intros Hh. split; [done|]. apply (HS h Hh).
  - intros x Hx. destruct (HS x Hx) as [(_ & ? & ?) ?]. done.
Qed.

(** *** The lines of the file *)

Lemma split_when_nonempty p s : split_when p s <> [].
Proof.
  destruct s as [|c s]; [done|]. simpl.
  destruct (p c); [done|]. by destruct (split_when p s).
Qed.

(** Iterating over a text gives the pieces between its line feeds, each
    with its line feed. *)
Lemma readlines_pieces s :
  readlines s = terminate_lines (split_when (fun c => c =? newline) s).
Proof.
  induction s as [|c s IH]; [done|]. cbn [readlines split_when].
  pose proof (split_when_nonempty (fun c => c =? newline) s) as Hne.
  destruct (N.eqb_spec c newline) as [->|Hc].
  - rewrite IH. by destruct (split_when _ s).
  - rewrite IH. destruct (split_when _ s) as [|piece [|p2 ps]]; [done| |done].
    simpl. by destruct piece.
Qed.

Lemma terminate_lines_elem pieces line :
  line ∈ terminate_lines pieces ->
  exists piece, piece ∈ pieces /\ (line = piece ++ [newline] \/ line = piece).
Proof.
  induction pieces as [|p [|p2 ps] IH].
  - by intros ?%elem_of_nil.
  - simpl. destruct (nonempty p); [|by intros ?%elem_of_nil].
    intros ->%list_elem_of_singleton. exists p. split; [by left|by right].
  - intros [->|H]%elem_of_cons.
    + exists p. split; [by left|by left].
    + destruct (IH H) as (q & Hq & Hl). exists q. split; [by right|done].
Qed.

Lemma terminate_lines_intro pieces piece :
  piece ∈ pieces -> piece <> [] ->
  piece ++ [newline] ∈ terminate_lines pieces \/ piece ∈ terminate_lines pieces.
Proof.
  intros Hin Hne. induction pieces as [|p [|p2 ps] IH].
  - by apply elem_of_nil in Hin.
  - apply list_elem_of_singleton in Hin as <-. right. simpl.
    destruct piece; [done|]. by left.
  - apply elem_of_cons in Hin as [<-|Hin].
    + left. by left.
    + destruct (IH Hin) as [H|H]; [left|right]; by right.
Qed.

(** A text-mode read and a split at line feeds give the lines that a split
    at line feeds and carriage returns gives, empty lines apart. *)
Lemma split_when_break p c s :
  p c = true -> split_when p (c :: s) = [] :: split_when p s.
Proof. intros H. simpl. by rewrite H. Qed.

Lemma split_when_char p c s hd tl :
  p c = false -> split_when p s = hd :: tl ->
  split_when p (c :: s) = (c :: hd) :: tl.
Proof. intros H Hs. simpl. by rewrite H, Hs. Qed.

Lemma universal_newlines_char c s :
  c <> carriage_return ->
  universal_newlines (c :: s) = c :: universal_newlines s.
Proof. intros H. simpl. by destruct (N.eqb_spec c carriage_return). Qed.

Lemma split_universal_newlines s :
  exists hd tl1 tl2,
    split_when (fun c => c =? newline) (universal_newlines s) = hd :: tl1
    /\ split_when line_break s = hd :: tl2
    /\ List.filter nonempty tl1 = List.filter nonempty tl2.
Proof.
  assert (forall n s, (length s <= n)%nat ->
    exists hd tl1 tl2,
      split_when (fun c => c =? newline) (universal_newlines s) = hd :: tl1
      /\ split_when line_break s = hd :: tl2
      /\ List.filter nonempty tl1 = List.filter nonempty tl2) as H.
  { clear s. induction n as [|n IH]; intros [|c s] Hn; simpl in Hn;
      try (by exists [], [], []); [lia|].
    destruct (N.eqb_spec c carriage_return) as [->|Hcr].
    - destruct s as [|c' s]; [by exists [], [[]], [[]]|].
      simpl in Hn. destruct (N.eqb_spec c' newline) as [->|Hnl].
      + destruct (IH s) as (hd & tl1 & tl2 & H1 & H2 & H3); [lia|].
        exists [], (hd :: tl1), ([] :: hd :: tl2).
        change (universal_newlines (carriage_return :: newline :: s))
          with (newline :: universal_newlines s).
        rewrite !split_when_break, H1, H2 by done.
        split; [done|]. split; [done|]. simpl. by rewrite H3.
      + destruct (IH (c' :: s)) as (hd & tl1 & tl2 & H1 & H2 & H3);
          [simpl; lia|].
        exists [], (hd :: tl1), (hd :: tl2).
        assert (universal_newlines (carriage_return :: c' :: s)
                = newline :: universal_newlines (c' :: s)) as ->.
        { cbn [universal_newlines]. change (carriage_return =? carriage_return) with true.
          cbn iota. by destruct (N.eqb_spec c' newline). }
        rewrite !split_when_break, H1, H2 by done.
        split; [done|]. split; [done|]. simpl. by rewrite H3.
    - destruct (IH s) as (hd & tl1 & tl2 & H1 & H2 & H3); [lia|].
      rewrite universal_newlines_char by done.
      destruct (N.eqb_spec c newline) as [->|Hnl].
      + exists [], (hd :: tl1), (hd :: tl2).
        rewrite !split_when_break, H1, H2 by done.
        split; [done|]. split; [done|]. simpl. by rewrite H3.
      + exists (c :: hd), tl1, tl2.
        rewrite (split_when_char _ c _ hd tl1), (split_when_char _ c _ hd tl2);
          try done.
        * unfold line_break. by destruct (N.eqb_spec c newline), (N.eqb_spec c carriage_return).
        * by destruct (N.eqb_spec c newline). }
  by apply (H (length s)).
Qed.

Lemma strip_nonempty_inv p : strip p <> [] -> p <> [].
Proof. by intros H ->. Qed.

(** What [load_sent_hashes] finds is what the file holds. *)
Lemma stored_holds f h : h ∈ stored f <-> holds f h.
Proof.
  unfold holds. destruct f as [text|].
  2:{ rewrite stored_absent. split; [by intros ?%not_elem_of_empty|].
      by intros (_ & text & line & [=] & _). }
  rewrite elem_of_stored_text, readlines_pieces.
  destruct (split_universal_newlines text) as (hd & tl1 & tl2 & H1 & H2 & H3).
  rewrite H1.
  assert (forall p, p <> [] -> p ∈ hd :: tl1 <-> p ∈ hd :: tl2) as Hsame.
  { intros p Hp. rewrite !elem_of_cons.
    assert (p ∈ tl1 <-> p ∈ tl2) as ->; [|done].
    rewrite !list_elem_of_In.
    assert (forall l, In p l <-> In p (List.filter nonempty l)) as Hf.
    { intros l. rewrite filter_In. destruct p; [done|]. simpl. tauto. }
    by rewrite (Hf tl1), (Hf tl2), H3. }
  split.
  - intros (Hne & line & Hl & ->). split; [done|].
    apply terminate_lines_elem in Hl as (p & Hp & Hl).
    assert (strip line = strip p) as Heq.
    { destruct Hl as [->| ->]; [apply strip_terminated|done]. }
    exists text, p. split; [done|]. rewrite H2, <- Heq. split; [|done].
    apply Hsame; [|done]. apply strip_nonempty_inv. by rewrite <- Heq.
  - intros (Hne & text' & p & [= <-] & Hp & <-). split; [done|].
    rewrite H2 in Hp. pose proof (strip_nonempty_inv _ Hne) as Hpne.
    apply Hsame in Hp; [|done].
    destruct (terminate_lines_intro _ _ Hp Hpne) as [Hl|Hl].
    + exists (p ++ [newline]). split; [done|]. by rewrite strip_terminated.
    + by exists p.
Qed.

(** ** Fingerprints *)

Lemma hexchar_not_space n : n < 16 -> isspace (hexchar n) = false.
Proof.
  intros Hn. unfold hexchar.
  destruct (N.ltb_spec n 10); unfold isspace;
    repeat match goal with
    | |- context [?a <=? ?b] => destruct (N.leb_spec a b); try lia
    | |- context [?a =? ?b] => destruct (N.eqb_spec a b); try lia
    end; reflexivity.
Qed.

Lemma hexdigest_no_space digest c : c ∈ hexdigest digest -> isspace c = false.
Proof.
  unfold hexdigest. rewrite list_elem_of_In, in_flat_map.
  intros (b & _ & [<-|[<-|[]]]); apply hexchar_not_space; apply N.mod_lt; lia.
Qed.

Lemma no_space_strip h : (forall c, c ∈ h -> isspace c = false) -> strip h = h.
Proof.
  intros Hc.
  assert (forall u : str, (forall c, c ∈ u -> isspace c = false) -> lstrip u = u) as Hl.
  { intros [|c u] Hu; [done|]. apply lstrip_head, Hu. by left. }
  unfold strip, rstrip. rewrite (Hl h Hc), Hl; [apply rev_involutive|].
  intros c Hin. apply Hc. by rewrite list_elem_of_In, in_rev, <- list_elem_of_In.
Qed.

Lemma no_space_line_safe h :
  h <> [] -> (forall c, c ∈ h -> isspace c = false) -> line_safe h.
Proof.
  intros Hne Hc. split; [done|]. split; [by apply no_space_strip|].
  intros Hn. apply Hc in Hn. by rewrite isspace_newline in Hn.
Qed.

Lemma hexdigest_no_cr digest : carriage_return ∉ hexdigest digest.
Proof. by intros H%hexdigest_no_space. Qed.

Lemma hexdigest_line_safe digest : digest <> [] -> line_safe (hexdigest digest).
Proof.
  intros Hne. apply no_space_line_safe; [by destruct digest|].
  apply hexdigest_no_space.
Qed.

(** ** The fetcher *)

Lemma truncate_with_ellipsis_length n s :
  (length (truncate_with_ellipsis n s) <= n + 3)%nat.
Proof.
  unfold truncate_with_ellipsis.
  destruct (Nat.ltb_spec n (length s)).
  - rewrite length_app, length_take. change (length ellipsis) with 3%nat. lia.
  - lia.
Qed.

Lemma candidate_of_inv L sent now entry cand :
  candidate_of L sent now entry = Some cand ->
  c_link cand <> []
  /\ c_hash cand = hash_link L (c_link cand)
  /\ (c_hash cand ∉ sent)
  /\ is_recent L now (c_published cand) HOURS_WINDOW = true
  /\ c_summary cand
     = truncate_with_ellipsis 500
         (default (default [] (e_description entry)) (e_summary entry)).
Proof.
  unfold candidate_of.
  destruct (nonempty (default [] (e_link entry))) eqn:Hl; [|done]. simpl.
  case_bool_decide as Hh; [done|].
  destruct (is_recent L now _ HOURS_WINDOW) eqn:Hr; [|done]. simpl.
  intros [= <-]. simpl. repeat split; try done.
  by destruct (default [] (e_link entry)).
Qed.

Lemma scan_entries_elem L sent clock i entries cand :
  cand ∈ scan_entries L sent clock i entries ->
  exists j entry, entry ∈ entries /\ candidate_of L sent (clock j) entry = Some cand.
Proof.
  revert i. induction entries as [|e entries IH]; intros i; simpl.
  - by intros ?%elem_of_nil.
  - destruct (candidate_of L sent (clock i) e) eqn:He.
    + intros [->|H]%elem_of_cons.
      * exists i, e. split; [by left|done].
      * destruct (IH _ H) as (j & e' & ? & ?). exists j, e'. split; [by right|done].
    + intros H. destruct (IH _ H) as (j & e' & ? & ?).
      exists j, e'. split; [by right|done].
Qed.

Lemma fetch_rss_entries_store L W f :
  stored (snd (fetch_rss_entries L W f)) = stored f
  /\ forall text, f = Some text -> snd (fetch_rss_entries L W f) = f.
Proof.
  unfold fetch_rss_entries. destruct (RSS_URLS W); [done|].
  destruct f; done.
Qed.

(** Every candidate comes out of the loop body, run against the
    fingerprints the store held. *)
Lemma fetch_rss_entries_elem L W f cand :
  cand ∈ fst (fetch_rss_entries L W f) ->
  exists now entry, candidate_of L (stored f) now entry = Some cand.
Proof.
  unfold fetch_rss_entries. destruct (RSS_URLS W) as [|u us].
  { by intros ?%elem_of_nil. }
  destruct (load_sent_hashes f) as [sent f1] eqn:Hload.
  assert (sent = stored f) as -> by (unfold stored; by rewrite Hload).
  simpl. intros Hin%subseteq_take.
  rewrite list_elem_of_In, in_flat_map in Hin.
  destruct Hin as (url & _ & Hin). unfold fetch_single_feed in Hin.
  destruct (feed_entries W url); [|done].
  rewrite <- list_elem_of_In in Hin.
  apply scan_entries_elem in Hin as (j & entry & _ & H). eauto.
Qed.

(** ** The scorer *)

Lemma link_map_lookup entries link e :
  link_map entries !! link = Some e -> e ∈ entries /\ c_link e = link.
Proof.
  unfold link_map.
  assert (forall m : gmap str CandidateEntry,
    foldl (fun m e => <[c_link e := e]> m) m entries !! link = Some e ->
    (e ∈ entries /\ c_link e = link) \/ m !! link = Some e) as H.
  { induction entries as [|e' entries IH]; intros m; simpl; [by right|].
    intros [[? ?]|H]%IH; [left; split; [by right|done]|].
    destruct (decide (c_link e' = link)) as [<-|Hne].
    - rewrite lookup_insert_eq in H. injection H as ->. left. split; [by left|done].
    - rewrite lookup_insert_ne in H by done. by right. }
  intros [?|Hm]%H; [done|]. by rewrite lookup_empty in Hm.
Qed.

Lemma fill_entries_elem m top_scores tops t :
  fill_entries m top_scores = Ok tops -> t ∈ tops ->
  exists link, m !! link = Some (t_entry t).
Proof.
  revert tops. induction top_scores as [|s rest IH]; intros tops; simpl.
  - intros [= <-]. by intros ?%elem_of_nil.
  - destruct (s_link s) as [link|]; [|done]. simpl.
    destruct (m !! link) as [entry|] eqn:Hm; [|by apply IH].
    destruct (s_score s); [|done]. destruct (s_reason s); [|done]. simpl.
    destruct (fill_entries m rest) as [tops'| |]; [|done|done]. simpl.
    intros [= <-]. intros [->|Ht]%elem_of_cons; [by exists link|].
    by apply (IH tops').
Qed.

Lemma fill_entries_length m top_scores tops :
  fill_entries m top_scores = Ok tops -> (length tops <= length top_scores)%nat.
Proof.
  revert tops. induction top_scores as [|s rest IH]; intros tops; simpl.
  - by intros [= <-].
  - destruct (s_link s) as [link|]; [|done]. simpl.
    destruct (m !! link) as [entry|] eqn:Hm.
    + destruct (s_score s); [|done]. destruct (s_reason s); [|done]. simpl.
      destruct (fill_entries m rest) as [tops'| |]; [|done|done]. simpl.
      intros [= <-]. simpl. specialize (IH tops' eq_refl). lia.
    + intros H. specialize (IH _ H). lia.
Qed.

(** What [score_entries] returns once the model has answered. *)
Lemma score_entries_answered W entries result :
  entries <> [] ->
  llm_score W (compact_for_scoring entries) = Some result ->
  score_entries W entries =
    (top_entries ← fill_entries (link_map entries)
                     (take TOP_N (sort_scores (default [] result)));
     Ok (top_entries, [Log INFO (MsgScoringDone (length top_entries))])).
Proof.
  intros Hne Hllm. unfold score_entries. destruct entries; [done|].
  by rewrite Hllm.
Qed.

Lemma score_entries_failed W entries :
  entries <> [] ->
  llm_score W (compact_for_scoring entries) = None ->
  score_entries W entries = Exit 1.
Proof.
  intros Hne Hllm. unfold score_entries. destruct entries; [done|].
  by rewrite Hllm.
Qed.

Lemma score_entries_elem W entries tops log t :
  score_entries W entries = Ok (tops, log) -> t ∈ tops -> t_entry t ∈ entries.
Proof.
  unfold score_entries. destruct entries as [|e entries].
  { intros [= <- _]. by intros ?%elem_of_nil. }
  destruct (llm_score W _) as [result|]; [|done].
  destruct (fill_entries _ _) as [tops'| |] eqn:Hfill; [|done|done]. simpl.
  intros [= <- _] Ht.
  destruct (fill_entries_elem _ _ _ _ Hfill Ht) as (link & Hl).
  by apply link_map_lookup in Hl as [? _].
Qed.

(** ** The driver *)

(** A run that gets through every stage ends by saving the re-loaded
    fingerprints together with those of the top entries. *)
Lemma main_persists L W f candidates f1 tops log report trace :
  fetch_rss_entries L W f = (candidates, f1) ->
  score_entries W candidates = Ok (tops, log) ->
  tops <> [] ->
  generate_daily_report W tops = Ok report ->
  print_report W report = Ok tt ->
  send_to_feishu L W report = Ok trace ->
  main L W f = (Ok tt, save_sent_hashes (stored f ∪ new_hashes tops)).
Proof.
  intros Hfetch Hscore Htops Hreport Hprint Hsend.
  assert (stored f1 = stored f) as Hf1.
  { pose proof (fetch_rss_entries_store L W f) as [H _]. by rewrite Hfetch in H. }
  unfold main. rewrite Hfetch.
  destruct candidates as [|c0 cs].
  { simpl in Hscore. by injection Hscore as <- _. }
  rewrite Hscore. destruct tops as [|t ts]; [done|].
  rewrite Hreport, Hprint, Hsend.
  destruct (load_sent_hashes f1) as [sent f2] eqn:Hload.
  assert (sent = stored f1) as -> by (unfold stored; by rewrite Hload).
  by rewrite Hf1.
Qed.

Lemma main_completes L W f tops :
  completes L W f tops ->
  main L W f = (Ok tt, save_sent_hashes (stored f ∪ new_hashes tops)).
Proof.
  intros (log & report & trace & Hscore & Htops & Hreport & Hprint & Hsend).
  destruct (fetch_rss_entries L W f) as [candidates f1] eqn:Hfetch.
  by eapply main_persists.
Qed.

(** A run either leaves the store as the fetcher left it or saves. *)
Lemma main_store L W f :
  snd (main L W f) = snd (fetch_rss_entries L W f)
  \/ exists tops, completes L W f tops.
Proof.
  unfold completes.
  destruct (fetch_rss_entries L W f) as [candidates f1] eqn:Hfetch.
  destruct candidates as [|c0 cs].
  { left. unfold main. by rewrite Hfetch. }
  destruct (score_entries W (c0 :: cs)) as [[tops log]| |] eqn:Hscore;
    [|left; unfold main; by rewrite Hfetch, Hscore..].
  destruct tops as [|t ts].
  { left. unfold main. by rewrite Hfetch, Hscore. }
  destruct (generate_daily_report W (t :: ts)) as [report| |] eqn:Hreport;
    [|left; unfold main; by rewrite Hfetch, Hscore, Hreport..].
  destruct (print_report W report) as [[]| |] eqn:Hprint;
    [|left; unfold main; by rewrite Hfetch, Hscore, Hreport, Hprint..].
  destruct (send_to_feishu L W report) as [trace| |] eqn:Hsend;
    [|left; unfold main; by rewrite Hfetch, Hscore, Hreport, Hprint, Hsend..].
  right. exists (t :: ts), log, report, trace. by simpl.
Qed.

(** The webhook's answers decide nothing but the trace. *)
Lemma send_to_feishu_sink L W s report :
  send_to_feishu L (with_sink s W) report = Ok [Log WARNING MsgNoWebhook]
    /\ send_to_feishu L W report = Ok [Log WARNING MsgNoWebhook]
  \/ (exists card,
      render_card report = Ok card
      /\ (exists tr, send_to_feishu L (with_sink s W) report = Ok tr)
      /\ (exists tr, send_to_feishu L W report = Ok tr))
  \/ (exists e,
      send_to_feishu L (with_sink s W) report = Raise e
      /\ send_to_feishu L W report = Raise e)
  \/ (exists c,
      send_to_feishu L (with_sink s W) report = Exit c
      /\ send_to_feishu L W report = Exit c).
Proof.
  unfold send_to_feishu. simpl.
  destruct (nonempty (FEISHU_WEBHOOK_URL W)); simpl; [|by left].
  destruct (render_card report) as [card|c|e]; simpl.
  - right. left. exists card. eauto.
  - do 3 right. by exists c.
  - do 2 right. left. by exists e.
Qed.

Lemma main_sink L W s f : main L (with_sink s W) f = main L W f.
Proof.
  unfold main.
  change (fetch_rss_entries L (with_sink s W) f) with (fetch_rss_entries L W f).
  destruct (fetch_rss_entries L W f) as [candidates f1].
  destruct candidates as [|c0 cs]; [done|].
  change (score_entries (with_sink s W) (c0 :: cs)) with (score_entries W (c0 :: cs)).
  destruct (score_entries W (c0 :: cs)) as [[tops log]| |]; [|done..].
  destruct tops as [|t ts]; [done|].
  change (generate_daily_report (with_sink s W) (t :: ts))
    with (generate_daily_report W (t :: ts)).
  destruct (generate_daily_report W (t :: ts)) as [report| |]; [|done..].
  change (print_report (with_sink s W) report) with (print_report W report).
  destruct (print_report W report) as [[]| |]; [|done..].
  destruct (send_to_feishu_sink L W s report)
    as [[-> ->]|[(card & _ & [tr ->] & [tr' ->])|[(e & -> & ->)|(c & -> & ->)]]]; done.
Qed.

Lemma elem_of_new_hashes tops h :
  h ∈ new_hashes tops <-> exists t, t ∈ tops /\ h = c_hash (t_entry t).
Proof.
  unfold new_hashes. rewrite elem_of_list_to_set, list_elem_of_In, in_map_iff.
  split; intros (t & H1 & H2).
  - exists t. by rewrite list_elem_of_In.
  - exists t. by rewrite <- list_elem_of_In.
Qed.

(** The top entries are candidates of this run, fingerprinted by the
    fetcher. *)
Lemma completes_top_entry L W f tops t :
  completes L W f tops -> t ∈ tops ->
  c_hash (t_entry t) = hash_link L (c_link (t_entry t))
  /\ (c_hash (t_entry t) ∉ stored f).
Proof.
  intros (log & report & trace & Hscore & _) Ht.
  pose proof (score_entries_elem _ _ _ _ _ Hscore Ht) as Hin.
  apply fetch_rss_entries_elem in Hin as (now & entry & Hc).
  apply candidate_of_inv in Hc as (_ & Hhash & Hnew & _). done.
Qed.


Lemma main_monotone L W f : stored f ⊆ stored (snd (main L W f)).
Proof.
  destruct (main_store L W f) as [->|[tops H]].
  { by rewrite (proj1 (fetch_rss_entries_store L W f)). }
  rewrite (main_completes _ _ _ _ H).
  - simpl. intros h Hh. apply stored_save_elem; [|set_solver|].
    + intros x [Hx|Hx]%elem_of_union.
      * by apply (stored_store_safe f).
      * apply elem_of_new_hashes in Hx as (t & Ht & ->).
        destruct (completes_top_entry _ _ _ _ _ H Ht) as [-> _].
        apply hexdigest_no_cr.
    + by apply (stored_line_safe f).
Qed.

Lemma run_all_monotone L Ws f : stored f ⊆ stored (run_all L Ws f).
Proof.
  revert f. induction Ws as [|W Ws IH]; intros f; simpl; [done|].
  etrans; [apply (main_monotone L W)|apply IH].
Qed.

Lemma ref_sha256_length m : length (sha256 lib m) = 32%nat.
Proof.
  simpl. unfold sym_sha256.
  rewrite length_take, length_app, repeat_length. lia.
Qed.


Lemma webhook_down_completes : completes lib webhook_down None top_three.
Proof.
  exists [Log INFO (MsgScoringDone 3)].
  do 2 eexists. split; [vm_compute; reflexivity|].
  split; [discriminate|]. split; [reflexivity|]. split; reflexivity.
Defined.

(** What the file holds after a run that got through every stage: what it
    held, and the fingerprints of the top entries. *)
Lemma holds_after_run L W f tops h :
  completes L W f tops ->
  holds (snd (main L W f)) h
  <-> holds f h \/ (h <> [] /\ exists t, t ∈ tops /\ h = c_hash (t_entry t)).
Proof.
  intros Hrun. rewrite (main_completes _ _ _ _ Hrun). simpl.
  rewrite <- !stored_holds, stored_save_iff.
  - rewrite elem_of_union, elem_of_new_hashes. split.
    + intros [[?|?] ?]; [by left|by right].
    + intros [Hh|[? ?]]; [|by split; [right|]].
      split; [by left|]. by apply (stored_line_safe f).
  - intros x [Hx|Hx]%elem_of_union.
    + destruct (stored_store_safe _ _ Hx) as [(_ & ? & ?) ?]. done.
    + apply elem_of_new_hashes in Hx as (t & Ht & ->).
      destruct (completes_top_entry _ _ _ _ _ Hrun Ht) as [-> _].
      split; [apply no_space_strip, hexdigest_no_space|].
      split; [|apply hexdigest_no_cr].
      by intros H%hexdigest_no_space.
Qed.

Lemma holds_stored_eq f1 f2 :
  stored f1 = stored f2 -> forall h, holds f1 h <-> holds f2 h.
Proof. intros Heq h. by rewrite <- !stored_holds, Heq. Qed.

(** The fetcher creates the file when it has feeds to fetch and finds no
    file. *)
Lemma fetch_rss_entries_creates L W :
  RSS_URLS W <> [] -> snd (fetch_rss_entries L W None) = Some [].
Proof. unfold fetch_rss_entries. by destruct (RSS_URLS W). Qed.

Lemma fetch_rss_entries_feeds L W f :
  fst (fetch_rss_entries L W f) <> [] -> RSS_URLS W <> [].
Proof. unfold fetch_rss_entries. by destruct (RSS_URLS W). Qed.

(** ** C2: the store is written last *)

(** C2. A run that gets through every stage ends normally, whatever the
    webhook answered, and the file then holds what it held before and the
    fingerprints of the top entries, and of no other candidate.  A run that
    does not get through every stage leaves the file as the fetcher left it:
    an existing file is untouched, and the fingerprints held are the same.
    In particular, when the scoring call or the report call fails, the
    process exits with status 1 and the file is as it was loaded (created
    empty if it did not exist). *)
Theorem C2_store_written_last (L : Lib) (W : World) (f : file) :
  (forall tops, completes L W f tops ->
     forall s,
       fst (main L (with_sink s W) f) = Ok tt
       /\ (forall h,
             holds (snd (main L (with_sink s W) f)) h
             <-> holds f h
                 \/ (h <> [] /\ exists t, t ∈ tops /\ h = c_hash (t_entry t)))
       /\ (forall c, c ∈ fst (fetch_rss_entries L W f) ->
             (forall t, t ∈ tops -> c_hash c <> c_hash (t_entry t)) ->
             ~ holds (snd (main L (with_sink s W) f)) (c_hash c)))
  /\ ((forall tops, ~ completes L W f tops) ->
      snd (main L W f) = snd (fetch_rss_entries L W f)
      /\ (forall text, f = Some text -> snd (main L W f) = Some text)
      /\ (forall h, holds (snd (main L W f)) h <-> holds f h))
  /\ (forall candidates f1,
        fetch_rss_entries L W f = (candidates, f1) ->
        candidates <> [] ->
        llm_score W (compact_for_scoring candidates) = None
        \/ (exists tops log,
              score_entries W candidates = Ok (tops, log) /\ tops <> []
              /\ llm_report W (today_utc8 (clock_prompt W)) tops = None) ->
        main L W f = (Exit 1, f1)
        /\ (forall text, f = Some text -> f1 = Some text)
        /\ (f = None -> f1 = Some [])
        /\ (forall h, holds f1 h <-> holds f h)).
Proof.
  pose proof (fetch_rss_entries_store L W f) as [Hst Hsame].
  split; [|split].
  - intros tops Hrun s. rewrite main_sink.
    split; [by rewrite (main_completes _ _ _ _ Hrun)|].
    split; [intros h; by apply holds_after_run|].
    intros c Hc Hdiff Hholds.
    apply (holds_after_run _ _ _ _ _ Hrun) in Hholds
      as [Hold|(_ & t & Ht & Heq)]; [|by apply (Hdiff t)].
    apply stored_holds in Hold.
    apply fetch_rss_entries_elem in Hc as (now & entry & Hc).
    by apply candidate_of_inv in Hc as (_ & _ & Hnew & _).
  - intros Hno.
    assert (snd (main L W f) = snd (fetch_rss_entries L W f)) as Heq.
    { destruct (main_store L W f) as [?|[tops ?]]; [done|]. by destruct (Hno tops). }
    split; [done|]. rewrite Heq. split.
    + intros text ->. by rewrite (Hsame text).
    + by apply holds_stored_eq.
  - intros candidates f1 Hfetch Hne Hfail.
    rewrite Hfetch in Hst, Hsame. simpl in Hst, Hsame.
    split; [|split; [|split]].
    + unfold main. rewrite Hfetch. destruct candidates as [|c0 cs]; [done|].
      destruct Hfail as [Hllm|(tops & log & Hscore & Htops & Hllm)].
      * by rewrite score_entries_failed.
      * rewrite Hscore. destruct tops as [|t ts]; [done|].
        unfold generate_daily_report. by rewrite Hllm.
    + intros text ->. by rewrite (Hsame text).
    + intros ->. pose proof (fetch_rss_entries_creates L W) as Hc.
      rewrite Hfetch in Hc. apply Hc.
      apply (fetch_rss_entries_feeds L W None). by rewrite Hfetch.
    + by apply holds_stored_eq.
Qed.

Lemma C2_store_written_last_witness :
  fst (main lib (with_sink (fun _ _ => Rejected) webhook_down) None) = Ok tt
  /\ holds (snd (main lib (with_sink (fun _ _ => Rejected) webhook_down) None))
           (hash_link lib link_a)
  /\ ~ holds (snd (main lib (with_sink (fun _ _ => Rejected) webhook_down) None))
             (hash_link lib link_d)
  /\ main lib scoring_down None = (Exit 1, Some [])
  /\ main lib report_down (Some (lit "abc")) = (Exit 1, Some (lit "abc")).
Proof.
  destruct (proj1 (C2_store_written_last lib webhook_down None) top_three
              webhook_down_completes (fun _ _ => Rejected)) as (Hok & Hheld & Hnot).
  split; [exact Hok|]. split; [|split; [|split]].
  - apply Hheld. right. split; [vm_compute; discriminate|].
    exists (scored (cand link_a (lit "A")) 9). split; [left|reflexivity].
  - apply (Hnot (cand link_d (lit "D"))).
    + vm_compute. do 3 right. left.
    + intros t Ht. apply list_elem_of_In in Ht.
      destruct Ht as [<-|[<-|[<-|[]]]]; vm_compute; discriminate.
  - apply (proj2 (proj2 (C2_store_written_last lib scoring_down None))
             (fst (fetch_rss_entries lib scoring_down None))).
    + vm_compute. reflexivity.
    + vm_compute. discriminate.
    + left. vm_compute. reflexivity.
  - apply (proj2 (proj2 (C2_store_written_last lib report_down (Some (lit "abc"))))
             (fst (fetch_rss_entries lib report_down (Some (lit "abc"))))).
    + vm_compute. reflexivity.
    + vm_compute. discriminate.
    + right. exists top_three, [Log INFO (MsgScoringDone 3)].
      split; [vm_compute; reflexivity|]. split; [discriminate|].
      vm_compute. reflexivity.
Defined.

(** ** C10: the store only grows *)

(** C10. No run removes a fingerprint from the file, however many runs
    follow one another, and neither does loading or fetching.  A run that
    reaches the update writes one line per fingerprint, each followed by a
    line feed: the fingerprints the file held and those of the top entries,
    each once, in strictly ascending order. *)
Theorem C10_store_grows (L : Lib) (W : World) (f : file) :
  (forall h, holds f h -> holds (snd (main L W f)) h)
  /\ (forall Ws h, holds f h -> holds (run_all L Ws f) h)
  /\ (forall h, holds (snd (load_sent_hashes f)) h <-> holds f h)
  /\ (forall h, holds (snd (fetch_rss_entries L W f)) h <-> holds f h)
  /\ (forall tops, completes L W f tops ->
        exists lines,
          snd (main L W f) = Some (text_of_lines lines)
          /\ (forall h, h ∈ lines
                        <-> holds f h
                            \/ exists t, t ∈ tops /\ h = c_hash (t_entry t))
          /\ StronglySorted (fun u v => Str.ltb u v = true) lines).
Proof.
  split; [|split; [|split; [|split]]].
  - intros h. rewrite <- !stored_holds. apply main_monotone.
  - intros Ws h. rewrite <- !stored_holds. apply run_all_monotone.
  - apply holds_stored_eq, stored_after_load.
  - apply holds_stored_eq, fetch_rss_entries_store.
  - intros tops Hrun. rewrite (main_completes _ _ _ _ Hrun).
    exists (sorted_hashes (stored f ∪ new_hashes tops)).
    split; [done|]. split; [|apply sorted_hashes_ascending].
    intros h.
    by rewrite elem_of_sorted_hashes, elem_of_union, elem_of_new_hashes, stored_holds.
Qed.

Lemma C10_store_grows_witness :
  exists lines,
    snd (main lib webhook_down (Some (lit "old" ++ [carriage_return] ++ lit "older")))
    = Some (text_of_lines lines)
    /\ lit "old" ∈ lines /\ lit "older" ∈ lines
    /\ hash_link lib link_a ∈ lines
    /\ StronglySorted (fun u v => Str.ltb u v = true) lines.
Proof.
  destruct (proj2 (proj2 (proj2 (proj2
              (C10_store_grows lib webhook_down
                 (Some (lit "old" ++ [carriage_return] ++ lit "older"))))))
              top_three) as (lines & Htext & Hlines & Hsorted).
  - exists [Log INFO (MsgScoringDone 3)].
    do 2 eexists. split; [vm_compute; reflexivity|].
    split; [discriminate|]. split; [reflexivity|]. split; reflexivity.
  - exists lines. split; [exact Htext|].
    split; [|split; [|split; [|exact Hsorted]]]; apply Hlines.
    + left. split; [discriminate|].
      exists (lit "old" ++ [carriage_return] ++ lit "older"), (lit "old").
      split; [reflexivity|]. split; [vm_compute; left|reflexivity].
    + left. split; [discriminate|].
      exists (lit "old" ++ [carriage_return] ++ lit "older"), (lit "older").
      split; [reflexivity|]. split; [vm_compute; right; left|reflexivity].
    + right. exists (scored (cand link_a (lit "A")) 9). split; [left|reflexivity].
Defined.

(** ** C6: what the filter drops in the next run *)




(** ** The ranking *)

Lemma Qltb_false a b : Qltb a b = false <-> (b <= a)%Q.
Proof.
  unfold Qltb. rewrite negb_false_iff. apply Qle_bool_iff.
Qed.

Lemma Qltb_true a b : Qltb a b = true <-> (a < b)%Q.
Proof.
  unfold Qltb. rewrite negb_true_iff, <- not_true_iff_false, Qle_bool_iff.
  split; [apply Qnot_le_lt|apply Qlt_not_le].
Qed.

Lemma sort_scores_perm scores : sort_scores scores ≡ₚ scores.
Proof. apply stable_sort_perm. Qed.

Lemma sort_scores_descending scores :
  StronglySorted (fun u v => (score_key v <= score_key u)%Q) (sort_scores scores).
Proof.
  assert (StronglySorted (fun u v => Qltb (score_key u) (score_key v) = false)
            (sort_scores scores)) as H.
  { apply (stable_sort_sorted (fun y x => Qltb (score_key x) (score_key y))).
    - intros u v H. apply Qltb_true in H. apply Qltb_false. by apply Qlt_le_weak.
    - intros u v w H1 H2. apply Qltb_false in H1, H2. apply Qltb_false.
      by eapply Qle_trans. }
  induction H as [|u l Hl IH Hu]; constructor; [done|].
  eapply Forall_impl; [exact Hu|]. intros v Hv. by apply Qltb_false.
Qed.

(** Entries with equal scores stay in the order of the response. *)
Lemma sort_scores_stable scores q :
  List.filter (fun s => Qeq_bool (score_key s) q) (sort_scores scores)
  = List.filter (fun s => Qeq_bool (score_key s) q) scores.
Proof.
  apply stable_sort_filter. intros u v Hu Hv.
  apply Qeq_bool_iff in Hu, Hv. apply Qltb_false.
  rewrite Hu, Hv. apply Qle_refl.
Qed.

Lemma link_map_is_Some entries link :
  is_Some (link_map entries !! link) <-> link ∈ List.map c_link entries.
Proof.
  unfold link_map.
  assert (forall m : gmap str CandidateEntry,
    is_Some (foldl (fun m e => <[c_link e := e]> m) m entries !! link)
    <-> link ∈ List.map c_link entries \/ is_Some (m !! link)) as H.
  { induction entries as [|e entries IH]; intros m; simpl.
    - rewrite elem_of_nil. tauto.
    - rewrite IH, elem_of_cons.
      destruct (decide (c_link e = link)) as [<-|Hne].
      + rewrite lookup_insert_eq. split; [auto|]. intros _. right. by eexists.
      + rewrite lookup_insert_ne by done.
        split; [intros [?|?]; auto|intros [[?|?]|?]; auto; congruence]. }
  rewrite H, lookup_empty. split; [intros [?|[? ?]]; done|auto].
Qed.

(** On complete score entries the loop cannot fail: it keeps the known ones,
    in order, with their score and reason. *)
Lemma fill_entries_known entries l :
  Forall complete l ->
  exists tops,
    fill_entries (link_map entries) l = Ok tops
    /\ List.map (fun t => (Some (c_link (t_entry t)), Some (t_score t),
                           Some (t_score_reason t))) tops
       = List.map (fun s => (s_link s, s_score s, s_reason s))
                  (List.filter (known entries) l).
Proof.
  induction 1 as [|s l ([link Hl] & [score Hs] & [reason Hr]) _ (tops & Hfill & Hmap)].
  { by exists []. }
  simpl. unfold known at 1. rewrite Hl, Hs, Hr. simpl.
  destruct (link_map entries !! link) as [entry|] eqn:Hm.
  - rewrite bool_decide_eq_true_2
      by (apply link_map_is_Some; by rewrite Hm).
    rewrite Hfill. simpl. eexists. split; [done|]. simpl.
    apply link_map_lookup in Hm as [_ ->]. by rewrite Hmap, Hl, Hs, Hr.
  - rewrite bool_decide_eq_false_2.
    + by exists tops.
    + intros Hin%link_map_is_Some. rewrite Hm in Hin. by destruct Hin.
Qed.

Lemma StronglySorted_filter {A} (R : A -> A -> Prop) (p : A -> bool) l :
  StronglySorted R l -> StronglySorted R (List.filter p l).
Proof.
  induction 1 as [|x l Hl IH Hx]; simpl; [constructor|].
  destruct (p x); [|done]. constructor; [done|].
  rewrite Forall_forall in *. intros y Hy%list_elem_of_In.
  apply filter_In in Hy as [Hy _]. apply Hx. by apply list_elem_of_In.
Qed.

Lemma StronglySorted_take {A} (R : A -> A -> Prop) n l :
  StronglySorted R l -> StronglySorted R (take n l).
Proof.
  intros H. revert n. induction H as [|x l Hl IH Hx]; intros [|n]; simpl;
    try constructor; [apply IH|].
  rewrite Forall_forall in *. intros y Hy%subseteq_take. by apply Hx.
Qed.

Lemma StronglySorted_Forall2 {A B} (P : A -> B -> Prop)
    (R1 : A -> A -> Prop) (R2 : B -> B -> Prop) l1 l2 :
  (forall x1 x2 y1 y2, P x1 y1 -> P x2 y2 -> R2 y1 y2 -> R1 x1 x2) ->
  Forall2 P l1 l2 -> StronglySorted R2 l2 -> StronglySorted R1 l1.
Proof.
  intros HR H. induction H as [|x y l1 l2 Hxy Hl IH]; [constructor|].
  intros Hs. apply StronglySorted_inv in Hs as [Hs Hy].
  constructor; [by apply IH|].
  clear IH Hs. induction Hl as [|x' y' l1 l2 Hxy' Hl IH]; [constructor|].
  apply Forall_cons in Hy as [Hy Hy']. constructor; eauto.
Qed.

Lemma filter_all {A} (p : A -> bool) l :
  forallb p l = true -> List.filter p l = l.
Proof.
  induction l as [|x l IH]; [done|]. simpl.
  destruct (p x); [|done]. simpl. intros H. by rewrite IH.
Qed.

(** ** C1: unknown links and the top three *)

(** C1, as stated, fails.  Three of the four returned entries have candidate
    links, but the entry ranked first has not: it takes one of the three
    places and is dropped afterwards, so two entries come back, and the
    candidate scored 7 is not among them.  The only log record is the final
    INFO line. *)
Lemma C1_counterexample :
  List.map c_link three_candidates = [link_a; link_b; link_c]
  /\ llm_score stranger_first (compact_for_scoring three_candidates)
     = Some (Some [item link_x 10; item link_a 9; item link_b 8; item link_c 7])
  /\ score_entries stranger_first three_candidates
     = Ok ([scored (cand link_a (lit "A")) 9; scored (cand link_b (lit "B")) 8],
           [Log INFO (MsgScoringDone 2)]).
Proof. repeat split; vm_compute; reflexivity. Qed.

(** C1, amended.  When the scoring model answers with entries that all carry
    link, score and reason, [score_entries] ranks them, keeps the first
    [TOP_N = 3], and only then drops those whose link is no candidate's, with
    no log record but the final INFO line.  So at most three entries come
    back, candidates of this run, in descending score order, and exactly
    three when the three best-ranked returned entries all have candidate
    links. *)
Theorem C1_cut_then_drop_unknown (W : World) (entries : list CandidateEntry)
    (scores : list ScoreItem) :
  entries <> [] ->
  llm_score W (compact_for_scoring entries) = Some (Some scores) ->
  Forall complete scores ->
  exists tops,
    score_entries W entries = Ok (tops, [Log INFO (MsgScoringDone (length tops))])
    /\ List.map (fun t => (Some (c_link (t_entry t)), Some (t_score t),
                           Some (t_score_reason t))) tops
       = List.map (fun s => (s_link s, s_score s, s_reason s))
                  (List.filter (known entries) (take TOP_N (sort_scores scores)))
    /\ (length tops <= TOP_N)%nat
    /\ StronglySorted (fun u v => (t_score v <= t_score u)%Q) tops
    /\ (forall t, t ∈ tops -> t_entry t ∈ entries)
    /\ ((TOP_N <= length scores)%nat ->
        forallb (known entries) (take TOP_N (sort_scores scores)) = true ->
        length tops = TOP_N).
Proof.
  intros Hne Hllm Hcomplete.
  assert (Forall complete (take TOP_N (sort_scores scores))) as Hc.
  { rewrite Forall_forall in *. intros s Hs%subseteq_take.
    apply Hcomplete. by rewrite <- (sort_scores_perm scores). }
  destruct (fill_entries_known entries _ Hc) as (tops & Hfill & Hmap).
  pose proof (score_entries_answered W entries _ Hne Hllm) as Hscore.
  simpl in Hscore. rewrite Hfill in Hscore. simpl in Hscore.
  exists tops. split; [done|]. split; [done|].
  split; [|split; [|split]].
  - apply fill_entries_length in Hfill. rewrite length_take in Hfill. lia.
  - set (kept := List.filter (known entries) (take TOP_N (sort_scores scores))) in *.
    assert (StronglySorted (fun u v => (score_key v <= score_key u)%Q) kept) as Hk.
    { apply StronglySorted_filter, StronglySorted_take, sort_scores_descending. }
    clearbody kept.
    apply (StronglySorted_Forall2
             (fun t s => score_key s = t_score t) _
             (fun u v => (score_key v <= score_key u)%Q) tops kept); [| |done].
    + intros t1 t2 s1 s2 <- <- H. done.
    + clear -Hmap. revert kept Hmap.
      induction tops as [|t tops IH]; intros [|s kept]; simpl; try done.
      intros [= Hl Hs Hr Hrest]. constructor; [|by apply IH].
      unfold score_key. by rewrite <- Hs.
  - intros t Ht. by eapply score_entries_elem.
  - intros Hlen Hall.
    apply (f_equal length) in Hmap. rewrite !length_map in Hmap.
    rewrite Hmap, filter_all, length_take by done.
    rewrite <- (Permutation_length (sort_scores_perm scores)) in Hlen. lia.
Qed.

Lemma C1_cut_then_drop_unknown_witness :
  exists tops,
    score_entries stranger_first three_candidates
      = Ok (tops, [Log INFO (MsgScoringDone (length tops))])
    /\ List.map (fun t => (Some (c_link (t_entry t)), Some (t_score t),
                           Some (t_score_reason t))) tops
       = List.map (fun s => (s_link s, s_score s, s_reason s))
           (List.filter (known three_candidates)
              (take TOP_N (sort_scores [item link_x 10; item link_a 9; item link_b 8; item link_c 7])))
    /\ (length tops <= TOP_N)%nat
    /\ StronglySorted (fun u v => (t_score v <= t_score u)%Q) tops
    /\ (forall t, t ∈ tops -> t_entry t ∈ three_candidates)
    /\ ((TOP_N <= length [item link_x 10; item link_a 9; item link_b 8; item link_c 7])%nat ->
        forallb (known three_candidates)
          (take TOP_N (sort_scores [item link_x 10; item link_a 9; item link_b 8; item link_c 7])) = true ->
        length tops = TOP_N).
Proof.
  apply (C1_cut_then_drop_unknown stranger_first three_candidates).
  - discriminate.
  - reflexivity.
  - repeat constructor; by eexists.
Defined.

Example score_entries_three_known :
  exists tops log,
    score_entries quiet_run three_candidates = Ok (tops, log)
    /\ length tops = TOP_N.
Proof.
  destruct (C1_cut_then_drop_unknown quiet_run three_candidates four_scores)
    as (tops & Hscore & _ & _ & _ & _ & Hlen).
  - discriminate.
  - reflexivity.
  - repeat constructor; by eexists.
  - exists tops. eexists. split; [exact Hscore|].
    apply Hlen; [vm_compute; lia|reflexivity].
Qed.

(** ** C5: how ties are ranked *)

(** C5, as stated, fails.  The candidates are given as [link_a], [link_b];
    the model returns [link_b] before [link_a] with equal scores; the ranking
    keeps [link_b] before [link_a], the order of the response. *)
Lemma C5_counterexample :
  List.map c_link two_candidates = [link_a; link_b]
  /\ llm_score tie_reversed (compact_for_scoring two_candidates)
     = Some (Some [item link_b 5; item link_a 5])
  /\ score_entries tie_reversed two_candidates
     = Ok ([scored (cand link_b (lit "B")) 5; scored (cand link_a (lit "A")) 5],
           [Log INFO (MsgScoringDone 2)]).
Proof. repeat split; vm_compute; reflexivity. Qed.

(** C5, amended.  [score_entries] ranks the returned entries by score,
    descending, with a stable sort: the ranking is a rearrangement of the
    response in which entries of equal score keep the order they have in the
    response.  The first [TOP_N] of the ranking go on to the loop that fills
    in the candidates. *)
Theorem C5_stable_by_response_order (W : World) (entries : list CandidateEntry)
    (scores : list ScoreItem) :
  entries <> [] ->
  llm_score W (compact_for_scoring entries) = Some (Some scores) ->
  exists ranked,
    score_entries W entries
    = (tops ← fill_entries (link_map entries) (take TOP_N ranked);
       Ok (tops, [Log INFO (MsgScoringDone (length tops))]))
    /\ ranked ≡ₚ scores
    /\ StronglySorted (fun u v => (score_key v <= score_key u)%Q) ranked
    /\ (forall q,
          List.filter (fun s => Qeq_bool (score_key s) q) ranked
          = List.filter (fun s => Qeq_bool (score_key s) q) scores).
Proof.
  intros Hne Hllm. exists (sort_scores scores).
  split; [by rewrite (score_entries_answered W entries _ Hne Hllm)|].
  split; [apply sort_scores_perm|].
  split; [apply sort_scores_descending|apply sort_scores_stable].
Qed.

Lemma C5_stable_by_response_order_witness :
  exists ranked,
    score_entries tie_reversed two_candidates
    = (tops ← fill_entries (link_map two_candidates) (take TOP_N ranked);
       Ok (tops, [Log INFO (MsgScoringDone (length tops))]))
    /\ ranked ≡ₚ [item link_b 5; item link_a 5]
    /\ StronglySorted (fun u v => (score_key v <= score_key u)%Q) ranked
    /\ (forall q,
          List.filter (fun s => Qeq_bool (score_key s) q) ranked
          = List.filter (fun s => Qeq_bool (score_key s) q) [item link_b 5; item link_a 5]).
Proof.
  apply (C5_stable_by_response_order tie_reversed two_candidates).
  - discriminate.
  - reflexivity.
Defined.

(** ** C7: the length of a candidate's summary *)

(** C7, as stated, fails.  A summary of 501 characters becomes its first 500
    characters followed by three dots: 503 characters. *)
Lemma C7_counterexample :
  length long_summary = 501%nat
  /\ candidate_of lib ∅ (now * us_per_second)%Z (entry link_a recent long_summary)
     = Some (cand link_a (take 500 long_summary ++ lit "..."))
  /\ length (take 500 long_summary ++ lit "...") = 503%nat.
Proof. repeat split; vm_compute; reflexivity. Qed.

(** C7, amended.  A candidate's summary is the source summary when that has
    at most 500 characters; otherwise it is the first 500 characters of the
    source followed by ["..."], 503 characters in all.  So it never exceeds
    503 characters. *)
Theorem C7_summary_cut_at_500_plus_dots (L : Lib) (sent : gset str) (now : instant)
    (entry : FeedEntry) (cand : CandidateEntry) :
  candidate_of L sent now entry = Some cand ->
  let source := default (default [] (e_description entry)) (e_summary entry) in
  ((length source <= 500)%nat -> c_summary cand = source)
  /\ ((500 < length source)%nat ->
      c_summary cand = take 500 source ++ lit "..."
      /\ length (c_summary cand) = 503%nat)
  /\ (length (c_summary cand) <= 503)%nat.
Proof.
  intros (_ & _ & _ & _ & ->)%candidate_of_inv source. fold source.
  split; [|split].
  - intros H. unfold truncate_with_ellipsis.
    destruct (Nat.ltb_spec 500 (length source)); [lia|done].
  - intros H. unfold truncate_with_ellipsis.
    destruct (Nat.ltb_spec 500 (length source)); [|lia].
    split; [done|]. rewrite length_app, length_take.
    change (length ellipsis) with 3%nat. lia.
  - apply (truncate_with_ellipsis_length 500).
Qed.

Lemma C7_summary_cut_at_500_plus_dots_witness :
  let cand := cand link_a (take 500 long_summary ++ lit "...") in
  let source := long_summary in
  ((length source <= 500)%nat -> c_summary cand = source)
  /\ ((500 < length source)%nat ->
      c_summary cand = take 500 source ++ lit "..."
      /\ length (c_summary cand) = 503%nat)
  /\ (length (c_summary cand) <= 503)%nat.
Proof.
  apply (C7_summary_cut_at_500_plus_dots lib ∅ (now * us_per_second)%Z
           (entry link_a recent long_summary)).
  vm_compute. reflexivity.
Defined.

(** ** C8: the recency window *)

(** A window is a [timedelta] when its whole days are at most 999999999
    either way, and then it is that many hours. *)
Lemma timedelta_hours_in_range hours :
  (-999999999 <= hours / 24 <= 999999999)%Z ->
  timedelta_hours hours = Some (hours * us_per_hour)%Z.
Proof.
  intros [H1 H2]. unfold timedelta_hours.
  change (- timedelta_max_days)%Z with (-999999999)%Z.
  change timedelta_max_days with 999999999%Z.
  assert ((- 999999999 <=? hours / 24)%Z = true) as -> by (apply Z.leb_le; lia).
  assert ((hours / 24 <=? 999999999)%Z = true) as -> by (apply Z.leb_le; lia).
  done.
Qed.

Lemma timedelta_hours_overflow hours :
  (hours / 24 < -999999999 \/ 999999999 < hours / 24)%Z ->
  timedelta_hours hours = None.
Proof.
  intros H. unfold timedelta_hours.
  change (- timedelta_max_days)%Z with (-999999999)%Z.
  change timedelta_max_days with 999999999%Z.
  destruct (Z.leb_spec (- 999999999) (hours / 24)) as [H1|H1]; [|done].
  assert ((hours / 24 <=? 999999999)%Z = false) as -> by (apply Z.leb_gt; lia).
  done.
Qed.

(** After the [replace] of a missing zone the parsed value is aware, and the
    subtraction gives the time since the instant it stands for. *)
Lemma is_recent_parsed L now published_str hours pub_time :
  date_parse L now published_str = Some pub_time ->
  is_recent L now published_str hours
  = match timedelta_hours hours with
    | Some window => (now - instant_assuming_utc pub_time <=? window)%Z
    | None => false
    end.
Proof.
  intros Hparse. unfold is_recent, instant_assuming_utc. rewrite Hparse.
  destruct (tzinfo pub_time) as [offset|] eqn:Htz.
  - unfold to_instant. rewrite Htz. reflexivity.
  - unfold to_instant, replace_tzinfo_utc. cbn [tzinfo wall].
    by rewrite Z.sub_0_r.
Qed.

(** C8.  For a timestamp that parses and a window that [timedelta] can hold,
    [is_recent] holds exactly when the instant the timestamp stands for, a
    missing zone read as UTC, is not earlier than [now] minus the window.  So
    a timestamp exactly at [now] minus the window is recent and one a second
    earlier is not. *)
Theorem C8_window_lower_edge_inclusive (L : Lib) (now : instant)
    (published_str : str) (hours : Z) (pub_time : datetime) :
  date_parse L now published_str = Some pub_time ->
  (-999999999 <= hours / 24 <= 999999999)%Z ->
  (is_recent L now published_str hours = true
   <-> (now - hours * us_per_hour <= instant_assuming_utc pub_time)%Z)
  /\ (instant_assuming_utc pub_time = (now - hours * us_per_hour)%Z ->
      is_recent L now published_str hours = true)
  /\ (instant_assuming_utc pub_time = (now - hours * us_per_hour - us_per_second)%Z ->
      is_recent L now published_str hours = false)
  /\ (tzinfo pub_time = None ->
      is_recent L now published_str hours = true
      <-> (now - hours * us_per_hour <= wall pub_time)%Z).
Proof.
  intros Hparse Hrange.
  assert (is_recent L now published_str hours = true
          <-> (now - hours * us_per_hour <= instant_assuming_utc pub_time)%Z) as Hiff.
  { rewrite (is_recent_parsed _ _ _ _ _ Hparse), timedelta_hours_in_range by done.
    rewrite Z.leb_le. lia. }
  split; [done|]. split; [|split].
  - intros H. apply Hiff. lia.
  - intros H. apply not_true_iff_false. rewrite Hiff.
    unfold us_per_second in H. lia.
  - intros Htz. rewrite Hiff. unfold instant_assuming_utc. by rewrite Htz.
Qed.

Lemma C8_window_lower_edge_inclusive_witness :
  is_recent lib (now * us_per_second)%Z at_window_edge HOURS_WINDOW = true
  /\ is_recent lib (now * us_per_second)%Z before_window_edge HOURS_WINDOW = false.
Proof.
  split.
  - destruct (C8_window_lower_edge_inclusive lib (now * us_per_second)%Z
                at_window_edge HOURS_WINDOW
                {| wall := 1699827200000000; tzinfo := None |})
      as (_ & Hedge & _).
    + vm_compute. reflexivity.
    + vm_compute. split; discriminate.
    + apply Hedge. vm_compute. reflexivity.
  - destruct (C8_window_lower_edge_inclusive lib (now * us_per_second)%Z
                before_window_edge HOURS_WINDOW
                {| wall := 1699827199000000; tzinfo := Some 0%Z |})
      as (_ & _ & Hbefore & _).
    + vm_compute. reflexivity.
    + vm_compute. split; discriminate.
    + apply Hbefore. vm_compute. reflexivity.
Defined.

(** ** Dictionaries *)

Lemma str_eqb_eq a b : str_eqb a b = true <-> a = b.
Proof. unfold str_eqb. apply bool_decide_eq_true. Qed.

Lemma dict_get_set {V} k k' (v : V) d :
  Dict.get k (Dict.set k' v d) = if str_eqb k k' then Some v else Dict.get k d.
Proof.
  induction d as [|[k0 v0] d IH]; simpl.
  - by destruct (str_eqb k k').
  - destruct (str_eqb k' k0) eqn:H0; simpl.
    + apply str_eqb_eq in H0 as <-. by destruct (str_eqb k k').
    + rewrite IH. destruct (str_eqb k k') eqn:Hk; [|done].
      apply str_eqb_eq in Hk as ->. by rewrite H0.
Qed.

Lemma dict_get_setdefault {V} k k' (v : V) d :
  Dict.get k (Dict.setdefault k' v d)
  = match Dict.get k d with
    | Some x => Some x
    | None => if str_eqb k k' then Some v else None
    end.
Proof.
  unfold Dict.setdefault, Dict.mem.
  destruct (Dict.get k' d) as [x|] eqn:Hx.
  - destruct (Dict.get k d) eqn:Hk; [done|].
    destruct (str_eqb k k') eqn:H; [|done].
    apply str_eqb_eq in H as ->. congruence.
  - rewrite dict_get_set. destruct (str_eqb k k') eqn:H.
    + apply str_eqb_eq in H as ->. by rewrite Hx.
    + by destruct (Dict.get k d).
Qed.

(** ** C4: what the repair fills in *)

Lemma fix_item_dict ikv :
  exists ikv',
    fix_item (JObj ikv) = Ok (JObj ikv')
    /\ forall k, Dict.get k ikv'
                 = match Dict.get k ikv with
                   | Some v => Some v
                   | None => item_default k
                   end.
Proof.
  eexists. split; [reflexivity|]. intros k.
  rewrite !dict_get_setdefault. unfold item_default.
  destruct (Dict.get k ikv); [done|].
  destruct (str_eqb k (lit "title")) eqn:H1; [done|].
  destruct (str_eqb k (lit "source_type")) eqn:H2; [done|].
  destruct (str_eqb k (lit "erp_relevance")) eqn:H3; [done|].
  by destruct (str_eqb k (lit "summary")).
Qed.

Lemma mapM_fix_item_dicts items :
  Forall is_dict items ->
  exists items',
    mapM fix_item items = Ok items'
    /\ Forall2 (fun item item' =>
         exists ikv ikv',
           item = JObj ikv /\ item' = JObj ikv'
           /\ forall k, Dict.get k ikv'
                        = match Dict.get k ikv with
                          | Some v => Some v
                          | None => item_default k
                          end) items items'.
Proof.
  induction 1 as [|item items [ikv ->] _ (items' & Hm & Hall)].
  { exists []. split; [done|constructor]. }
  destruct (fix_item_dict ikv) as (ikv' & Hfix & Hget).
  exists (JObj ikv' :: items'). split.
  - change (mapM fix_item (JObj ikv :: items))
      with (b ← fix_item (JObj ikv); bs ← mapM fix_item items; Ok (b :: bs)).
    by rewrite Hfix, Hm.
  - constructor; [|done]. by exists ikv, ikv'.
Qed.

(** C4, as stated, fails.  An item without any field comes out of the repair
    with the four tested keys only; none of the six other fields of the card
    is filled in, and the card section is rendered from absent values. *)
Lemma C4_counterexample :
  validate_and_fix_report 0%Z bare_report
  = Ok (JObj [(lit "items", JArr [bare_item_fixed]);
              (lit "date", JStr (lit "1970-01-01"));
              (lit "theme", JStr default_theme)])
  /\ Forall (fun k => json_get k bare_item_fixed = Ok None) unchecked_item_keys
  /\ md_link <$> render_item bare_item_fixed = Ok None.
Proof.
  split; [vm_compute; reflexivity|].
  split; [|vm_compute; reflexivity].
  repeat constructor.
Qed.

(** C4, amended.  A response that is an object whose items, if any, are
    objects is never rejected.  The repair sets a missing ["date"] to the
    UTC+8 date of the clock, a missing ["theme"] to the default theme, and
    ["items"] to the repaired items (to the empty list when it was missing or
    no list), and leaves every other key as it was.  In each item it fills
    in ["title"], ["source_type"], ["erp_relevance"] and ["summary"] when
    missing and nothing else: any other field that was missing is still
    missing, and every field that was present keeps its value. *)
Theorem C4_repair_fills_four_item_fields (now : instant) (kv : list (str * json)) :
  Forall is_dict (items_of kv) ->
  exists kv' items',
    validate_and_fix_report now (JObj kv) = Ok (JObj kv')
    /\ Dict.get (lit "date") kv'
       = Some (default (JStr (today_utc8 now)) (Dict.get (lit "date") kv))
    /\ Dict.get (lit "theme") kv'
       = Some (default (JStr default_theme) (Dict.get (lit "theme") kv))
    /\ Dict.get (lit "items") kv' = Some (JArr items')
    /\ (forall k, k <> lit "date" -> k <> lit "theme" -> k <> lit "items" ->
          Dict.get k kv' = Dict.get k kv)
    /\ Forall2 (fun item item' =>
         exists ikv ikv',
           item = JObj ikv /\ item' = JObj ikv'
           /\ forall k, Dict.get k ikv'
                        = match Dict.get k ikv with
                          | Some v => Some v
                          | None => item_default k
                          end) (items_of kv) items'
    /\ Forall (fun k => item_default k = None) unchecked_item_keys.
Proof.
  intros Hitems.
  destruct (mapM_fix_item_dicts _ Hitems) as (items' & Hm & Hall).
  set (kv2 := Dict.setdefault (lit "theme") (JStr default_theme)
                (Dict.setdefault (lit "date") (JStr (today_utc8 now)) kv)).
  assert (forall k, Dict.get k kv2
            = match Dict.get k kv with
              | Some v => Some v
              | None => if str_eqb k (lit "date") then Some (JStr (today_utc8 now))
                        else if str_eqb k (lit "theme") then Some (JStr default_theme)
                        else None
              end) as Hkv2.
  { intros k. unfold kv2. rewrite !dict_get_setdefault.
    destruct (Dict.get k kv); [done|]. by destruct (str_eqb k (lit "date")). }
  assert (items_of kv2 = items_of kv) as Hsame.
  { unfold items_of. rewrite Hkv2.
    by destruct (Dict.get (lit "items") kv). }
  exists (Dict.set (lit "items") (JArr items') kv2), items'.
  split.
  { unfold validate_and_fix_report. fold kv2.
    change (match Dict.get (lit "items") kv2 with
            | Some (JArr items) => items
            | _ => []
            end) with (items_of kv2).
    rewrite Hsame, Hm. done. }
  split; [rewrite dict_get_set, Hkv2; by destruct (Dict.get (lit "date") kv)|].
  split; [rewrite dict_get_set, Hkv2; by destruct (Dict.get (lit "theme") kv)|].
  split; [by rewrite dict_get_set|].
  split; [|split; [done|repeat constructor]].
  intros k Hd Ht Hi. rewrite dict_get_set, Hkv2.
  destruct (str_eqb k (lit "items")) eqn:H1; [by apply str_eqb_eq in H1|].
  destruct (str_eqb k (lit "date")) eqn:H2; [by apply str_eqb_eq in H2|].
  destruct (str_eqb k (lit "theme")) eqn:H3; [by apply str_eqb_eq in H3|].
  by destruct (Dict.get k kv).
Qed.

Lemma C4_repair_fills_four_item_fields_witness :
  exists kv' items',
    validate_and_fix_report 0%Z bare_report = Ok (JObj kv')
    /\ Dict.get (lit "date") kv' = Some (JStr (today_utc8 0%Z))
    /\ Dict.get (lit "theme") kv' = Some (JStr default_theme)
    /\ Dict.get (lit "items") kv' = Some (JArr items')
    /\ (forall k, k <> lit "date" -> k <> lit "theme" -> k <> lit "items" ->
          Dict.get k kv' = Dict.get k [(lit "items", JArr [JObj []])])
    /\ Forall2 (fun item item' =>
         exists ikv ikv',
           item = JObj ikv /\ item' = JObj ikv'
           /\ forall k, Dict.get k ikv'
                        = match Dict.get k ikv with
                          | Some v => Some v
                          | None => item_default k
                          end) [JObj []] items'
    /\ Forall (fun k => item_default k = None) unchecked_item_keys.
Proof.
  apply (C4_repair_fills_four_item_fields 0%Z [(lit "items", JArr [JObj []])]).
  repeat constructor. by exists [].
Defined.

(** ** Delivery *)



(** ** C3: attempts and waits *)




(** ** C9: the signature *)




(** * Further properties of the pipeline *)

(** ** The store file *)

(** X1. Saving a set of fingerprints and loading the file again gives the
    set back, and loading does not change the file, when every fingerprint is
    one the file gives back as written: not empty, no white space at its
    ends, no line feed or carriage return inside; its characters have to be
    ones that UTF-8 encodes, for the write to succeed. *)
Theorem X1_save_then_load (S : gset str) :
  (forall h, h ∈ S -> store_safe h /\ Forall (fun c => is_scalar c = true) h) ->
  load_sent_hashes (save_sent_hashes S) = (S, save_sent_hashes S).
Proof.
  intros HS.
  assert (stored (save_sent_hashes S) = S) as H.
  { apply stored_save. intros h Hh. by destruct (HS h Hh). }
  unfold stored in H. rewrite save_sent_hashes_text in *.
  unfold load_sent_hashes in *. cbn [fst] in H. by rewrite H.
Qed.

Lemma X1_save_then_load_witness :
  load_sent_hashes (save_sent_hashes {[lit "ab"; lit "c d"]})
  = ({[lit "ab"; lit "c d"]}, save_sent_hashes {[lit "ab"; lit "c d"]}).
Proof.
  apply (X1_save_then_load {[lit "ab"; lit "c d"]}).
  assert (forall (c : char) (s : str), bool_decide (c ∈ s) = false -> c ∉ s) as Hno.
  { intros c s Hs. by apply bool_decide_eq_false in Hs. }
  intros h [->%elem_of_singleton| ->%elem_of_singleton]%elem_of_union.
  - split; [split; [split; [discriminate|split; [reflexivity|]]|]|].
    + apply Hno. vm_compute. reflexivity.
    + apply Hno. vm_compute. reflexivity.
    + repeat (constructor; [reflexivity|]). constructor.
  - split; [split; [split; [discriminate|split; [reflexivity|]]|]|].
    + apply Hno. vm_compute. reflexivity.
    + apply Hno. vm_compute. reflexivity.
    + repeat (constructor; [reflexivity|]). constructor.
Defined.

(** X2. Whatever the file holds, saving what was loaded from it keeps the
    fingerprints, and the text so written is a fixed point: loading and
    saving it again writes the same text. *)
Theorem X2_resave_is_stable (f : file) :
  stored (save_sent_hashes (stored f)) = stored f
  /\ save_sent_hashes (stored (save_sent_hashes (stored f)))
     = save_sent_hashes (stored f).
Proof.
  assert (stored (save_sent_hashes (stored f)) = stored f) as H.
  { apply stored_save. intros h. apply stored_store_safe. }
  split; [done|]. by rewrite H.
Qed.

(** ** The fetcher *)

(** X3. The fetcher returns at most [MAX_CANDIDATES] candidates: the first
    ones of the feeds' candidates put one after the other in the order the
    fetches complete, all of them when they are no more than the cap.
    Without any configured feed it returns nothing and leaves the store file
    as it is, not even creating it. *)
Theorem X3_candidates_capped (L : Lib) (W : World) (f : file) :
  let all := flat_map (fun url => fetch_single_feed L W url (stored f))
                      (as_completed W (RSS_URLS W)) in
  (length (fst (fetch_rss_entries L W f)) <= MAX_CANDIDATES)%nat
  /\ fst (fetch_rss_entries L W f) `prefix_of` all
  /\ (RSS_URLS W <> [] -> (length all <= MAX_CANDIDATES)%nat ->
      fst (fetch_rss_entries L W f) = all)
  /\ (RSS_URLS W <> [] -> (MAX_CANDIDATES <= length all)%nat ->
      length (fst (fetch_rss_entries L W f)) = MAX_CANDIDATES)
  /\ (RSS_URLS W = [] -> fetch_rss_entries L W f = ([], f)).
Proof.
  intros all. unfold fetch_rss_entries.
  destruct (RSS_URLS W) as [|u us] eqn:Hurls.
  { simpl. split; [lia|]. split; [apply prefix_nil|]. by repeat split. }
  destruct (load_sent_hashes f) as [sent f1] eqn:Hload.
  assert (sent = stored f) as -> by (unfold stored; by rewrite Hload).
  simpl. fold all.
  split; [rewrite length_take; lia|]. split; [apply prefix_take|].
  split; [intros _ H; by apply take_ge|].
  split; [intros _ H; rewrite length_take; lia|done].
Qed.

Lemma X3_candidates_capped_witness :
  fetch_rss_entries lib no_feeds None = ([], None)
  /\ fst (fetch_rss_entries lib quiet_run None)
     = flat_map (fun url => fetch_single_feed lib quiet_run url (stored None))
                (as_completed quiet_run (RSS_URLS quiet_run)).
Proof.
  split.
  - by apply X3_candidates_capped.
  - apply (X3_candidates_capped lib quiet_run None); [discriminate|].
    vm_compute. lia.
Defined.

Lemma scan_entries_links L sent clock i entries :
  List.map c_link (scan_entries L sent clock i entries)
    `sublist_of` omap e_link entries.
Proof.
  revert i. induction entries as [|e entries IH]; intros i; simpl; [done|].
  destruct (candidate_of L sent (clock i) e) as [cand|] eqn:Hc.
  - unfold candidate_of in Hc.
    destruct (e_link e) as [link|]; simpl in *; [|done].
    destruct (nonempty link); [|done]. simpl in Hc.
    case_bool_decide; [done|].
    destruct (is_recent L (clock i) _ HOURS_WINDOW); [|done]. simpl in Hc.
    injection Hc as <-. simpl. apply sublist_skip, IH.
  - destruct (e_link e); simpl; [apply sublist_cons|]; apply IH.
Qed.

(** X4. The candidates of one feed keep the order of the feed: their links
    are links of the feed's entries, in the same order. *)
Theorem X4_feed_order_kept (L : Lib) (W : World) (url : str) (sent : gset str)
    (entries : list FeedEntry) :
  feed_entries W url = Some entries ->
  List.map c_link (fetch_single_feed L W url sent) `sublist_of` omap e_link entries.
Proof.
  intros H. unfold fetch_single_feed. rewrite H. apply scan_entries_links.
Qed.

Lemma X4_feed_order_kept_witness :
  List.map c_link (fetch_single_feed lib quiet_run feed_url ∅)
    `sublist_of` omap e_link four_entries.
Proof. apply (X4_feed_order_kept lib quiet_run feed_url ∅). reflexivity. Defined.

Lemma hexdigest_length digest : length (hexdigest digest) = (2 * length digest)%nat.
Proof.
  unfold hexdigest. induction digest as [|b digest IH]; [done|].
  simpl. rewrite IH. lia.
Qed.

Lemma scan_entries_index L sent clock i entries cand :
  cand ∈ scan_entries L sent clock i entries ->
  exists j entry,
    entries !! j = Some entry
    /\ candidate_of L sent (clock (i + j)%nat) entry = Some cand.
Proof.
  revert i. induction entries as [|e entries IH]; intros i; simpl.
  - by intros ?%elem_of_nil.
  - assert (cand ∈ scan_entries L sent clock (S i) entries ->
            exists j entry,
              (e :: entries) !! j = Some entry
              /\ candidate_of L sent (clock (i + j)%nat) entry = Some cand) as Hrest.
    { intros (j & entry & Hj & Hc)%IH. exists (S j), entry.
      split; [done|]. by rewrite Nat.add_succ_r. }
    destruct (candidate_of L sent (clock i) e) eqn:He; [|done].
    intros [->|H]%elem_of_cons; [|by apply Hrest].
    exists 0%nat, e. split; [done|]. by rewrite Nat.add_0_r.
Qed.

(** X5. Every candidate the fetcher returns is what the loop body made of
    one entry of one of the fetched feeds, at the clock reading of that
    entry's check and against the fingerprints the file held: its link is
    not empty, its fingerprint is that of its link and was not in the file,
    [is_recent] accepted its timestamp at that clock reading, and its summary
    has at most 503 characters. *)
Theorem X5_candidates_well_formed (L : Lib) (W : World) (f : file)
    (cand : CandidateEntry) :
  cand ∈ fst (fetch_rss_entries L W f) ->
  exists url entries i entry,
    url ∈ as_completed W (RSS_URLS W)
    /\ feed_entries W url = Some entries
    /\ entries !! i = Some entry
    /\ candidate_of L (stored f) (clock_fetch W url i) entry = Some cand
    /\ c_link cand <> []
    /\ c_hash cand = hash_link L (c_link cand)
    /\ ~ holds f (c_hash cand)
    /\ is_recent L (clock_fetch W url i) (c_published cand) HOURS_WINDOW = true
    /\ (length (c_summary cand) <= 503)%nat.
Proof.
  unfold fetch_rss_entries. destruct (RSS_URLS W) as [|u us] eqn:Hurls.
  { by intros ?%elem_of_nil. }
  destruct (load_sent_hashes f) as [sent f1] eqn:Hload.
  assert (sent = stored f) as -> by (unfold stored; by rewrite Hload).
  simpl. intros Hin%subseteq_take.
  rewrite list_elem_of_In, in_flat_map in Hin.
  destruct Hin as (url & Hurl & Hin). unfold fetch_single_feed in Hin.
  destruct (feed_entries W url) as [entries|] eqn:Hfeed; [|done].
  rewrite <- list_elem_of_In in Hin. rewrite <- list_elem_of_In in Hurl.
  apply scan_entries_index in Hin as (i & entry & Hi & Hc).
  exists url, entries, i, entry.
  pose proof (candidate_of_inv _ _ _ _ _ Hc) as (Hl & Hh & Hs & Hr & Hsum).
  rewrite stored_holds in Hs.
  repeat split; try done.
  rewrite Hsum. apply (truncate_with_ellipsis_length 500).
Qed.

Lemma X5_candidates_well_formed_witness :
  exists url entries i entry,
    url ∈ as_completed quiet_run (RSS_URLS quiet_run)
    /\ feed_entries quiet_run url = Some entries
    /\ entries !! i = Some entry
    /\ candidate_of lib (stored None) (clock_fetch quiet_run url i) entry
       = Some (cand link_a (lit "A"))
    /\ c_link (cand link_a (lit "A")) <> []
    /\ c_hash (cand link_a (lit "A")) = hash_link lib (c_link (cand link_a (lit "A")))
    /\ ~ holds None (c_hash (cand link_a (lit "A")))
    /\ is_recent lib (clock_fetch quiet_run url i)
         (c_published (cand link_a (lit "A"))) HOURS_WINDOW = true
    /\ (length (c_summary (cand link_a (lit "A"))) <= 503)%nat.
Proof.
  apply (X5_candidates_well_formed lib quiet_run None).
  vm_compute. left.
Defined.

(** ** The scorer *)

(** X7. The projection sent to the scoring model has one element per
    candidate, in order, with the candidate's link and timestamp; its title
    is the first 120 characters of the candidate's title and its snippet has
    at most 163 characters (the stripped summary, cut to 160 characters and
    three dots when longer). *)
Theorem X7_compact_bounds (entries : list CandidateEntry) :
  Forall2 (fun e k =>
      k_link k = c_link e
      /\ k_published k = c_published e
      /\ k_title k = take 120 (c_title e)
      /\ (length (k_title k) <= 120)%nat
      /\ (length (k_snippet k) <= 163)%nat
      /\ ((length (strip (c_summary e)) <= 160)%nat ->
          k_snippet k = strip (c_summary e)))
    entries (compact_for_scoring entries).
Proof.
  induction entries as [|e entries IH]; simpl; constructor; [|exact IH].
  simpl. repeat split.
  - rewrite length_take. lia.
  - apply (truncate_with_ellipsis_length 160).
  - intros H. unfold truncate_with_ellipsis.
    destruct (Nat.ltb_spec 160 (length (strip (c_summary e)))); [lia|done].
Qed.

(** A returned entry the loop cannot handle: it has no link, or its link is
    a candidate's and it has no score or no reason. *)
Lemma fill_entries_outcome m top_scores :
  (exists tops, fill_entries m top_scores = Ok tops
                /\ Forall (fun s => exists link, s_link s = Some link
                     /\ (is_Some (m !! link) ->
                         is_Some (s_score s) /\ is_Some (s_reason s))) top_scores)
  \/ (fill_entries m top_scores = Raise KeyError
      /\ Exists (fun s => s_link s = None
                   \/ exists link, s_link s = Some link /\ is_Some (m !! link)
                        /\ (s_score s = None \/ s_reason s = None)) top_scores).
Proof.
  induction top_scores as [|s rest IH]; simpl.
  { left. by exists []. }
  destruct (s_link s) as [link|] eqn:Hl; simpl; [|right; split; [done|left; by left]].
  destruct (m !! link) as [entry|] eqn:Hm.
  - destruct (s_score s) as [score|] eqn:Hs; simpl.
    2:{ right. split; [done|]. left. right. exists link. rewrite Hm. eauto. }
    destruct (s_reason s) as [reason|] eqn:Hr; simpl.
    2:{ right. split; [done|]. left. right. exists link. rewrite Hm. eauto. }
    destruct IH as [(tops & -> & Hall)|[-> Hex]]; simpl.
    + left. eexists. split; [done|]. constructor; [|done].
      exists link. split; [done|]. intros _. rewrite Hs, Hr. eauto.
    + right. split; [done|]. by right.
  - destruct IH as [(tops & -> & Hall)|[-> Hex]].
    + left. exists tops. split; [done|]. constructor; [|done].
      exists link. split; [done|]. rewrite Hm. by intros [? ?].
    + right. split; [done|]. by right.
Qed.

(** X8. On a scoring answer of the shape the prompt asks for (an object
    whose ["scores"], if any, is an array of objects, with strings for
    ["link"] and ["reason"] and a number for ["score"] where they are
    present), [score_entries] ends in one of two ways.  It raises [KeyError]
    exactly when one of the three best-ranked returned entries has no link,
    or has a candidate's link and no score or no reason.  Otherwise it
    returns.  So an entry ranked fourth or lower is never looked at, and an
    entry with an unknown link needs neither score nor reason. *)
Theorem X8_scoring_key_errors (W : World) (entries : list CandidateEntry)
    (result : option (list ScoreItem)) :
  entries <> [] ->
  llm_score W (compact_for_scoring entries) = Some result ->
  let top_scores := take TOP_N (sort_scores (default [] result)) in
  let unusable s :=
    s_link s = None
    \/ exists link, s_link s = Some link /\ link ∈ List.map c_link entries
         /\ (s_score s = None \/ s_reason s = None) in
  (score_entries W entries = Raise KeyError <-> Exists unusable top_scores)
  /\ ((exists tops log, score_entries W entries = Ok (tops, log))
      <-> Forall (fun s => ~ unusable s) top_scores).
Proof.
  intros Hne Hllm top_scores unusable.
  rewrite (score_entries_answered W entries result Hne Hllm). fold top_scores.
  assert (forall s, unusable s <->
            (s_link s = None
             \/ exists link, s_link s = Some link
                  /\ is_Some (link_map entries !! link)
                  /\ (s_score s = None \/ s_reason s = None))) as Hun.
  { intros s. unfold unusable. split; (intros [?|(link & ? & Hk & ?)]; [by left|]);
      right; exists link; (split; [done|]); (split; [|done]);
      by apply link_map_is_Some. }
  destruct (fill_entries_outcome (link_map entries) top_scores)
    as [(tops & Hfill & Hall)|[Hfill Hex]]; rewrite Hfill; simpl.
  - assert (Forall (fun s => ~ unusable s) top_scores) as Hgood.
    { eapply Forall_impl; [exact Hall|]. simpl.
      intros s (link & Hl & Hok). rewrite Hun.
      intros [Hnone|(link' & Hl' & Hk & Hmiss)]; [congruence|].
      assert (link' = link) as -> by congruence.
      destruct (Hok Hk) as [[? Hs] [? Hr]]. destruct Hmiss; congruence. }
    split; split; try done.
    + intros Hex%Exists_exists. destruct Hex as (s & Hin & Hbad).
      rewrite Forall_forall in Hgood. by destruct (Hgood s Hin).
    + intros _. eauto.
  - assert (Exists unusable top_scores) as Hbad.
    { eapply Exists_impl; [exact Hex|]. intros s Hs. by apply Hun. }
    split; split; try done.
    + by intros (tops & log & ?).
    + intros Hgood. apply Exists_exists in Hbad as (s & Hin & Hs).
      rewrite Forall_forall in Hgood. by destruct (Hgood s Hin).
Qed.

Lemma X8_scoring_key_errors_witness :
  (score_entries stranger_first three_candidates = Raise KeyError
   <-> Exists (fun s =>
         s_link s = None
         \/ exists link, s_link s = Some link
              /\ link ∈ List.map c_link three_candidates
              /\ (s_score s = None \/ s_reason s = None))
         (take TOP_N (sort_scores
            (default [] (Some [item link_x 10; item link_a 9; item link_b 8;
                               item link_c 7])))))
  /\ ((exists tops log, score_entries stranger_first three_candidates = Ok (tops, log))
      <-> Forall (fun s => ~ (s_link s = None
         \/ exists link, s_link s = Some link
              /\ link ∈ List.map c_link three_candidates
              /\ (s_score s = None \/ s_reason s = None)))
         (take TOP_N (sort_scores
            (default [] (Some [item link_x 10; item link_a 9; item link_b 8;
                               item link_c 7]))))).
Proof.
  apply (X8_scoring_key_errors stranger_first three_candidates
           (Some [item link_x 10; item link_a 9; item link_b 8; item link_c 7])).
  - discriminate.
  - reflexivity.
Defined.

Lemma link_map_snoc entries e :
  link_map (entries ++ [e]) = <[c_link e := e]> (link_map entries).
Proof. unfold link_map. by rewrite foldl_app. Qed.

(** X9. When several candidates have the same link, the one given last is
    the one the scorer's lookup finds. *)
Theorem X9_link_map_last_wins (entries : list CandidateEntry) (link : str) :
  link_map entries !! link
  = last (List.filter (fun e => bool_decide (c_link e = link)) entries).
Proof.
  induction entries as [|e entries IH] using rev_ind; [done|].
  rewrite link_map_snoc, List.filter_app. simpl.
  case_bool_decide as He.
  - subst link. rewrite lookup_insert_eq. by rewrite last_snoc.
  - rewrite lookup_insert_ne by done. by rewrite app_nil_r.
Qed.

(** X18. When every returned entry has a link and none of the links is a
    candidate's, [score_entries] returns no entry, without an error, and the
    run ends normally there: the store is as the fetcher left it. *)
Theorem X18_no_known_link_ends_run (L : Lib) (W : World) (f : file)
    (scores : list ScoreItem) :
  let candidates := fst (fetch_rss_entries L W f) in
  candidates <> [] ->
  llm_score W (compact_for_scoring candidates) = Some (Some scores) ->
  Forall (fun s => exists link,
            s_link s = Some link /\ link ∉ List.map c_link candidates) scores ->
  score_entries W candidates = Ok ([], [Log INFO (MsgScoringDone 0)])
  /\ main L W f = (Ok tt, snd (fetch_rss_entries L W f)).
Proof.
  intros candidates Hne Hllm Hall.
  assert (score_entries W candidates = Ok ([], [Log INFO (MsgScoringDone 0)])) as Hs.
  { rewrite (score_entries_answered W candidates _ Hne Hllm). simpl.
    assert (forall l, Forall (fun s => exists link,
              s_link s = Some link /\ link ∉ List.map c_link candidates) l ->
            fill_entries (link_map candidates) l = Ok []) as Hfill.
    { induction 1 as [|s l (link & Hl & Hk) _ IH]; [done|]. simpl.
      rewrite Hl. simpl.
      destruct (link_map candidates !! link) eqn:Hm; [|done].
      destruct Hk. apply link_map_is_Some. by rewrite Hm. }
    rewrite Hfill; [done|].
    rewrite Forall_forall in *. intros s Hin%subseteq_take. apply Hall.
    by rewrite <- (sort_scores_perm scores). }
  split; [done|]. unfold main. fold candidates in Hs.
  destruct (fetch_rss_entries L W f) as [cands f1]. simpl in *.
  subst candidates. destruct cands; [done|]. by rewrite Hs.
Qed.

Lemma X18_no_known_link_ends_run_witness :
  score_entries
    (Ref.world now four_entries (Some (Some [item link_x 3])) None [] []
               (fun _ => Accepted))
    (fst (fetch_rss_entries lib quiet_run None))
  = Ok ([], [Log INFO (MsgScoringDone 0)])
  /\ main lib
       (Ref.world now four_entries (Some (Some [item link_x 3])) None [] []
                  (fun _ => Accepted)) None
     = (Ok tt, Some []).
Proof.
  apply (X18_no_known_link_ends_run lib
           (Ref.world now four_entries (Some (Some [item link_x 3])) None [] []
                      (fun _ => Accepted)) None [item link_x 3]).
  - vm_compute. discriminate.
  - reflexivity.
  - constructor; [|constructor]. exists link_x. split; [reflexivity|].
    vm_compute. intros H.
    repeat (apply elem_of_cons in H as [H|H]; [discriminate|]).
    by apply elem_of_nil in H.
Defined.

(** ** The report *)

Lemma dict_mem_get {V} k (d : list (str * V)) :
  Dict.mem k d = true <-> is_Some (Dict.get k d).
Proof.
  unfold Dict.mem. destruct (Dict.get k d) as [x|].
  - split; [by eexists|done].
  - split; [done|by intros [? ?]].
Qed.

Lemma dict_setdefault_present {V} k (v : V) d :
  is_Some (Dict.get k d) -> Dict.setdefault k v d = d.
Proof. intros H%dict_mem_get. unfold Dict.setdefault. by rewrite H. Qed.

Lemma dict_set_same {V} k (v : V) d :
  Dict.get k d = Some v -> Dict.set k v d = d.
Proof.
  induction d as [|[k0 v0] d IH]; simpl; [done|].
  destruct (str_eqb k k0) eqn:Hk.
  - apply str_eqb_eq in Hk as ->. by intros [= ->].
  - intros H. by rewrite IH.
Qed.

Lemma dict_setdefault_is_Some {V} k (v : V) d :
  is_Some (Dict.get k (Dict.setdefault k v d)).
Proof.
  rewrite dict_get_setdefault. destruct (Dict.get k d); [by eexists|].
  unfold str_eqb. rewrite bool_decide_eq_true_2 by done. by eexists.
Qed.

Lemma dict_setdefault_keeps {V} k k' (v : V) d :
  is_Some (Dict.get k d) -> is_Some (Dict.get k (Dict.setdefault k' v d)).
Proof. intros [x Hx]. rewrite dict_get_setdefault, Hx. by eexists. Qed.

Lemma fix_item_keeps_fixed item item' :
  fix_item item = Ok item' -> fix_item item' = Ok item'.
Proof.
  destruct item as [| | | s | l | ikv]; try done.
  - unfold fix_item.
    destruct (forallb (fun k => contains k s) checked_item_keys) eqn:H; [|done].
    intros [= <-]. by rewrite H.
  - unfold fix_item.
    destruct (forallb (fun k => existsb (json_is_str k) l) checked_item_keys)
      eqn:H; [|done].
    intros [= <-]. by rewrite H.
  - intros [= <-]. simpl.
    rewrite (dict_setdefault_present (lit "title"))
      by (do 3 apply dict_setdefault_keeps; apply dict_setdefault_is_Some).
    rewrite (dict_setdefault_present (lit "source_type"))
      by (do 2 apply dict_setdefault_keeps; apply dict_setdefault_is_Some).
    rewrite (dict_setdefault_present (lit "erp_relevance"))
      by (apply dict_setdefault_keeps; apply dict_setdefault_is_Some).
    by rewrite (dict_setdefault_present (lit "summary"))
      by apply dict_setdefault_is_Some.
Qed.

Lemma mapM_fix_item_keeps_fixed items items' :
  mapM fix_item items = Ok items' -> mapM fix_item items' = Ok items'.
Proof.
  revert items'. induction items as [|item items IH]; intros items'.
  { by intros [= <-]. }
  change (mapM fix_item (item :: items))
    with (b ← fix_item item; bs ← mapM fix_item items; Ok (b :: bs)).
  destruct (fix_item item) as [item'| |] eqn:Hi; [|done..]. simpl.
  destruct (mapM fix_item items) as [rest| |] eqn:Hm; [|done..]. simpl.
  intros [= <-].
  change (mapM fix_item (item' :: rest))
    with (b ← fix_item item'; bs ← mapM fix_item rest; Ok (b :: bs)).
  by rewrite (fix_item_keeps_fixed _ _ Hi), (IH rest eq_refl).
Qed.

(** X10. A report that came out of the repair is left as it is by a second
    repair, whatever the clock shows by then. *)
Theorem X10_repair_is_idempotent (now now' : instant) (report fixed : json) :
  validate_and_fix_report now report = Ok fixed ->
  validate_and_fix_report now' fixed = Ok fixed.
Proof.
  destruct report as [| | | | |kv]; try done.
  unfold validate_and_fix_report at 1.
  set (kv2 := Dict.setdefault (lit "theme") (JStr default_theme)
                (Dict.setdefault (lit "date") (JStr (today_utc8 now)) kv)).
  set (items := match Dict.get (lit "items") kv2 with
                | Some (JArr items) => items
                | _ => []
                end).
  destruct (mapM fix_item items) as [items'| |] eqn:Hm; [|done..]. simpl.
  intros [= <-].
  set (kv3 := Dict.set (lit "items") (JArr items') kv2).
  assert (is_Some (Dict.get (lit "date") kv3)) as Hd.
  { unfold kv3, kv2. rewrite dict_get_set, !dict_get_setdefault. simpl.
    destruct (Dict.get (lit "date") kv); by eexists. }
  assert (is_Some (Dict.get (lit "theme") kv3)) as Ht.
  { unfold kv3, kv2. rewrite dict_get_set, !dict_get_setdefault. simpl.
    destruct (Dict.get (lit "theme") kv); by eexists. }
  assert (Dict.get (lit "items") kv3 = Some (JArr items')) as Hi.
  { unfold kv3. by rewrite dict_get_set. }
  unfold validate_and_fix_report.
  rewrite (dict_setdefault_present (lit "date")) by done.
  rewrite (dict_setdefault_present (lit "theme")) by done.
  rewrite Hi, (mapM_fix_item_keeps_fixed _ _ Hm). simpl.
  by rewrite dict_set_same.
Qed.

Lemma X10_repair_is_idempotent_witness :
  validate_and_fix_report 1700000000000000%Z
    (JObj [(lit "items", JArr [bare_item_fixed]);
           (lit "date", JStr (lit "1970-01-01"));
           (lit "theme", JStr default_theme)])
  = Ok (JObj [(lit "items", JArr [bare_item_fixed]);
              (lit "date", JStr (lit "1970-01-01"));
              (lit "theme", JStr default_theme)]).
Proof.
  apply (X10_repair_is_idempotent 0%Z 1700000000000000%Z bare_report).
  vm_compute. reflexivity.
Defined.

(** What a successful repair returns. *)
Lemma validate_and_fix_report_shape now kv fixed :
  validate_and_fix_report now (JObj kv) = Ok fixed ->
  exists kv' items',
    fixed = JObj kv'
    /\ mapM fix_item (items_of kv) = Ok items'
    /\ Dict.get (lit "items") kv' = Some (JArr items')
    /\ is_Some (Dict.get (lit "date") kv')
    /\ is_Some (Dict.get (lit "theme") kv').
Proof.
  unfold validate_and_fix_report.
  set (kv2 := Dict.setdefault (lit "theme") (JStr default_theme)
                (Dict.setdefault (lit "date") (JStr (today_utc8 now)) kv)).
  assert (Dict.get (lit "items") kv2 = Dict.get (lit "items") kv) as Hsame.
  { unfold kv2. rewrite !dict_get_setdefault.
    by destruct (Dict.get (lit "items") kv). }
  rewrite Hsame. fold (items_of kv).
  destruct (mapM fix_item (items_of kv)) as [items'| |]; [|done..]. simpl.
  intros [= <-]. eexists _, items'. split; [done|]. split; [done|].
  split; [by rewrite dict_get_set|].
  split; rewrite dict_get_set; simpl; unfold kv2.
  - apply dict_setdefault_keeps, dict_setdefault_is_Some.
  - apply dict_setdefault_is_Some.
Qed.


Lemma fix_item_dict_inv item item' :
  fix_item item = Ok item' -> is_dict item' -> is_dict item.
Proof.
  destruct item as [| | | s | l | ikv]; try done; unfold fix_item.
  - destruct (forallb _ _); [|done]. by intros [= <-] [? ?].
  - destruct (forallb _ _); [|done]. by intros [= <-] [? ?].
  - intros _ _. by eexists.
Qed.

Lemma mapM_fix_item_Forall2 items items' :
  mapM fix_item items = Ok items' ->
  Forall2 (fun item item' => fix_item item = Ok item') items items'.
Proof.
  revert items'. induction items as [|item items IH]; intros items'.
  { intros [= <-]. constructor. }
  change (mapM fix_item (item :: items))
    with (b ← fix_item item; bs ← mapM fix_item items; Ok (b :: bs)).
  destruct (fix_item item) as [item'| |] eqn:Hi; [|done..]. simpl.
  destruct (mapM fix_item items) as [rest| |] eqn:Hm; [|done..]. simpl.
  intros [= <-]. constructor; [done|]. by apply IH.
Qed.

(** Rendering the item sections fails exactly on an item that is no
    [dict]. *)
Lemma mapM_render_item_outcome items :
  (Forall is_dict items
   /\ exists sections,
        mapM render_item items = Ok sections
        /\ Forall2 (fun item section => render_item item = Ok section)
                   items sections)
  \/ (Exists (fun item => ~ is_dict item) items
      /\ mapM render_item items = Raise AttributeError).
Proof.
  induction items as [|item items IH].
  { left. split; [constructor|]. exists []. split; [done|constructor]. }
  change (mapM render_item (item :: items))
    with (b ← render_item item; bs ← mapM render_item items; Ok (b :: bs)).
  destruct item as [| | | s | l | ikv];
    try (right; split; [left; by intros [? ?]|done]).
  simpl.
  destruct IH as [[Hall (sections & -> & H2)]|[Hex ->]]; simpl.
  - left. split; [constructor; [by eexists|done]|].
    eexists. split; [done|]. by constructor.
  - right. split; [by right|done].
Qed.

(** X11. A report whose items are all objects, once repaired, renders: the
    card has a date, a theme and one section per item, and in every section
    the title, the source type, the ERP relevance and the summary are
    present. *)
Theorem X11_repaired_report_renders (now : instant) (kv : list (str * json))
    (fixed : json) :
  Forall is_dict (items_of kv) ->
  validate_and_fix_report now (JObj kv) = Ok fixed ->
  exists card,
    render_card fixed = Ok card
    /\ is_Some (card_date card)
    /\ is_Some (card_theme card)
    /\ length (card_sections card) = length (items_of kv)
    /\ Forall (fun section =>
         is_Some (md_title section) /\ is_Some (md_source_type section)
         /\ is_Some (md_erp_relevance section) /\ is_Some (md_summary section))
         (card_sections card).
Proof.
  intros Hdicts Hv.
  destruct (validate_and_fix_report_shape _ _ _ Hv)
    as (kv' & items' & -> & Hm & Hi & Hd & Ht).
  apply mapM_fix_item_Forall2 in Hm.
  assert (Forall (fun item' => exists ikv', item' = JObj ikv'
            /\ is_Some (Dict.get (lit "title") ikv')
            /\ is_Some (Dict.get (lit "source_type") ikv')
            /\ is_Some (Dict.get (lit "erp_relevance") ikv')
            /\ is_Some (Dict.get (lit "summary") ikv')) items') as Hfixed.
  { clear -Hm Hdicts. induction Hm as [|item item' items items' Hfix _ IH].
    { constructor. }
    apply Forall_cons in Hdicts as [[ikv ->] Hrest].
    constructor; [|by apply IH].
    simpl in Hfix. injection Hfix as <-. eexists. split; [done|].
    split; [do 3 apply dict_setdefault_keeps; apply dict_setdefault_is_Some|].
    split; [do 2 apply dict_setdefault_keeps; apply dict_setdefault_is_Some|].
    split; [apply dict_setdefault_keeps; apply dict_setdefault_is_Some|].
    apply dict_setdefault_is_Some. }
  unfold render_card. simpl. rewrite Hi. simpl.
  destruct (mapM_render_item_outcome items')
    as [[_ (sections & -> & H2)]|[Hex _]].
  - simpl. eexists. split; [done|]. simpl.
    split; [done|]. split; [done|].
    split.
    + apply Forall2_length in H2, Hm. congruence.
    + clear -H2 Hfixed. induction H2 as [|item section items sections Hr _ IH].
      { constructor. }
      apply Forall_cons in Hfixed as [(ikv' & -> & H1 & H2' & H3 & H4) Hrest].
      constructor; [|by apply IH].
      simpl in Hr. injection Hr as <-. by simpl.
  - apply Exists_exists in Hex as (item' & Hin & Hnot).
    rewrite Forall_forall in Hfixed.
    destruct (Hfixed item' Hin) as (ikv' & -> & _). destruct Hnot. by eexists.
Qed.

Lemma X11_repaired_report_renders_witness :
  exists card,
    render_card (JObj [(lit "items", JArr [bare_item_fixed]);
                       (lit "date", JStr (lit "1970-01-01"));
                       (lit "theme", JStr default_theme)]) = Ok card
    /\ is_Some (card_date card)
    /\ is_Some (card_theme card)
    /\ length (card_sections card)
       = length (items_of [(lit "items", JArr [JObj []])])
    /\ Forall (fun section =>
         is_Some (md_title section) /\ is_Some (md_source_type section)
         /\ is_Some (md_erp_relevance section) /\ is_Some (md_summary section))
         (card_sections card).
Proof.
  apply (X11_repaired_report_renders 0%Z [(lit "items", JArr [JObj []])]).
  - repeat constructor. by exists [].
  - vm_compute. reflexivity.
Defined.



(** ** Delivery, recency, fingerprints *)

(** X13. The attempt loop stops at the first accepted POST: when attempt [i]
    is the first one accepted, exactly [i + 1] POSTs are made, the last
    record is the INFO success line and no final failure is logged.  When
    none of the three attempts is accepted, three POSTs are made and the
    last record is the ERROR line.  In every case the loop sleeps 3 seconds
    at most. *)
Theorem X13_stop_at_first_acceptance (p : Payload) (answer : nat -> post_outcome) :
  let tr := post_attempts p answer [0; 1; 2]%nat in
  (forall i, (i < 3)%nat -> answer i = Accepted ->
     (forall j, (j < i)%nat -> answer j <> Accepted) ->
     length (posts tr) = S i
     /\ last tr = Some (Log INFO MsgPushOk)
     /\ ((ERROR, MsgPushFinalFailure) ∉ logged tr))
  /\ ((forall i, (i < 3)%nat -> answer i <> Accepted) ->
      length (posts tr) = 3%nat
      /\ last tr = Some (Log ERROR MsgPushFinalFailure)
      /\ ((INFO, MsgPushOk) ∉ logged tr))
  /\ (foldr Z.add 0 (sleeps tr) <= 3)%Z.
Proof.
  simpl. change (2 ^ Z.of_nat 0)%Z with 1%Z. change (2 ^ Z.of_nat 1)%Z with 2%Z.
  assert (forall (x : level * log_msg) l, x ∉ l <-> ~ In x l) as Hnin.
  { intros x l. by rewrite list_elem_of_In. }
  split; [|split].
  - intros i Hi Hacc Hfirst.
    assert (i = 0 \/ i = 1 \/ i = 2)%nat as [->|[->| ->]] by lia.
    + rewrite Hacc. simpl. rewrite Hnin. simpl. intuition congruence.
    + pose proof (Hfirst 0%nat ltac:(lia)) as H0.
      rewrite Hacc. destruct (answer 0%nat); [done|..]; simpl;
        rewrite Hnin; simpl; intuition congruence.
    + pose proof (Hfirst 0%nat ltac:(lia)) as H0.
      pose proof (Hfirst 1%nat ltac:(lia)) as H1.
      rewrite Hacc.
      destruct (answer 0%nat); [done|..]; destruct (answer 1%nat); try done;
        simpl; rewrite Hnin; simpl; intuition congruence.
  - intros Hnone.
    pose proof (Hnone 0%nat ltac:(lia)) as H0.
    pose proof (Hnone 1%nat ltac:(lia)) as H1.
    pose proof (Hnone 2%nat ltac:(lia)) as H2.
    destruct (answer 0%nat); [done|..]; destruct (answer 1%nat); try done;
      destruct (answer 2%nat); try done;
      simpl; rewrite Hnin; simpl; intuition congruence.
  - destruct (answer 0%nat), (answer 1%nat), (answer 2%nat); simpl; lia.
Qed.

Lemma X13_stop_at_first_acceptance_witness :
  length (posts (post_attempts payload
                   (fun n => match n with 1%nat => Accepted | _ => Rejected end)
                   [0; 1; 2]%nat)) = 2%nat
  /\ last (post_attempts payload
             (fun n => match n with 1%nat => Accepted | _ => Rejected end)
             [0; 1; 2]%nat) = Some (Log INFO MsgPushOk)
  /\ ((ERROR, MsgPushFinalFailure)
      ∉ logged (post_attempts payload
                  (fun n => match n with 1%nat => Accepted | _ => Rejected end)
                  [0; 1; 2]%nat)).
Proof.
  apply (proj1 (X13_stop_at_first_acceptance payload
                  (fun n => match n with 1%nat => Accepted | _ => Rejected end))
           1%nat).
  - lia.
  - reflexivity.
  - intros j Hj. assert (j = 0%nat) as -> by lia. discriminate.
Defined.

(** X15. A timestamp that does not parse is never recent, and nothing is
    recent for a window that [timedelta] cannot hold (more than 999999999
    whole days either way).  For a timestamp that parses there is no upper
    edge: one at or after the clock reading is recent for every window from 0
    up to that limit.  What is recent stays recent at an earlier clock
    reading at which the parser reads the timestamp alike, and for a longer
    window within the limit. *)
Theorem X15_recency_is_monotone (L : Lib) (published_str : str) :
  (forall now hours,
     date_parse L now published_str = None ->
     is_recent L now published_str hours = false)
  /\ (forall now hours,
        (hours / 24 < -999999999 \/ 999999999 < hours / 24)%Z ->
        is_recent L now published_str hours = false)
  /\ (forall pub_time now hours,
        date_parse L now published_str = Some pub_time ->
        (now <= instant_assuming_utc pub_time)%Z ->
        (0 <= hours)%Z -> (hours / 24 <= 999999999)%Z ->
        is_recent L now published_str hours = true)
  /\ (forall now now' hours hours',
        (now' <= now)%Z -> (hours <= hours')%Z -> (hours' / 24 <= 999999999)%Z ->
        date_parse L now' published_str = date_parse L now published_str ->
        is_recent L now published_str hours = true ->
        is_recent L now' published_str hours' = true).
Proof.
  split; [|split; [|split]].
  - intros now hours Hnone. unfold is_recent. by rewrite Hnone.
  - intros now hours Hover. unfold is_recent.
    destruct (date_parse L now published_str) as [pub_time|]; [|done].
    rewrite (timedelta_hours_overflow _ Hover).
    by destruct (to_instant _).
  - intros pub_time now hours Hparse Hnow Hhours Hmax.
    rewrite (is_recent_parsed _ _ _ _ _ Hparse), timedelta_hours_in_range.
    + apply Z.leb_le. unfold us_per_hour, us_per_second. lia.
    + split; [|done]. pose proof (Z.div_pos hours 24). lia.
  - intros now now' hours hours' Hnow Hhours Hmax Hsame.
    destruct (date_parse L now published_str) as [pub_time|] eqn:Hparse.
    2:{ unfold is_recent. by rewrite Hparse. }
    rewrite (is_recent_parsed _ _ _ _ _ Hparse), (is_recent_parsed _ _ _ _ _ Hsame).
    destruct (timedelta_hours hours) as [window|] eqn:Hw; [|done].
    assert (-999999999 <= hours / 24)%Z as Hmin.
    { destruct (Z.le_gt_cases (-999999999) (hours / 24)) as [?|Hlt]; [done|].
      rewrite timedelta_hours_overflow in Hw by lia. done. }
    assert (window = hours * us_per_hour)%Z as ->.
    { unfold timedelta_hours in Hw.
      destruct (_ && _); [|done]. by injection Hw as <-. }
    rewrite timedelta_hours_in_range.
    + rewrite !Z.leb_le. unfold us_per_hour, us_per_second. lia.
    + split; [|done]. pose proof (Z.div_le_mono hours hours' 24). lia.
Qed.

Lemma X15_recency_is_monotone_witness :
  is_recent lib 0%Z (lit "not a date") HOURS_WINDOW = false
  /\ is_recent lib (now * us_per_second)%Z recent 1000000000000 = false
  /\ is_recent lib (now * us_per_second)%Z (lit "2027-01-15 08:00:00") 0 = true
  /\ is_recent lib (1699000000 * us_per_second)%Z recent 72 = true.
Proof.
  split; [|split; [|split]].
  - apply (proj1 (X15_recency_is_monotone lib (lit "not a date"))).
    vm_compute. reflexivity.
  - apply (proj1 (proj2 (X15_recency_is_monotone lib recent))).
    right. vm_compute. reflexivity.
  - apply (proj1 (proj2 (proj2 (X15_recency_is_monotone lib (lit "2027-01-15 08:00:00"))))
             {| wall := 1800000000000000; tzinfo := None |}).
    + vm_compute. reflexivity.
    + vm_compute. discriminate.
    + lia.
    + vm_compute. discriminate.
  - apply (proj2 (proj2 (proj2 (X15_recency_is_monotone lib recent)))
             (now * us_per_second)%Z _ HOURS_WINDOW).
    + vm_compute. discriminate.
    + vm_compute. discriminate.
    + vm_compute. discriminate.
    + reflexivity.
    + vm_compute. reflexivity.
Defined.

Lemma hexchar_is_hex n :
  n < 16 -> hexchar n ∈ lit "0123456789abcdef".
Proof.
  intros Hn. rewrite <- (N2Nat.id n).
  assert (N.to_nat n < 16)%nat as Hm by lia.
  generalize dependent (N.to_nat n). clear. intros m Hm.
  rewrite list_elem_of_In.
  do 16 (destruct m as [|m]; [vm_compute; tauto|]). lia.
Qed.

Lemma hexchar_inj m n : m < 16 -> n < 16 -> hexchar m = hexchar n -> m = n.
Proof.
  unfold hexchar. intros Hm Hn.
  destruct (N.ltb_spec m 10), (N.ltb_spec n 10); lia.
Qed.

Lemma hexdigest_inj d1 d2 :
  Forall (fun b => b < 256) d1 -> Forall (fun b => b < 256) d2 ->
  hexdigest d1 = hexdigest d2 -> d1 = d2.
Proof.
  intros H1. revert d2. induction H1 as [|b1 d1 Hb1 _ IH]; intros d2 H2.
  { destruct d2; [done|]. by simpl. }
  destruct H2 as [|b2 d2 Hb2 H2]; [by simpl|].
  unfold hexdigest. simpl. intros [= Hhi Hlo Hrest].
  apply hexchar_inj in Hhi; [|by apply N.mod_lt..].
  apply hexchar_inj in Hlo; [|by apply N.mod_lt..].
  f_equal; [|by apply IH].
  assert (b1 / 16 < 16) as Hq1 by (apply N.Div0.div_lt_upper_bound; lia).
  assert (b2 / 16 < 16) as Hq2 by (apply N.Div0.div_lt_upper_bound; lia).
  rewrite !N.mod_small in Hhi by done.
  rewrite (N.div_mod b1 16), (N.div_mod b2 16) by lia. lia.
Qed.

(** X14. With a digest of 32 bytes, the fingerprint of a link has 64
    characters, all of them lower-case hexadecimal digits, so a line of the
    store file holds it as it is; and two links have the same fingerprint
    only when their digests are the same. *)
Theorem X14_fingerprint_format (L : Lib) (link link' : str) :
  (forall m, length (sha256 L m) = 32%nat) ->
  length (hash_link L link) = 64%nat
  /\ Forall (fun c => c ∈ lit "0123456789abcdef") (hash_link L link)
  /\ line_safe (hash_link L link)
  /\ (Forall (fun b => b < 256) (sha256 L (encode link)) ->
      Forall (fun b => b < 256) (sha256 L (encode link')) ->
      hash_link L link = hash_link L link' ->
      sha256 L (encode link) = sha256 L (encode link')).
Proof.
  intros Hlen. unfold hash_link.
  split; [by rewrite hexdigest_length, Hlen|].
  split; [|split].
  - apply Forall_forall. intros c. unfold hexdigest.
    rewrite list_elem_of_In, in_flat_map.
    intros (b & _ & [<-|[<-|[]]]); apply hexchar_is_hex; by apply N.mod_lt.
  - apply hexdigest_line_safe. intros Hnil.
    specialize (Hlen (encode link)). by rewrite Hnil in Hlen.
  - by apply hexdigest_inj.
Qed.

Lemma X14_fingerprint_format_witness :
  length (hash_link lib link_a) = 64%nat
  /\ Forall (fun c => c ∈ lit "0123456789abcdef") (hash_link lib link_a)
  /\ line_safe (hash_link lib link_a)
  /\ (Forall (fun b => b < 256) (sha256 lib (encode link_a)) ->
      Forall (fun b => b < 256) (sha256 lib (encode link_b)) ->
      hash_link lib link_a = hash_link lib link_b ->
      sha256 lib (encode link_a) = sha256 lib (encode link_b)).
Proof.
  apply (X14_fingerprint_format lib link_a link_b). exact ref_sha256_length.
Defined.

(** ** How a run ends *)

(** X16. With no feed configured the run ends normally at once and the store
    file is not touched, not even created.  With feeds but no candidate it
    ends normally too, the store holding what was loaded. *)
Theorem X16_nothing_to_do (L : Lib) (W : World) (f : file) :
  (RSS_URLS W = [] -> main L W f = (Ok tt, f))
  /\ (fst (fetch_rss_entries L W f) = [] ->
      main L W f = (Ok tt, snd (fetch_rss_entries L W f))
      /\ stored (snd (main L W f)) = stored f).
Proof.
  split.
  - intros Hurls. unfold main, fetch_rss_entries. by rewrite Hurls.
  - intros Hnone.
    assert (main L W f = (Ok tt, snd (fetch_rss_entries L W f))) as Hmain.
    { unfold main. destruct (fetch_rss_entries L W f) as [cands f1].
      simpl in Hnone. by subst cands. }
    split; [done|]. rewrite Hmain. apply fetch_rss_entries_store.
Qed.

Lemma X16_nothing_to_do_witness :
  main lib (Ref.world now [] None None [] [] (fun _ => Failed)) None
  = (Ok tt, Some [])
  /\ stored (snd (main lib (Ref.world now [] None None [] [] (fun _ => Failed)) None))
     = stored None.
Proof.
  apply (proj2 (X16_nothing_to_do lib
                  (Ref.world now [] None None [] [] (fun _ => Failed)) None)).
  reflexivity.
Defined.










(** ** The list of feeds *)

Lemma split_char_nonempty sep s : split_char sep s <> [].
Proof.
  destruct s as [|c s]; [done|]. simpl.
  destruct (c =? sep); [done|]. by destruct (split_char sep s).
Qed.

Lemma split_char_no_sep sep s piece :
  piece ∈ split_char sep s -> sep ∉ piece.
Proof.
  revert piece. induction s as [|c s IH]; intros piece; simpl.
  - intros ->%list_elem_of_singleton. apply not_elem_of_nil.
  - destruct (N.eqb_spec c sep) as [->|Hc].
    + intros [->|H]%elem_of_cons; [apply not_elem_of_nil|by apply IH].
    + destruct (split_char sep s) as [|p ps] eqn:Hs.
      * intros ->%list_elem_of_singleton. by intros ?%list_elem_of_singleton.
      * intros [->|H]%elem_of_cons.
        -- apply not_elem_of_cons. split; [done|]. apply IH. by left.
        -- apply IH. by right.
Qed.

(** Splitting a text with one more character at its end. *)
Lemma split_char_snoc sep s c :
  split_char sep (s ++ [c])
  = if c =? sep then split_char sep s ++ [[]]
    else removelast (split_char sep s) ++ [List.last (split_char sep s) [] ++ [c]].
Proof.
  induction s as [|x s IH]; simpl.
  - by destruct (c =? sep).
  - destruct (x =? sep).
    + rewrite IH. destruct (c =? sep); [done|].
      pose proof (split_char_nonempty sep s).
      by destruct (split_char sep s).
    + rewrite IH. pose proof (split_char_nonempty sep s) as Hne.
      destruct (c =? sep).
      * by destruct (split_char sep s).
      * destruct (split_char sep s) as [|p ps]; [done|].
        destruct ps as [|p' ps]; [done|]. simpl. done.
Qed.

Lemma strip_cons_space c s : isspace c = true -> strip (c :: s) = strip s.
Proof. intros H. unfold strip. simpl. by rewrite H. Qed.

Lemma strip_snoc_space s c : isspace c = true -> strip (s ++ [c]) = strip s.
Proof.
  intros Hc. unfold strip. rewrite lstrip_app.
  destruct (forallb isspace s) eqn:Hs.
  - rewrite (lstrip_spaces s) by done. simpl. by rewrite Hc.
  - unfold rstrip. rewrite rev_app_distr. simpl. by rewrite Hc.
Qed.

Lemma strip_nil : strip [] = [].
Proof. reflexivity. Qed.

(** The lines that count, without the stripping of the whole text. *)
Lemma url_lines_cons_space c s :
  isspace c = true ->
  List.filter nonempty (List.map strip (split_char newline (c :: s)))
  = List.filter nonempty (List.map strip (split_char newline s)).
Proof.
  intros Hc. simpl. destruct (c =? newline); [done|].
  pose proof (split_char_nonempty newline s).
  destruct (split_char newline s) as [|p ps]; [done|].
  simpl. by rewrite strip_cons_space.
Qed.

Lemma url_lines_snoc_space s c :
  isspace c = true ->
  List.filter nonempty (List.map strip (split_char newline (s ++ [c])))
  = List.filter nonempty (List.map strip (split_char newline s)).
Proof.
  intros Hc. rewrite split_char_snoc.
  destruct (c =? newline).
  - rewrite List.map_app, List.filter_app. simpl. apply app_nil_r.
  - pose proof (split_char_nonempty newline s) as Hne.
    rewrite (app_removelast_last [] Hne) at 3.
    rewrite !List.map_app, !List.filter_app. simpl.
    by rewrite strip_snoc_space.
Qed.

Lemma url_lines_lstrip s :
  List.filter nonempty (List.map strip (split_char newline (lstrip s)))
  = List.filter nonempty (List.map strip (split_char newline s)).
Proof.
  induction s as [|c s IH]; [done|]. simpl lstrip.
  destruct (isspace c) eqn:Hc; [|done].
  by rewrite IH, url_lines_cons_space.
Qed.

Lemma url_lines_app_spaces s sp :
  forallb isspace sp = true ->
  List.filter nonempty (List.map strip (split_char newline (s ++ sp)))
  = List.filter nonempty (List.map strip (split_char newline s)).
Proof.
  revert s. induction sp as [|c sp IH]; intros s; simpl.
  - by rewrite app_nil_r.
  - intros [Hc Hsp]%andb_true_iff.
    change (s ++ c :: sp) with (s ++ [c] ++ sp). rewrite app_assoc, IH by done.
    by apply url_lines_snoc_space.
Qed.

Lemma parse_rss_urls_lines raw :
  parse_rss_urls raw
  = List.filter nonempty (List.map strip (split_char newline raw)).
Proof.
  unfold parse_rss_urls, strip at 2.
  destruct (rstrip_decomp (lstrip raw)) as (sp & Hd & Hsp).
  rewrite <- (url_lines_lstrip raw). rewrite Hd at 2.
  by rewrite url_lines_app_spaces.
Qed.

Lemma split_char_one_line sep line :
  sep ∉ line -> split_char sep line = [line].
Proof.
  induction line as [|c line IH]; [done|].
  intros [Hc Hl]%not_elem_of_cons. simpl.
  destruct (N.eqb_spec c sep); [done|]. by rewrite IH.
Qed.

Lemma split_char_app_sep sep line rest :
  sep ∉ line ->
  split_char sep (line ++ sep :: rest) = line :: split_char sep rest.
Proof.
  induction line as [|c line IH]; simpl.
  - by rewrite N.eqb_refl.
  - intros [Hc Hl]%not_elem_of_cons.
    destruct (N.eqb_spec c sep); [done|]. by rewrite IH.
Qed.

Lemma split_char_join_lines lines :
  lines <> [] -> Forall (fun line => newline ∉ line) lines ->
  split_char newline (join_lines lines) = lines.
Proof.
  intros Hne Hall. induction Hall as [|line lines Hl Hall IH]; [done|].
  destruct lines as [|line' lines].
  - simpl. by apply split_char_one_line.
  - change (join_lines (line :: line' :: lines))
      with (line ++ newline :: join_lines (line' :: lines)).
    rewrite split_char_app_sep by done. by rewrite IH.
Qed.

Lemma text_of_lines_join lines :
  lines <> [] -> text_of_lines lines = join_lines lines ++ [newline].
Proof.
  intros Hne. induction lines as [|line lines IH]; [done|].
  destruct lines as [|line' lines].
  - unfold text_of_lines. simpl. by rewrite app_nil_r.
  - change (text_of_lines (line :: line' :: lines))
      with ((line ++ [newline]) ++ text_of_lines (line' :: lines)).
    rewrite IH by done.
    change (join_lines (line :: line' :: lines))
      with (line ++ newline :: join_lines (line' :: lines)).
    by rewrite <- !app_assoc.
Qed.

(** X19. Every feed address read from the setting is a stripped, non-empty
    piece of one line: blank lines and white space around an address do not
    count, and a setting of white space only gives no feed. *)
Theorem X19_feed_addresses_are_clean (raw : str) :
  Forall line_safe (parse_rss_urls raw)
  /\ (forall url, url ∈ parse_rss_urls raw ->
        exists line, line ∈ split_char newline raw /\ url = strip line)
  /\ (forallb isspace raw = true -> parse_rss_urls raw = []).
Proof.
  rewrite parse_rss_urls_lines.
  assert (forall url,
            url ∈ List.filter nonempty (List.map strip (split_char newline raw)) ->
            url <> [] /\ exists line, line ∈ split_char newline raw /\ url = strip line)
    as Hel.
  { intros url. rewrite list_elem_of_In, filter_In, in_map_iff.
    intros [(line & <- & Hl) Hne]. split; [by destruct (strip line)|].
    exists line. by rewrite list_elem_of_In. }
  split; [|split].
  - apply Forall_forall. intros url (Hne & line & Hl & ->)%Hel.
    split; [done|]. split; [apply strip_idemp|].
    apply split_char_no_sep in Hl. intros H. apply Hl. by apply elem_of_strip.
  - intros url (_ & H)%Hel. exact H.
  - intros Hsp. exact (url_lines_app_spaces [] raw Hsp).
Qed.

(** X20. A list of addresses that lines can hold is read back as it is, in
    order and with repetitions, from the addresses joined by line breaks,
    with or without a line break after the last one. *)
Theorem X20_feed_addresses_round_trip (urls : list str) :
  Forall line_safe urls ->
  parse_rss_urls (join_lines urls) = urls
  /\ parse_rss_urls (text_of_lines urls) = urls.
Proof.
  intros Hsafe.
  assert (List.filter nonempty (List.map strip urls) = urls) as Hid.
  { induction Hsafe as [|url urls (Hne & Hs & _) _ IH]; [done|].
    simpl. rewrite Hs, IH. by destruct url. }
  destruct urls as [|u us]; [done|].
  assert (parse_rss_urls (join_lines (u :: us)) = u :: us) as Hjoin.
  { rewrite parse_rss_urls_lines, split_char_join_lines; [done|done|].
    eapply Forall_impl; [exact Hsafe|]. by intros url (_ & _ & ?). }
  split; [done|].
  rewrite text_of_lines_join by done.
  rewrite parse_rss_urls_lines, url_lines_snoc_space by done.
  by rewrite <- parse_rss_urls_lines.
Qed.

Lemma X20_feed_addresses_round_trip_witness :
  parse_rss_urls (join_lines [lit "https://a/feed"; lit "https://b/rss x"])
  = [lit "https://a/feed"; lit "https://b/rss x"]
  /\ parse_rss_urls (text_of_lines [lit "https://a/feed"; lit "https://b/rss x"])
     = [lit "https://a/feed"; lit "https://b/rss x"].
Proof.
  apply (X20_feed_addresses_round_trip [lit "https://a/feed"; lit "https://b/rss x"]).
  repeat constructor; try discriminate;
    intros Hin; repeat (apply elem_of_cons in Hin as [Hin|Hin]; [discriminate|]);
    by apply elem_of_nil in Hin.
Defined.

(** ** [extract_links.py] *)

(** The pieces of a split, seen from the last one. *)
Lemma split_char_last sep s :
  exists p ps,
    split_char sep s = p :: ps
    /\ (sep ∉ p)
    /\ (ps = [] -> s = p)
    /\ (ps <> [] ->
        (sep ∉ List.last ps [])
        /\ exists prefix, s = prefix ++ sep :: List.last ps []).
Proof.
  induction s as [|c s (p & ps & Hs & Hp & Hone & Hmore)].
  { exists [], []. repeat split; try done. apply not_elem_of_nil. }
  simpl. rewrite Hs. destruct (N.eqb_spec c sep) as [->|Hc].
  - exists [], (p :: ps). split; [done|]. split; [apply not_elem_of_nil|].
    split; [done|]. intros _. destruct ps as [|p' ps].
    + simpl. split; [done|]. exists []. by rewrite (Hone eq_refl).
    + destruct (Hmore ltac:(done)) as [Hl (prefix & ->)].
      split; [done|]. by exists (sep :: prefix).
  - exists (c :: p), ps. split; [done|].
    split; [by apply not_elem_of_cons|]. split.
    + intros Hps. by rewrite (Hone Hps).
    + intros Hps. destruct (Hmore Hps) as [Hl (prefix & ->)].
      split; [done|]. by exists (c :: prefix).
Qed.

Lemma article_id_of_no_slash s : slash ∉ s -> article_id_of s = s.
Proof.
  intros H. unfold article_id_of. by rewrite split_char_one_line.
Qed.

(** X21. The article id taken from the input is what follows its last
    slash: it contains no slash, the input ends with it, and what stands
    before it is empty or ends with a slash.  So the bare id and any path
    that ends with it ask for the same page and give the same answer. *)
Theorem X21_article_id_is_last_segment (fetch : str -> option (list Anchor))
    (input_str : str) :
  (slash ∉ article_id_of input_str)
  /\ (exists prefix,
        input_str = prefix ++ article_id_of input_str
        /\ (prefix = [] \/ exists dir, prefix = dir ++ [slash]))
  /\ (slash ∉ input_str -> article_id_of input_str = input_str)
  /\ (forall dir, article_id_of (dir ++ slash :: article_id_of input_str)
                  = article_id_of input_str)
  /\ get_original_link fetch (article_id_of input_str)
     = get_original_link fetch input_str.
Proof.
  assert (forall s, (slash ∉ article_id_of s)
            /\ exists prefix, s = prefix ++ article_id_of s
                 /\ (prefix = [] \/ exists dir, prefix = dir ++ [slash])) as Hseg.
  { intros s. unfold article_id_of.
    destruct (split_char_last slash s) as (p & ps & -> & Hp & Hone & Hmore).
    destruct ps as [|p' ps].
    - simpl. split; [done|]. exists []. split; [by rewrite (Hone eq_refl)|by left].
    - destruct (Hmore ltac:(done)) as [Hl (prefix & Hs)].
      change (List.last (p :: p' :: ps) []) with (List.last (p' :: ps) []).
      split; [done|]. exists (prefix ++ [slash]).
      split; [by rewrite <- app_assoc|]. right. by exists prefix. }
  destruct (Hseg input_str) as [Hno Hpre].
  assert (forall dir id, slash ∉ id -> article_id_of (dir ++ slash :: id) = id)
    as Hdir.
  { intros dir id Hid.
    assert (forall a b x y : str, slash ∉ x -> slash ∉ y ->
              a ++ slash :: x = b ++ slash :: y -> x = y) as Huniq.
    { intros a. induction a as [|c a IH]; intros [|d b] x y Hx Hy; simpl.
      - by intros [= ->].
      - intros [= <- ->]. destruct Hx. apply elem_of_app. right. by left.
      - intros [= -> <-]. destruct Hy. apply elem_of_app. right. by left.
      - intros [= <- H]. by apply (IH b). }
    destruct (Hseg (dir ++ slash :: id)) as [Hn (prefix & Heq & [->|[d ->]])].
    - simpl in Heq. destruct Hn. rewrite <- Heq.
      apply elem_of_app. right. by left.
    - rewrite <- app_assoc in Heq. simpl in Heq. symmetry.
      by apply (Huniq dir d). }
  split; [done|]. split; [done|].
  split; [apply article_id_of_no_slash|].
  split; [intros dir; by apply Hdir|].
  unfold get_original_link. by rewrite (article_id_of_no_slash _ Hno).
Qed.

Lemma lstrip_char_decomp c s :
  exists cs, s = cs ++ lstrip_char c s /\ Forall (fun x => x = c) cs.
Proof.
  induction s as [|x s (cs & Hs & Hcs)]; [by exists []|]. simpl.
  destruct (N.eqb_spec x c) as [->|Hx].
  - exists (c :: cs). split; [simpl; by f_equal|by constructor].
  - by exists [].
Qed.

Lemma lstrip_char_head c s : starts_with_char c (lstrip_char c s) = false.
Proof.
  induction s as [|x s IH]; [done|]. simpl.
  destruct (x =? c) eqn:Hx; [done|]. simpl. by rewrite Hx.
Qed.

Lemma lstrip_char_none c s : c ∉ s -> lstrip_char c s = s.
Proof.
  destruct s as [|x s]; [done|]. intros [Hx _]%not_elem_of_cons. simpl.
  by destruct (N.eqb_spec x c).
Qed.

Lemma strip_char_ends c s :
  starts_with_char c (strip_char c s) = false
  /\ ends_with_char c (strip_char c s) = false.
Proof.
  unfold strip_char, ends_with_char. rewrite rev_involutive.
  split; [|apply lstrip_char_head].
  set (u := lstrip_char c s).
  destruct (lstrip_char_decomp c (rev u)) as (cs & Hu & _).
  apply (f_equal (@rev _)) in Hu. rewrite rev_involutive, rev_app_distr in Hu.
  destruct (rev (lstrip_char c (rev u))) as [|x r] eqn:Hr; [done|].
  pose proof (lstrip_char_head c s) as Hh. fold u in Hh. rewrite Hu in Hh.
  exact Hh.
Qed.

(** X23. An [href] that starts and ends with a backtick loses all the
    backticks at its two ends; any other [href] is kept as it is, also one
    with a backtick at one end only.  What comes out never both starts and
    ends with a backtick. *)
Theorem X23_unwrap_href (href : str) :
  (starts_with_char backtick (unwrap_href href)
   && ends_with_char backtick (unwrap_href href) = false)
  /\ (starts_with_char backtick href && ends_with_char backtick href = false ->
      unwrap_href href = href)
  /\ (forall c s, c <> backtick ->
        unwrap_href (c :: s) = c :: s
        /\ unwrap_href (s ++ [c]) = s ++ [c])
  /\ (backtick ∉ href -> unwrap_href href = href)
  /\ unwrap_href (unwrap_href href) = unwrap_href href
  /\ (starts_with_char backtick href && ends_with_char backtick href = true ->
      starts_with_char backtick (unwrap_href href) = false
      /\ ends_with_char backtick (unwrap_href href) = false
      /\ exists n m, href = repeat backtick n ++ unwrap_href href ++ repeat backtick m).
Proof.
  assert (starts_with_char backtick (unwrap_href href)
          && ends_with_char backtick (unwrap_href href) = false) as Hnot.
  { unfold unwrap_href.
    destruct (starts_with_char backtick href && ends_with_char backtick href)
      eqn:Hc; [|done].
    by rewrite (proj1 (strip_char_ends backtick href)). }
  split; [done|]. split; [|split; [|split; [|split]]].
  - intros Hc. unfold unwrap_href. by rewrite Hc.
  - intros c s Hc. unfold unwrap_href, ends_with_char. split.
    + simpl. by destruct (N.eqb_spec c backtick).
    + rewrite rev_app_distr. simpl.
      destruct (N.eqb_spec c backtick); [done|]. by rewrite andb_false_r.
  - intros Hno. unfold unwrap_href.
    destruct href as [|x href]; [done|].
    apply not_elem_of_cons in Hno as [Hx _]. simpl.
    by destruct (N.eqb_spec x backtick).
  - unfold unwrap_href at 1. by rewrite Hnot.
  - intros Hc. unfold unwrap_href. rewrite Hc.
    destruct (strip_char_ends backtick href) as [-> ->].
    split; [done|]. split; [done|].
    unfold strip_char.
    destruct (lstrip_char_decomp backtick href) as (cs & Hh & Hcs).
    destruct (lstrip_char_decomp backtick (rev (lstrip_char backtick href)))
      as (ds & Hd & Hds).
    exists (length cs), (length ds).
    assert (forall l, Forall (fun x => x = backtick) l ->
              l = repeat backtick (length l)) as Hrep.
    { induction 1 as [|x l -> _ IH]; simpl; [done|]. by f_equal. }
    rewrite <- (Hrep cs Hcs).
    assert (rev ds = repeat backtick (length ds)) as <-.
    { rewrite <- length_rev. apply Hrep.
      apply Forall_forall. intros x Hx%list_elem_of_In%in_rev%list_elem_of_In.
      by rewrite Forall_forall in Hds; apply Hds. }
    rewrite <- rev_app_distr, <- Hd, rev_involutive. exact Hh.
Qed.

Lemma first_marked_split pre a_tag post :
  Forall (fun a => a_text a <> link_marker) pre ->
  a_text a_tag = link_marker ->
  first_marked (pre ++ a_tag :: post) = Some (unwrap_href (a_href a_tag)).
Proof.
  intros Hpre Ha. induction Hpre as [|a pre Hne _ IH]; simpl.
  - rewrite Ha. unfold str_eqb. by rewrite bool_decide_eq_true_2.
  - unfold str_eqb at 1. by rewrite bool_decide_eq_false_2.
Qed.

Lemma first_marked_none anchors :
  Forall (fun a => a_text a <> link_marker) anchors -> first_marked anchors = None.
Proof.
  induction 1 as [|a anchors Hne _ IH]; simpl; [done|].
  unfold str_eqb at 1. by rewrite bool_decide_eq_false_2.
Qed.

(** X22. [get_original_link] gives the [href], unwrapped, of the first
    anchor of the article page whose text is exactly the marker, whatever
    anchors follow; it gives the empty string when the page cannot be read
    or has no such anchor. *)
Theorem X22_first_marked_anchor_decides (fetch : str -> option (list Anchor))
    (input_str : str) :
  let page := fetch (BASE_URL ++ article_id_of input_str) in
  (page = None -> get_original_link fetch input_str = [])
  /\ (forall anchors, page = Some anchors ->
        Forall (fun a => a_text a <> link_marker) anchors ->
        get_original_link fetch input_str = [])
  /\ (forall pre a_tag post, page = Some (pre ++ a_tag :: post) ->
        Forall (fun a => a_text a <> link_marker) pre ->
        a_text a_tag = link_marker ->
        get_original_link fetch input_str = unwrap_href (a_href a_tag)).
Proof.
  intros page. unfold get_original_link. fold page.
  split; [by intros ->|]. split.
  - intros anchors -> Hall. simpl. by rewrite first_marked_none.
  - intros pre a_tag post -> Hpre Ha. simpl.
    rewrite first_marked_split by done.
    by destruct (unwrap_href (a_href a_tag)).
Qed.

Lemma X22_first_marked_anchor_decides_witness :
  get_original_link site (lit "rss/feed/3271041950-2652670441_2")
  = unwrap_href (a_href {| a_href := lit "`https://mp.weixin.qq.com/s/N1PQ`";
                           a_text := link_marker |})
  /\ get_original_link site (lit "rss/feed/unknown") = [].
Proof.
  split.
  - pose proof (X22_first_marked_anchor_decides site
                  (lit "rss/feed/3271041950-2652670441_2")) as H.
    cbv zeta in H. destruct H as (_ & _ & H).
    apply (H [{| a_href := lit "/home"; a_text := lit "home" |}]
             {| a_href := lit "`https://mp.weixin.qq.com/s/N1PQ`";
                a_text := link_marker |}
             [{| a_href := lit "https://other"; a_text := link_marker |}]).
    + vm_compute. reflexivity.
    + constructor; [|constructor]. vm_compute. discriminate.
    + vm_compute. reflexivity.
  - pose proof (X22_first_marked_anchor_decides site (lit "rss/feed/unknown")) as H.
    cbv zeta in H. destruct H as (H & _). apply H. vm_compute. reflexivity.
Defined.

(** ** The LLM clients *)

Lemma ark_handle_outcome loads data :
  (exists v, ark_handle loads data = Ok v) \/ ark_handle loads data = Exit 1.
Proof.
  unfold ark_handle.
  destruct (ark_content data) as [content|]; [|by right].
  destruct (truthy content); simpl; [|by right].
  destruct content as [| | |text| |]; try (by right).
  repeat match goal with
  | |- context [loads ?x] => destruct (loads x); [left; by eexists|]
  | |- context [if ?b then _ else _] => destruct b
  | |- context [fenced ?a ?b] => destruct (fenced a b)
  end; by right.
Qed.

Lemma chat_call_json_outcome loads key http :
  ((exists v, fst (chat_call_json loads key http) = Ok v)
   \/ fst (chat_call_json loads key http) = Exit 1)
  /\ (requests (snd (chat_call_json loads key http)) <= 1)%nat
  /\ (key = [] -> chat_call_json loads key http = (Exit 1, [])).
Proof.
  unfold chat_call_json. destruct key as [|k key]; simpl.
  { split; [by right|]. split; [unfold requests; simpl; lia|done]. }
  destruct http as [| |data]; simpl;
    try (split; [by right|split; [unfold requests; simpl; lia|done]]).
  destruct (chat_content data) as [content|]; simpl;
    [destruct (loads content); simpl|];
    (split; [(left; by eexists) || by right|]);
    (split; [unfold requests; simpl; lia|done]).
Qed.

Lemma ark_attempts_outcome loads http attempts :
  ((exists v, fst (ark_attempts loads http attempts) = Ok v)
   \/ fst (ark_attempts loads http attempts) = Exit 1)
  /\ (requests (snd (ark_attempts loads http attempts)) <= length attempts)%nat.
Proof.
  induction attempts as [|n attempts [IHr IHn]]; simpl.
  { split; [by right|done]. }
  destruct (http n) as [| |data].
  - destruct (ark_attempts loads http attempts) as [r tr]. simpl in *.
    split; [done|]. unfold requests in *. simpl.
    destruct (n <? 2)%nat; simpl; lia.
  - simpl. split; [by right|unfold requests; simpl; lia].
  - simpl. split; [apply ark_handle_outcome|unfold requests; simpl; lia].
Qed.

(** X24. Whatever the provider setting, the keys, the answers of the network
    and the parser, [call_json] never raises: it returns a JSON value or
    ends the process with status 1, after three requests at most, and after
    one at most unless the provider is ["ark"].  When the key of the chosen
    client is not set (for ["ark"], the key or the model), it ends the
    process without any request. *)
Theorem X24_call_json_returns_or_exits (loads : str -> option json)
    (cfg : LLMConfig) (http : nat -> http_outcome) :
  let r := fst (call_json loads cfg http) in
  let tr := snd (call_json loads cfg http) in
  ((exists v, r = Ok v) \/ r = Exit 1)
  /\ (requests tr <= 3)%nat
  /\ (LLM_PROVIDER cfg <> lit "ark" -> (requests tr <= 1)%nat)
  /\ (LLM_PROVIDER cfg = lit "qwen" -> DASHSCOPE_API_KEY cfg = [] ->
      call_json loads cfg http = (Exit 1, []))
  /\ (LLM_PROVIDER cfg = lit "ark" -> ARK_API_KEY cfg = [] \/ ARK_MODEL cfg = [] ->
      call_json loads cfg http = (Exit 1, []))
  /\ (LLM_PROVIDER cfg <> lit "qwen" -> LLM_PROVIDER cfg <> lit "ark" ->
      OPENAI_API_KEY cfg = [] ->
      call_json loads cfg http = (Exit 1, [])).
Proof.
  simpl. unfold call_json, str_eqb.
  case_bool_decide as Hq; [|case_bool_decide as Ha].
  - destruct (chat_call_json_outcome loads (DASHSCOPE_API_KEY cfg) (http 0%nat))
      as (Hr & Hn & Hk).
    split; [done|]. split; [lia|]. split; [done|]. split; [auto|].
    split; [|done]. intros Hark. rewrite Hark in Hq. by vm_compute in Hq.
  - unfold ark_call_json.
    destruct (negb (nonempty (ARK_API_KEY cfg)) || negb (nonempty (ARK_MODEL cfg)))
      eqn:Hkeys.
    + simpl. split; [by right|]. split; [unfold requests; simpl; lia|].
      by repeat split.
    + destruct (ark_attempts_outcome loads http [0; 1; 2]%nat) as [Hr Hn].
      split; [done|]. split; [exact Hn|]. split; [done|]. split; [done|].
      split; [|done]. intros _ [Hk|Hm].
      * rewrite Hk in Hkeys. done.
      * rewrite Hm in Hkeys. by rewrite orb_true_r in Hkeys.
  - destruct (chat_call_json_outcome loads (OPENAI_API_KEY cfg) (http 0%nat))
      as (Hr & Hn & Hk).
    split; [done|]. split; [lia|]. split; [done|]. split; [done|].
    split; [done|]. auto.
Qed.

Lemma X24_call_json_returns_or_exits_witness :
  call_json loads no_key_config flaky_http = (Exit 1, []).
Proof.
  pose proof (X24_call_json_returns_or_exits loads no_key_config flaky_http) as H.
  cbv zeta in H. destruct H as (_ & _ & _ & H & _).
  apply H; reflexivity.
Defined.

(** X25. The ARK client asks again only after a connection failure, and
    three times at most; it waits 2 seconds after the first and after the
    second failed connection and not after the third.  What the first
    attempt that is no connection failure gives is the outcome: the handled
    response, or the end of the process for any other failure.  Three failed
    connections end the process after 4 seconds of waiting. *)
Theorem X25_ark_retries_connections_only (loads : str -> option json)
    (http : nat -> http_outcome) :
  let settle o :=
    match o with
    | Responded data => ark_handle loads data
    | _ => Exit 1
    end in
  (http 0%nat <> ConnectionFailed ->
   ark_attempts loads http [0; 1; 2]%nat = (settle (http 0%nat), [Request]))
  /\ (http 0%nat = ConnectionFailed -> http 1%nat <> ConnectionFailed ->
      ark_attempts loads http [0; 1; 2]%nat
      = (settle (http 1%nat), [Request; Wait 2; Request]))
  /\ (http 0%nat = ConnectionFailed -> http 1%nat = ConnectionFailed ->
      ark_attempts loads http [0; 1; 2]%nat
      = (settle (http 2%nat), [Request; Wait 2; Request; Wait 2; Request]))
  /\ (waited (snd (ark_attempts loads http [0; 1; 2]%nat)) <= 4)%Z.
Proof.
  simpl.
  destruct (http 0%nat) eqn:H0, (http 1%nat) eqn:H1, (http 2%nat) eqn:H2;
    simpl; repeat split; try done; unfold waited; simpl; lia.
Qed.

Lemma X25_ark_retries_connections_only_witness :
  ark_attempts loads flaky_http [0; 1; 2]%nat
  = (Ok (JObj []), [Request; Wait 2; Request; Wait 2; Request]).
Proof.
  pose proof (X25_ark_retries_connections_only loads flaky_http) as H.
  cbv zeta in H. destruct H as (_ & _ & H & _).
  rewrite H by reflexivity. vm_compute. reflexivity.
Defined.

(** *** Splitting at a separator *)

Lemma startswith_app p s : startswith p (p ++ s) = true.
Proof.
  induction p as [|x p IH]; [done|]. simpl. by rewrite N.eqb_refl.
Qed.

Lemma startswith_cons_inv c p s :
  startswith (c :: p) s = true -> exists s', s = c :: s' /\ startswith p s' = true.
Proof.
  destruct s as [|y s]; [done|]. simpl.
  intros [Hc Hp]%andb_true_iff. apply N.eqb_eq in Hc. subst y. by exists s.
Qed.

Lemma contains_unfold p s :
  contains p s
  = startswith p s || match s with [] => false | _ :: s' => contains p s' end.
Proof. by destruct s. Qed.

Lemma contains_app p a s : contains p (a ++ p ++ s) = true.
Proof.
  induction a as [|x a IH].
  - rewrite contains_unfold. simpl app. by rewrite startswith_app.
  - simpl. rewrite IH. apply orb_true_r.
Qed.

Lemma split_go_skip sep k cur s :
  split_go sep (length k) cur (k ++ s) = split_go sep 0 cur s.
Proof. induction k as [|x k IH]; [done|]. exact IH. Qed.

Lemma split_go_no_head c sep cur s :
  c ∉ s -> split_go (c :: sep) 0 cur s = [rev cur ++ s].
Proof.
  revert cur. induction s as [|x s IH]; intros cur Hc.
  - simpl. by rewrite app_nil_r.
  - apply not_elem_of_cons in Hc as [Hx Hs].
    simpl. destruct (N.eqb_spec c x) as [->|_]; [done|]. simpl.
    rewrite IH by done. simpl. by rewrite <- app_assoc.
Qed.

Lemma split_go_at_sep c sep cur pre s :
  c ∉ pre ->
  split_go (c :: sep) 0 cur (pre ++ (c :: sep) ++ s)
  = (rev cur ++ pre) :: split_go (c :: sep) 0 [] s.
Proof.
  revert cur. induction pre as [|x pre IH]; intros cur Hc.
  - simpl. rewrite N.eqb_refl, startswith_app. simpl.
    rewrite Nat.sub_0_r, split_go_skip. by rewrite app_nil_r.
  - apply not_elem_of_cons in Hc as [Hx Hs].
    simpl. destruct (N.eqb_spec c x) as [->|_]; [done|]. simpl.
    specialize (IH (x :: cur) Hs). simpl in IH. rewrite IH.
    by rewrite <- app_assoc.
Qed.

(** The first piece ends where the text ends or where the separator
    starts. *)
Lemma split_go_head sep cur s :
  exists p q tl, s = p ++ q /\ split_go sep 0 cur s = (rev cur ++ p) :: tl
                 /\ (q = [] \/ startswith sep q = true).
Proof.
  revert cur. induction s as [|x s IH]; intros cur.
  - exists [], [], []. simpl. rewrite app_nil_r. auto.
  - cbn [split_go]. destruct (startswith sep (x :: s)) eqn:Hsw.
    + exists [], (x :: s), (split_go sep (length sep - 1) [] s).
      rewrite app_nil_r. auto.
    + destruct (IH (x :: cur)) as (p & q & tl & -> & Hgo & Hq).
      exists (x :: p), q, tl. rewrite Hgo. simpl. rewrite <- app_assoc. auto.
Qed.

Lemma fence_eq : fence = [backtick; backtick; backtick].
Proof. reflexivity. Qed.

Lemma fence_json_eq : fence_json = backtick :: [backtick; backtick] ++ lit "json".
Proof. reflexivity. Qed.

Lemma fenced_plain pre body post :
  backtick ∉ pre -> backtick ∉ body ->
  fenced fence (pre ++ fence ++ body ++ fence ++ post) = Some (strip body).
Proof.
  intros Hpre Hbody. unfold fenced, split_str. rewrite fence_eq.
  rewrite split_go_at_sep by done. rewrite split_go_at_sep by done.
  simpl rev. simpl app at 1. by rewrite split_go_no_head.
Qed.

Lemma fenced_json pre body post :
  backtick ∉ pre -> backtick ∉ body -> starts_with_char backtick post = false ->
  fenced fence_json (pre ++ fence_json ++ body ++ fence ++ post)
  = Some (strip body).
Proof.
  intros Hpre Hbody Hpost. unfold fenced, split_str.
  rewrite fence_json_eq, fence_eq. rewrite split_go_at_sep by done.
  destruct (split_go_head (backtick :: [backtick; backtick] ++ lit "json") []
              (body ++ [backtick; backtick; backtick] ++ post))
    as (p & q & tl & Hs & -> & Hq).
  simpl rev. rewrite !app_nil_l.
  assert (Hq' : q = [] \/ exists q', q = backtick :: q'
                  /\ startswith ([backtick; backtick] ++ lit "json") q' = true).
  { destruct Hq as [->|Hq]; [by left|right].
    by apply startswith_cons_inv. }
  clear Hq.
  assert (Hnot : forall t, starts_with_char backtick post = false ->
                           post = backtick :: t -> False).
  { intros t Hp ->. discriminate Hp. }
  symmetry in Hs. apply app_eq_inv in Hs as [(k & -> & Hk)|(k & -> & Hk)].
  - destruct k as [|a [|b [|c k]]].
    + rewrite app_nil_r. by rewrite split_go_no_head.
    + exfalso. simpl in Hk. injection Hk as _ Hk.
      destruct Hq' as [->|(q' & -> & Hq')]; [done|].
      injection Hk as <-.
      apply startswith_cons_inv in Hq' as (s1 & [= <-] & Hq').
      apply startswith_cons_inv in Hq' as (s2 & Hp2 & _).
      by eapply Hnot.
    + exfalso. simpl in Hk. injection Hk as _ _ Hk.
      destruct Hq' as [->|(q' & -> & Hq')]; [done|].
      injection Hk as <-.
      apply startswith_cons_inv in Hq' as (s1 & Hp1 & _).
      by eapply Hnot.
    + simpl in Hk. injection Hk as <- <- <- _.
      change (body ++ backtick :: backtick :: backtick :: k)
        with (body ++ (backtick :: [backtick; backtick]) ++ k).
      by rewrite split_go_at_sep.
  - destruct k as [|c k].
    + rewrite app_nil_r in *. by rewrite split_go_no_head.
    + exfalso. destruct Hq' as [->|(q' & -> & _)]; [done|].
      injection Hk as <- _. apply Hbody. apply elem_of_app. right. left.
Qed.

(** X26. An ARK answer without the report tag that is no JSON as it stands
    but carries a markdown fence is recovered in two cases.  With a fence
    tagged [json], no backtick before the fence nor inside it, and a text
    after the closing fence that does not begin with a backtick, the client
    parses the text between the two fences, stripped of surrounding white
    space.  With a plain fence, no backtick before it nor inside it, and no
    fence tagged [json] anywhere in the answer, it does the same.  What
    follows the closing fence is ignored, and if the fenced text does not
    parse either, the process ends with status 1. *)
Theorem X26_fenced_answer_is_recovered (loads : str -> option json)
    (data : json) (content pre body post : str) :
  ark_content data = Some (JStr content) ->
  contains tag_open content = false ->
  loads content = None ->
  backtick ∉ pre -> backtick ∉ body ->
  let inner :=
    match loads (strip body) with Some v => Ok v | None => Exit 1 end in
  (content = pre ++ fence_json ++ body ++ fence ++ post ->
   starts_with_char backtick post = false ->
   ark_handle loads data = inner)
  /\ (content = pre ++ fence ++ body ++ fence ++ post ->
      contains fence_json content = false ->
      ark_handle loads data = inner).
Proof.
  intros Hdata Htag Hloads Hpre Hbody inner. subst inner.
  unfold ark_handle. rewrite Hdata. split.
  - intros -> Hpost.
    assert (Hne : truthy (JStr (pre ++ fence_json ++ body ++ fence ++ post)) = true).
    { unfold truthy. destruct pre; [|done]. by rewrite fence_json_eq. }
    rewrite Hne, Htag, Hloads. simpl negb. cbv iota.
    by rewrite contains_app, fenced_json.
  - intros -> Hnojson.
    assert (Hne : truthy (JStr (pre ++ fence ++ body ++ fence ++ post)) = true).
    { unfold truthy. destruct pre; [|done]. by rewrite fence_eq. }
    rewrite Hne, Htag, Hloads, Hnojson. simpl negb. cbv iota.
    by rewrite contains_app, fenced_plain.
Qed.

Lemma X26_fenced_answer_is_recovered_witness :
  ark_handle loads (ark_body (lit "Here it is: ```json {} ``` done"))
  = Ok (JObj []).
Proof.
  pose proof (X26_fenced_answer_is_recovered loads
                (ark_body (lit "Here it is: ```json {} ``` done"))
                (lit "Here it is: ```json {} ``` done")
                (lit "Here it is: ") (lit " {} ") (lit " done")) as H.
  cbv zeta in H.
  assert (Hno : forall s : str, bool_decide (backtick ∉ s) = true -> backtick ∉ s).
  { intros s Hs. by apply bool_decide_eq_true in Hs. }
  destruct H as [H _].
  - vm_compute. reflexivity.
  - vm_compute. reflexivity.
  - vm_compute. reflexivity.
  - apply Hno. vm_compute. reflexivity.
  - apply Hno. vm_compute. reflexivity.
  - rewrite H.
    + vm_compute. reflexivity.
    + vm_compute. reflexivity.
    + vm_compute. reflexivity.
Defined.

(** *** Finding the text of an ARK response *)

Lemma scan_content_items_skip before rest content :
  Forall (fun item => exists d, item = JObj d
            /\ is_str (lit "output_text") (Dict.get (lit "type") d) = false)
         before ->
  scan_content_items (before ++ rest) content = scan_content_items rest content.
Proof.
  induction 1 as [|item before (d & -> & Hd) _ IH]; [done|].
  simpl. by rewrite Hd.
Qed.

Lemma scan_output_skip before rest content :
  Forall (fun item => exists d, item = JObj d
            /\ is_str (lit "message") (Dict.get (lit "type") d)
               && is_str (lit "assistant") (Dict.get (lit "role") d) = false)
         before ->
  scan_output (before ++ rest) content = scan_output rest content.
Proof.
  induction 1 as [|item before (d & -> & Hd) _ IH]; [done|].
  simpl. by rewrite Hd.
Qed.

(** X27. The text of an ARK response is the [text] of the first
    ["output_text"] part of the first assistant message of [output]: the
    output items before it that are no assistant message (reasoning items,
    say) and the parts of other types before it are passed over, and
    whatever follows is not looked at.  Only when that text is empty (or
    otherwise falsy) does the search go on with the later output items. *)
Theorem X27_first_assistant_text (kv msg part : list (str * json))
    (before after parts_before parts_after : list json) (text : json) :
  Dict.get (lit "output") kv = Some (JArr (before ++ JObj msg :: after)) ->
  Forall (fun item => exists d, item = JObj d
            /\ is_str (lit "message") (Dict.get (lit "type") d)
               && is_str (lit "assistant") (Dict.get (lit "role") d) = false)
         before ->
  is_str (lit "message") (Dict.get (lit "type") msg) = true ->
  is_str (lit "assistant") (Dict.get (lit "role") msg) = true ->
  Dict.get (lit "content") msg
  = Some (JArr (parts_before ++ JObj part :: parts_after)) ->
  Forall (fun item => exists d, item = JObj d
            /\ is_str (lit "output_text") (Dict.get (lit "type") d) = false)
         parts_before ->
  is_str (lit "output_text") (Dict.get (lit "type") part) = true ->
  Dict.get (lit "text") part = Some text ->
  ark_content (JObj kv)
  = if truthy text then Some text else scan_output after text.
Proof.
  intros Hout Hbefore Hty Hrole Hcontent Hparts Hpart Htext.
  unfold ark_content. rewrite Hout. simpl default. simpl iterable. cbv iota.
  rewrite scan_output_skip by done.
  cbn [scan_output get_attr]. rewrite Hty, Hrole, Hcontent.
  simpl andb. cbv iota. simpl default. simpl iterable. cbv iota.
  rewrite scan_content_items_skip by done.
  cbn [scan_content_items get_attr]. rewrite Hpart, Htext. reflexivity.
Qed.

Lemma X27_first_assistant_text_witness :
  ark_content (ark_body (lit "{}")) = Some (JStr (lit "{}")).
Proof.
  apply (X27_first_assistant_text _
           [(lit "type", JStr (lit "message"));
            (lit "role", JStr (lit "assistant"));
            (lit "content",
             JArr [JObj [(lit "type", JStr (lit "output_text"));
                         (lit "text", JStr (lit "{}"))]])]
           [(lit "type", JStr (lit "output_text")); (lit "text", JStr (lit "{}"))]
           [JObj [(lit "type", JStr (lit "reasoning"))]] [] [] []
           (JStr (lit "{}"))).
  - vm_compute. reflexivity.
  - constructor; [|constructor].
    exists [(lit "type", JStr (lit "reasoning"))]. split; [reflexivity|].
    vm_compute. reflexivity.
  - vm_compute. reflexivity.
  - vm_compute. reflexivity.
  - vm_compute. reflexivity.
  - constructor.
  - vm_compute. reflexivity.
  - vm_compute. reflexivity.
Defined.
